(** * Insurance_Agent: the dialogue/session state machine, embedded in Rocq

    A shallow embedding of [src/dialogue.py], [src/nlu.py] and
    [src/premium.py], with the parts of the Python standard library they
    call ([str] methods, [re], [difflib.SequenceMatcher], [datetime]).

    Conventions of the model.
    - Python [str] values are Rocq [string]s.  Character classes
      ([str.lower], [str.strip], [str.isdigit], the regex classes [\d],
      [\w], [\s]) are the ASCII ones; they agree with Python on every
      ASCII utterance, and leave bytes above 127 alone.
    - The session's [slots] dictionary is a [gmap string value]; [value]
      is the sum of the Python types the code stores in it.
    - [datetime.now()] is an input of the turn ([Clock]), read once per
      turn; [CURRENT_YEAR] is the year read when the module was loaded.
    - A Python exception is the outcome [Raise]. *)

From Stdlib Require Import ZArith QArith Qround Ascii String List Bool Lia.
From stdpp Require Import base option strings gmap fin_maps pretty.

Set Default Proof Using "Type".
Open Scope string_scope.
Open Scope Z_scope.

(* ===================================================================== *)
(** ** Python strings *)
(* ===================================================================== *)

Module PyStr.

Definition code (c : ascii) : nat := nat_of_ascii c.

Definition between (lo hi : nat) (c : ascii) : bool :=
  (Nat.leb lo (code c)) && (Nat.leb (code c) hi).

Definition is_upper (c : ascii) : bool := between 65 90 c.
Definition is_lower (c : ascii) : bool := between 97 122 c.
Definition is_alpha (c : ascii) : bool := is_upper c || is_lower c.
(** [ch.isdigit()] and the regex class [\d]. *)
Definition is_digit (c : ascii) : bool := between 48 57 c.
(** [\w]: letters, digits and the underscore. *)
Definition is_word (c : ascii) : bool :=
  is_alpha c || is_digit c || Nat.eqb (code c) 95.
(** [str.isspace], the characters removed by [str.strip()] and matched
    by [\s]: tab, LF, VT, FF, CR, the separators 0x1c-0x1f and space. *)
Definition is_space (c : ascii) : bool :=
  between 9 13 c || between 28 31 c || Nat.eqb (code c) 32.

Definition lower_char (c : ascii) : ascii :=
  if is_upper c then ascii_of_nat (code c + 32) else c.

(** [s.lower()] *)
Fixpoint lower (s : string) : string :=
  match s with
  | EmptyString => EmptyString
  | String c s' => String (lower_char c) (lower s')
  end.

Fixpoint lstrip (s : string) : string :=
  match s with
  | EmptyString => EmptyString
  | String c s' => if is_space c then lstrip s' else s
  end.

Fixpoint rstrip (s : string) : string :=
  match s with
  | EmptyString => EmptyString
  | String c s' =>
      match rstrip s' with
      | EmptyString => if is_space c then EmptyString else String c EmptyString
      | r => String c r
      end
  end.

(** [s.strip()] *)
Definition strip (s : string) : string := rstrip (lstrip s).

(** [p in t] for two strings: [p] occurs in [t] as a substring. *)
Fixpoint contains (p t : string) : bool :=
  String.prefix p t ||
  match t with
  | EmptyString => false
  | String _ t' => contains p t'
  end.

(** [any(p in t for p in ps)] *)
Definition any_in (ps : list string) (t : string) : bool :=
  existsb (fun p => contains p t) ps.

(** [x in xs] for a list or a set of strings. *)
Definition mem (x : string) (xs : list string) : bool :=
  existsb (String.eqb x) xs.

(** ["".join(ch for ch in t if ch.isdigit())] *)
Fixpoint digits_of (t : string) : string :=
  match t with
  | EmptyString => EmptyString
  | String c t' => if is_digit c then String c (digits_of t') else digits_of t'
  end.

(** [s.isdigit()]: non-empty and all digits. *)
Fixpoint all_digits (s : string) : bool :=
  match s with
  | EmptyString => true
  | String c s' => is_digit c && all_digits s'
  end.
Definition isdigit (s : string) : bool :=
  match s with EmptyString => false | _ => all_digits s end.

(** ["".join(parts)] *)
Definition join (parts : list string) : string := String.concat "" parts.

(** [d * n]: the string repeated. *)
Fixpoint repeat_str (d : string) (n : nat) : string :=
  match n with O => EmptyString | S n' => d ++ repeat_str d n' end.

(** The value of a string of decimal digits. *)
Fixpoint digits_value_acc (acc : Z) (s : string) : Z :=
  match s with
  | EmptyString => acc
  | String c s' => digits_value_acc (10 * acc + Z.of_nat (code c - 48)) s'
  end.
Definition digits_value (s : string) : Z := digits_value_acc 0 s.

(** [int(s)] on a string: surrounding whitespace, an optional sign,
    then decimal digits; anything else raises [ValueError] ([None]). *)
Definition int_of_string (s : string) : option Z :=
  match strip s with
  | String "-" d => if isdigit d then Some (- digits_value d) else None
  | String "+" d => if isdigit d then Some (digits_value d) else None
  | d => if isdigit d then Some (digits_value d) else None
  end.

(** [f"{n:0wd}"]: the decimal digits of [n], with zeros on the left up
    to [w] characters, the sign included and put first. *)
Definition zfill (w : nat) (n : Z) : string :=
  let d := pretty (Z.abs n) in
  if n <? 0
  then "-" ++ repeat_str "0" (w - 1 - String.length d) ++ d
  else repeat_str "0" (w - String.length d) ++ d.

(** [s.split()]: the maximal runs of non-space characters. *)
Fixpoint words_from (cur : string) (s : string) : list string :=
  match s with
  | EmptyString => match cur with EmptyString => [] | _ => [cur] end
  | String c s' =>
      if is_space c
      then match cur with
           | EmptyString => words_from EmptyString s'
           | _ => cur :: words_from EmptyString s'
           end
      else words_from (cur ++ String c EmptyString) s'
  end.
Definition words (s : string) : list string := words_from EmptyString s.

End PyStr.

Example lower_ex : PyStr.lower "  Hang UP " = "  hang up ".
Proof. reflexivity. Qed.
Example strip_ex : PyStr.strip "  hang up  " = "hang up".
Proof. reflexivity. Qed.
Example contains_ex : PyStr.contains "end" "rear-ended" = true.
Proof. reflexivity. Qed.
Example zfill_ex : PyStr.zfill 5 42 = "00042".
Proof. reflexivity. Qed.
Example words_ex : PyStr.words "  a  bc d " = ["a"; "bc"; "d"].
Proof. reflexivity. Qed.

(* ===================================================================== *)
(** ** Python's [re]: a backtracking matcher *)
(* ===================================================================== *)

(** The patterns of the program are transcribed as [regex] terms and run
    by a backtracking matcher with Python's priorities: the leftmost
    match, the first alternative that leads to a match, greedy
    repetitions longest first and lazy ones shortest first. *)

Module Re.
Import PyStr.

Inductive regex : Type :=
| Eps
| Chr (p : ascii -> bool)                 (* one character of a class *)
| Cat (r1 r2 : regex)
| Alt (r1 r2 : regex)                     (* r1|r2 *)
| Rep (greedy : bool) (lo : nat) (hi : option nat) (r : regex)
| Grp (i : nat) (r : regex)               (* capturing group number i *)
| WordB                                   (* \b *)
| Bos                                     (* ^ *)
| Eos                                     (* $ *)
| Behind (p : ascii -> bool).             (* (?<=[...]) *)

(** A position of the matcher: the character before it, the text after
    it, and the groups captured so far. *)
Record mstate := MState {
  prev : option ascii;
  rest : string;
  caps : list (nat * string)
}.

Definition word_before (s : mstate) : bool :=
  match prev s with Some c => is_word c | None => false end.
Definition word_after (s : mstate) : bool :=
  match rest s with String c _ => is_word c | EmptyString => false end.

Definition within (hi : option nat) (n : nat) : bool :=
  match hi with None => true | Some h => Nat.ltb n h end.

Definition consumed (s s' : mstate) : string :=
  String.substring 0 (String.length (rest s) - String.length (rest s')) (rest s).

Fixpoint rmatch {A : Type} (r : regex) (k : mstate -> option A) (s : mstate)
  {struct r} : option A :=
  match r with
  | Eps => k s
  | Chr p =>
      match rest s with
      | String c tl => if p c then k (MState (Some c) tl (caps s)) else None
      | EmptyString => None
      end
  | Cat r1 r2 => rmatch r1 (rmatch r2 k) s
  | Alt r1 r2 =>
      match rmatch r1 k s with
      | Some a => Some a
      | None => rmatch r2 k s
      end
  | Rep greedy lo hi r' =>
      (fix loop (fuel n : nat) (s : mstate) {struct fuel} : option A :=
         let stop (_ : unit) := if Nat.leb lo n then k s else None in
         let more (_ : unit) :=
           match fuel with
           | O => None
           | S fuel' =>
               if within hi n
               then rmatch r'
                      (fun s' =>
                         if Nat.ltb (String.length (rest s')) (String.length (rest s))
                         then loop fuel' (S n) s' else None) s
               else None
           end in
         if greedy
         then match more tt with Some a => Some a | None => stop tt end
         else match stop tt with Some a => Some a | None => more tt end)
        (String.length (rest s)) O s
  | Grp i r' =>
      rmatch r' (fun s' => k (MState (prev s') (rest s') ((i, consumed s s') :: caps s'))) s
  | WordB => if xorb (word_before s) (word_after s) then k s else None
  | Bos => match prev s with None => k s | Some _ => None end
  | Eos =>
      match rest s with
      | EmptyString => k s
      | String c EmptyString => if Nat.eqb (code c) 10 then k s else None
      | _ => None
      end
  | Behind p =>
      match prev s with
      | Some c => if p c then k s else None
      | None => None
      end
  end.

(** A match object: where it starts, its text ([m.group(0)]), its
    groups, and the position just after it. *)
Record rmatch_obj := MatchObj {
  m_start : nat;
  m_text : string;
  m_caps : list (nat * string);
  m_end : mstate
}.

(** [m.group(i)]; [None] when the group took no part in the match. *)
Fixpoint group_in (cs : list (nat * string)) (i : nat) : option string :=
  match cs with
  | [] => None
  | (j, t) :: cs' => if Nat.eqb i j then Some t else group_in cs' i
  end.
Definition group (m : rmatch_obj) (i : nat) : option string := group_in (m_caps m) i.

Definition match_at (r : regex) (pos : nat) (s : mstate) : option rmatch_obj :=
  rmatch r (fun s' => Some (MatchObj pos (consumed s s') (caps s') (MState (prev s') (rest s') []))) s.

Fixpoint search_from (r : regex) (pos : nat) (p : option ascii) (t : string)
  {struct t} : option rmatch_obj :=
  match match_at r pos (MState p t []) with
  | Some m => Some m
  | None =>
      match t with
      | EmptyString => None
      | String c t' => search_from r (S pos) (Some c) t'
      end
  end.

(** [re.search(r, t)] *)
Definition search (r : regex) (t : string) : option rmatch_obj :=
  search_from r 0 None t.

(** [re.fullmatch(r, t)] *)
Definition fullmatch (r : regex) (t : string) : option rmatch_obj :=
  rmatch r (fun s' => match rest s' with
                      | EmptyString => Some (MatchObj 0 t (caps s') s')
                      | _ => None
                      end) (MState None t []).

(** [re.findall(r, t)] for a pattern without groups whose matches are
    never empty: the successive matches, each search resuming where
    the previous match ended. *)
Fixpoint findall_from (fuel : nat) (r : regex) (p : option ascii) (t : string)
  : list string :=
  match fuel with
  | O => []
  | S fuel' =>
      match search_from r 0 p t with
      | None => []
      | Some m => m_text m :: findall_from fuel' r (prev (m_end m)) (rest (m_end m))
      end
  end.
Definition findall (r : regex) (t : string) : list string :=
  findall_from (S (String.length t)) r None t.

(** [re.split(r, t)] for a pattern without groups whose matches are
    never empty. *)
Fixpoint split_from (fuel : nat) (r : regex) (p : option ascii) (t : string)
  : list string :=
  match fuel with
  | O => [t]
  | S fuel' =>
      match search_from r 0 p t with
      | None => [t]
      | Some m =>
          String.substring 0 (m_start m) t
            :: split_from fuel' r (prev (m_end m)) (rest (m_end m))
      end
  end.
Definition split (r : regex) (t : string) : list string :=
  split_from (S (String.length t)) r None t.

(** *** Pattern syntax *)

Definition chr (c : ascii) : regex := Chr (Ascii.eqb c).
(** A letter under [re.IGNORECASE]. *)
Definition chri (c : ascii) : regex := Chr (fun x => Ascii.eqb (lower_char x) (lower_char c)).
Fixpoint lit (s : string) : regex :=
  match s with
  | EmptyString => Eps
  | String c EmptyString => chr c
  | String c s' => Cat (chr c) (lit s')
  end.
Fixpoint liti (s : string) : regex :=
  match s with
  | EmptyString => Eps
  | String c EmptyString => chri c
  | String c s' => Cat (chri c) (liti s')
  end.
Fixpoint alts (rs : list regex) : regex :=
  match rs with
  | [] => Chr (fun _ => false)
  | [r] => r
  | r :: rs' => Alt r (alts rs')
  end.
Fixpoint cats (rs : list regex) : regex :=
  match rs with
  | [] => Eps
  | [r] => r
  | r :: rs' => Cat r (cats rs')
  end.
Definition star (r : regex) : regex := Rep true 0 None r.
Definition plus (r : regex) : regex := Rep true 1 None r.
Definition plus_lazy (r : regex) : regex := Rep false 1 None r.
Definition opt (r : regex) : regex := Rep true 0 (Some 1%nat) r.
Definition times (lo hi : nat) (r : regex) : regex := Rep true lo (Some hi) r.
Definition at_least (lo : nat) (r : regex) : regex := Rep true lo None r.
Definition digit : regex := Chr is_digit.
Definition space : regex := Chr is_space.
(** [[abc]]: one of the characters of a string. *)
Definition one_of (cs : string) : regex :=
  Chr (fun x => existsb (Ascii.eqb x) (list_ascii_of_string cs)).

End Re.

Example re_search_ex :
  option_map Re.m_text
    (Re.search (Re.cats [Re.WordB; Re.alts [Re.lit "no"; Re.lit "nope"]; Re.WordB]) "oh nope, no")
  = Some "nope".
Proof. reflexivity. Qed.
Example re_findall_ex :
  Re.findall (Re.Alt (Re.plus (Re.Chr PyStr.is_alpha)) (Re.plus Re.digit)) "ab12 c-3"
  = ["ab"; "12"; "c"; "3"].
Proof. reflexivity. Qed.
Example re_split_ex : Re.split (Re.one_of ",.!?;") "a,b.c" = ["a"; "b"; "c"].
Proof. reflexivity. Qed.

(* ===================================================================== *)
(** ** [difflib.SequenceMatcher(None, a, b).ratio()] *)
(* ===================================================================== *)

(** CPython's matcher with no junk: [isjunk] is [None], and the automatic
    junk heuristic only applies when [b] has 200 elements or more, while
    the program always passes ["ljubljana"] as [b]. *)

Module Difflib.

Definition block : Type := (nat * nat * nat)%type.   (* (i, j, size) *)
Definition at_ (s : list ascii) (i : nat) : ascii := nth i s Ascii.zero.

(** One value of [i] in the outer loop of [find_longest_match]: [j]
    runs over the positions of [a[i]] in [b] within [blo, bhi), in
    increasing order; [j2len] maps [j] to the length of the longest
    match ending with [a[i-1]] and [b[j]] (0 when absent). *)
Definition scan_row (a b : list ascii) (blo bhi : nat)
  (acc : block * list nat) (i : nat) : block * list nat :=
  let '(best, j2len) := acc in
  fold_left
    (fun (st : block * list nat) (j : nat) =>
       let '(bst, newj2len) := st in
       if Ascii.eqb (at_ a i) (at_ b j) then
         let k := S (match j with O => O | S j' => nth j' j2len O end) in
         let bst' := if Nat.ltb (snd bst) k then (i + 1 - k, j + 1 - k, k)%nat else bst in
         (bst', <[j := k]> newj2len)
       else st)
    (seq blo (bhi - blo))
    (best, repeat O (length b)).

(** The two loops that extend the best match at each end while the
    neighbouring elements are equal. *)
Fixpoint extend_left (fuel : nat) (a b : list ascii) (alo blo : nat) (m : block) : block :=
  match fuel with
  | O => m
  | S fuel' =>
      let '(besti, bestj, bestsize) := m in
      if Nat.ltb alo besti && Nat.ltb blo bestj
         && Ascii.eqb (at_ a (besti - 1)) (at_ b (bestj - 1))
      then extend_left fuel' a b alo blo (besti - 1, bestj - 1, S bestsize)%nat
      else m
  end.
Fixpoint extend_right (fuel : nat) (a b : list ascii) (ahi bhi : nat) (m : block) : block :=
  match fuel with
  | O => m
  | S fuel' =>
      let '(besti, bestj, bestsize) := m in
      if Nat.ltb (besti + bestsize) ahi && Nat.ltb (bestj + bestsize) bhi
         && Ascii.eqb (at_ a (besti + bestsize)) (at_ b (bestj + bestsize))
      then extend_right fuel' a b ahi bhi (besti, bestj, S bestsize)
      else m
  end.

Definition find_longest_match (a b : list ascii) (alo ahi blo bhi : nat) : block :=
  let '(best, _) :=
    fold_left (scan_row a b blo bhi) (seq alo (ahi - alo))
      ((alo, blo, O), repeat O (length b)) in
  extend_right (length a) a b ahi bhi (extend_left (length a) a b alo blo best).

(** The work list of [get_matching_blocks]; the head of [queue] is the
    element [queue.pop()] returns. *)
Fixpoint matching_blocks (fuel : nat) (a b : list ascii)
  (queue : list (nat * nat * nat * nat)) (found : list block) : list block :=
  match fuel with
  | O => found
  | S fuel' =>
      match queue with
      | [] => found
      | (alo, ahi, blo, bhi) :: queue' =>
          let '(i, j, k) := find_longest_match a b alo ahi blo bhi in
          match k with
          | O => matching_blocks fuel' a b queue' found
          | S _ =>
              let q1 := if Nat.ltb alo i && Nat.ltb blo j
                        then (alo, i, blo, j) :: queue' else queue' in
              let q2 := if Nat.ltb (i + k) ahi && Nat.ltb (j + k) bhi
                        then (i + k, ahi, j + k, bhi)%nat :: q1 else q1 in
              matching_blocks fuel' a b q2 ((i, j, k) :: found)
          end
      end
  end.

(** [sum(triple[-1] for triple in self.get_matching_blocks())] *)
Definition matches (a b : list ascii) : nat :=
  let blocks :=
    matching_blocks (S (2 * length a)) a b [(O, length a, O, length b)] [] in
  fold_right (fun m acc => (snd m + acc)%nat) O blocks.

(** [ratio()]: [2.0 * matches / length], or [1.0] for two empty
    sequences; a quotient of two small integers, kept exact. *)
Definition ratio (a b : string) : Q :=
  let la := list_ascii_of_string a in
  let lb := list_ascii_of_string b in
  match (length la + length lb)%nat with
  | O => 1%Q
  | S n => Qmake (2 * Z.of_nat (matches la lb)) (Pos.of_succ_nat n)
  end.

End Difflib.

Example ratio_ex1 : Difflib.ratio "lublana" "ljubljana" = Qmake 14 16.
Proof. reflexivity. Qed.
Example ratio_ex2 : Difflib.ratio "abcd" "bcde" = Qmake 6 8.
Proof. reflexivity. Qed.
Example ratio_ex3 : Difflib.ratio "maribor" "ljubljana" = Qmake 2 16.
Proof. reflexivity. Qed.

(* ===================================================================== *)
(** ** [datetime] *)
(* ===================================================================== *)

Module Clock.

(** What [datetime.now()] returns, as far as the program uses it. *)
Record datetime := Date { year : Z; month : Z; day : Z }.

Definition is_leap (y : Z) : bool :=
  (y mod 4 =? 0) && (negb (y mod 100 =? 0) || (y mod 400 =? 0)).

Definition days_in_month (y m : Z) : Z :=
  if m =? 2 then (if is_leap y then 29 else 28)
  else if (m =? 4) || (m =? 6) || (m =? 9) || (m =? 11) then 30
  else 31.

(** [d - timedelta(days=1)] *)
Definition minus_one_day (d : datetime) : datetime :=
  if 1 <? day d then Date (year d) (month d) (day d - 1)
  else if 1 <? month d
       then Date (year d) (month d - 1) (days_in_month (year d) (month d - 1))
       else Date (year d - 1) 12 31.

(** [d.strftime("%Y-%m-%d")] *)
Definition iso (d : datetime) : string :=
  PyStr.zfill 4 (year d) ++ "-" ++ PyStr.zfill 2 (month d) ++ "-" ++ PyStr.zfill 2 (day d).

(** [d.strftime("%Y%m")] *)
Definition yyyymm (d : datetime) : string :=
  PyStr.zfill 4 (year d) ++ PyStr.zfill 2 (month d).

End Clock.

Example yesterday_ex :
  Clock.iso (Clock.minus_one_day (Clock.Date 2024 3 1)) = "2024-02-29".
Proof. reflexivity. Qed.

(* ===================================================================== *)
(** ** Slot values *)
(* ===================================================================== *)

(** The Python objects the program stores under [Dict[str, object]]:
    strings, integers, booleans, floats (only ever parsed from a decimal
    such as [1.4] and compared, so kept as the exact rational) and the
    dictionary of monthly claim counters. *)
Inductive value : Type :=
| VStr (s : string)
| VInt (n : Z)
| VBool (b : bool)
| VFloat (q : Q)
| VCounters (m : gmap string Z).

(** Python's truth value of an object ([if x:], [x and y], [not x]). *)
Definition truthy (v : value) : bool :=
  match v with
  | VStr s => negb (String.eqb s "")
  | VInt n => negb (n =? 0)
  | VBool b => b
  | VFloat q => negb (Qeq_bool q 0)
  | VCounters m => negb (bool_decide (m = ∅))
  end.
Definition truthy_opt (o : option value) : bool :=
  match o with Some v => truthy v | None => false end.

(** [int(x)] on a float: truncation towards zero. *)
Definition Qtruncate (q : Q) : Z := Z.quot (Qnum q) (Z.pos (Qden q)).

(** [int(x)]; [None] stands for the [ValueError] or [TypeError]. *)
Definition py_int (v : value) : option Z :=
  match v with
  | VStr s => PyStr.int_of_string s
  | VInt n => Some n
  | VBool b => Some (if b then 1 else 0)
  | VFloat q => Some (Qtruncate q)
  | VCounters _ => None
  end.

(** [float(x)] for the values the program converts; [None] stands for
    the exception. A string is read as [d] or [d.d]. *)
Definition float_of_string (s : string) : option Q :=
  match s with
  | String a EmptyString =>
      if PyStr.is_digit a then Some (inject_Z (PyStr.digits_value s)) else None
  | String a (String "." (String b EmptyString)) =>
      if PyStr.is_digit a && PyStr.is_digit b
      then Some (Qmake (PyStr.digits_value (String a (String b EmptyString))) 10)
      else None
  | _ => None
  end.
Definition py_float (v : value) : option Q :=
  match v with
  | VStr s => float_of_string (PyStr.strip s)
  | VInt n => Some (inject_Z n)
  | VBool b => Some (if b then 1%Q else 0%Q)
  | VFloat q => Some q
  | VCounters _ => None
  end.

(** [str(x)], as an f-string renders a slot. A float is shown with one
    fractional digit, which is exact for the floats the program stores;
    the counters dictionary is never rendered by the program and is
    shown as a fixed text. *)
Definition py_str (v : value) : string :=
  match v with
  | VStr s => s
  | VInt n => pretty n
  | VBool b => if b then "True" else "False"
  | VFloat q =>
      let tenths := Qtruncate (q * 10) in
      (if tenths <? 0 then "-" else "") ++
      pretty (Z.abs tenths / 10) ++ "." ++ pretty (Z.abs tenths mod 10)
  | VCounters _ => "{...}"
  end.

(** [x == "text"] *)
Definition is_str (v : value) (s : string) : bool :=
  match v with VStr s' => String.eqb s' s | _ => false end.

Abbreviation slots_t := (gmap string value).

(* ===================================================================== *)
(** ** nlu.py *)
(* ===================================================================== *)

Module Nlu.
Import PyStr Re.

(** [Intent = Literal[...]] *)
Definition Intent : list string :=
  ["doc_qa"; "report_claim"; "premium_estimate"; "clarification";
   "handoff_human"; "compare_coverage"].

Record IntentResult := mkIntentResult { intent : string; confidence : Q }.

Definition COVERAGE_ALIASES : list (string * list string) :=
  [("basic", ["basic"; "minimum"; "liability"; "low"; "budget"; "economy"; "starter"; "cheapest"]);
   ("standard", ["standard"; "normal"; "regular"; "medium"; "typical"; "mid-tier"; "moderate"]);
   ("premium", ["premium"; "full"; "comprehensive"; "high"; "best"; "top-tier"; "ultimate"])].

Definition kw_doc_qa : list string :=
  ["what is"; "tell me about"; "information on"; "details about"; "explain"; "how to"].
Definition kw_report_claim : list string :=
  ["report a claim"; "file a claim"; "accident"; "crash"; "stolen"; "theft"; "claim"].
Definition kw_premium_estimate : list string :=
  ["premium"; "quote"; "cost"; "price"; "how much"; "estimate"; " need insurance";
   "want insurance"; "need a quote"; "get a quote";
   "cheapest insurance"; "insurance cost"; "insurance premium"; "insurance quote";
   "insurance price";
   "option"; "options"; "cheap option"; "cheap options"; "cheapest option";
   "lowest price"; "need a quote"; "get a quote"].
Definition kw_handoff_human : list string :=
  ["agent"; "representative"; "call me back"; "human"; "talk to someone";
   "speak to someone"; "customer service"; "real person"; "live person"; "operator"].
Definition kw_compare_coverage : list string :=
  ["compare"; "comparison"; "compare them"; "show options"; "show differences";
   "yes compare"; "compare plans"; "options"].

Definition detect_intent (user_text : string) (last_intent : option string) : IntentResult :=
  let t := strip (lower user_text) in
  if bool_decide (last_intent = Some "premium_estimate") && any_in kw_premium_estimate t
  then mkIntentResult "premium_estimate" 0.85
  else if any_in kw_compare_coverage t then mkIntentResult "compare_coverage" 0.9
  else if any_in kw_premium_estimate t then mkIntentResult "premium_estimate" 0.8
  else if any_in kw_report_claim t then mkIntentResult "report_claim" 0.8
  else if any_in kw_handoff_human t then mkIntentResult "handoff_human" 0.7
  else mkIntentResult "doc_qa" 0.6.

(** [_extract_int]: group 1 of the leftmost match, as an integer. *)
Definition _extract_int (pattern : regex) (text : string) : option Z :=
  match search pattern text with
  | None => None
  | Some m =>
      match group m 1 with
      | Some g => int_of_string g
      | None => None
      end
  end.

(** The pattern "(\d+)\s*(?:hp|horsepower)", ignoring case. *)
Definition re_hp : regex :=
  cats [Grp 1 (plus digit); star space; alts [liti "hp"; liti "horsepower"]].

(** The pattern "\b (?:engine\s*size\s*(?:is|=)\s* )? (\d\.\d) \s* (?:l|litre|liter)? \b",
    written here with spaces between its parts. *)
Definition re_engine : regex :=
  cats [WordB;
        opt (cats [lit "engine"; star space; lit "size"; star space;
                   alts [lit "is"; lit "="]; star space]);
        Grp 1 (cats [digit; chr "."; digit]);
        star space;
        opt (alts [lit "l"; lit "litre"; lit "liter"]);
        WordB].

(** The class "[A-Za-zÀ-ž\- ]", on ASCII text. *)
Definition city_char (c : ascii) : bool :=
  is_alpha c || Ascii.eqb c "-" || Ascii.eqb c " ".

(** The pattern "\b(?:in|city)\s+([A-Za-zÀ-ž\- ]{2,})". *)
Definition re_city : regex :=
  cats [WordB; alts [lit "in"; lit "city"]; plus space;
        Grp 1 (at_least 2 (Chr city_char))].

(** The pattern "[,.!?;]". *)
Definition re_clause_end : regex := one_of ",.!?;".

(** The pattern "\b(19[5-9]\d|20[0-2]\d)\b". *)
Definition re_year : regex :=
  cats [WordB;
        Grp 1 (alts [cats [lit "19"; Chr (between 53 57); digit];
                     cats [lit "20"; Chr (between 48 50); digit]]);
        WordB].

(** The pattern "^\s*(\d{1,4})\s*$". *)
Definition re_bare_number : regex :=
  cats [Bos; star space; Grp 1 (times 1 4 digit); star space; Eos].

(** The pattern "(\d+)\s*(?:year|yr)[s]?\s*(?:old)?", ignoring case. *)
Definition re_age : regex :=
  cats [Grp 1 (plus digit); star space; alts [liti "year"; liti "yr"];
        opt (chri "s"); star space; opt (liti "old")].

(** The first level whose aliases occur in the text. *)
Fixpoint first_level (aliases : list (string * list string)) (tl : string)
  : option string :=
  match aliases with
  | [] => None
  | (level, words) :: aliases' =>
      if any_in words tl then Some level else first_level aliases' tl
  end.

Definition hd_str (l : list string) : string := List.hd "" l.

Definition extract_entities (user_text : string) : slots_t :=
  let t := strip user_text in
  let tl := lower t in
  let out : slots_t := ∅ in
  let out :=
    match first_level COVERAGE_ALIASES tl with
    | Some level => <["coverage_level" := VStr level]> out
    | None => out
    end in
  let out :=
    match _extract_int re_hp t with
    | Some hp => <["horsepower" := VInt hp]> out
    | None => out
    end in
  let out :=
    match search re_engine tl with
    | Some m =>
        match float_of_string (default "" (group m 1)) with
        | Some es =>
            if Qle_bool 0.8 es && Qle_bool es 8.0
            then <["engine_size_l" := VFloat es]> out else out
        | None => out
        end
    | None => out
    end in
  let out :=
    match search re_city t with
    | Some m =>
        let city := strip (hd_str (split re_clause_end (strip (default "" (group m 1))))) in
        let city :=
          if mem (lower city) ["ljublajan"; "ljublijana"; "ljubljana"]
          then "Ljubljana" else city in
        <["city" := VStr city]> out
    | None => out
    end in
  let out :=
    match search re_year tl with
    | Some m => <["vehicle_year" := VInt (digits_value (default "" (group m 1)))]> out
    | None => out
    end in
  let out :=
    match _extract_int re_bare_number t with
    | Some bare_number =>
        if (1950 <=? bare_number) && (bare_number <=? 2025)
        then <["vehicle_year" := VInt bare_number]> out
        else if (0 <? bare_number) && (bare_number <=? 60)
             then <["vehicle_age" := VInt bare_number]> out
             else out
    | None => out
    end in
  let out :=
    match _extract_int re_age t with
    | Some age => <["vehicle_age" := VInt age]> out
    | None => out
    end in
  out.

End Nlu.

Example detect_ex1 :
  Nlu.detect_intent "How much is it?" None = Nlu.mkIntentResult "premium_estimate" 0.8.
Proof. reflexivity. Qed.
Example entities_ex1 :
  Nlu.extract_entities "I need a quote for my 2015 car, 1.4 engine, in ljubljana, basic cover"
  = <["vehicle_year" := VInt 2015]>
      (<["city" := VStr "Ljubljana"]>
         (<["engine_size_l" := VFloat 1.4]>
            (<["coverage_level" := VStr "basic"]> ∅))).
Proof. vm_compute. reflexivity. Qed.

(* ===================================================================== *)
(** ** premium.py *)
(* ===================================================================== *)

(** The price is computed in binary floating point.  The model takes the
    arithmetic as an interface: [of_Q] is the double nearest to a decimal
    literal or to an integer, [fmul] and [fadd] are the rounded
    operations, [round2] is [round(x, 2)] and [repr] is [str(x)]. *)
Class FloatOps := {
  float : Type;
  of_Q : Q -> float;
  fadd : float -> float -> float;
  fmul : float -> float -> float;
  fle : float -> float -> bool;
  round2 : float -> float;
  repr : float -> string
}.

(** What the proofs use of the arithmetic: rounding is monotone, so the
    order of the exact results survives in the rounded ones. *)
Class FloatLaws (F : FloatOps) := {
  fle_trans : forall x y z : float, fle x y = true -> fle y z = true -> fle x z = true;
  of_Q_mono : forall p q : Q, (p <= q)%Q -> fle (of_Q p) (of_Q q) = true;
  fadd_nonneg : forall x y : float,
    fle (of_Q 0) x = true -> fle (of_Q 0) y = true -> fle (of_Q 0) (fadd x y) = true;
  fmul_nonneg : forall x y : float,
    fle (of_Q 0) x = true -> fle (of_Q 0) y = true -> fle (of_Q 0) (fmul x y) = true;
  fmul_mono_r : forall x a b : float,
    fle (of_Q 0) x = true -> fle a b = true -> fle (fmul x a) (fmul x b) = true;
  round2_mono : forall x y : float, fle x y = true -> fle (round2 x) (round2 y) = true
}.

Module Premium.
Section WithFloat.
Context {F : FloatOps}.

Record PremiumResult := mkPremiumResult {
  monthly_eur : float;
  breakdown : list (string * float)
}.

(** [city_factor_map.get(city_norm, 1.04)] *)
Definition city_factor_map : list (string * Q) :=
  [("ljubljana", 1.20%Q); ("maribor", 1.15%Q); ("celje", 1.10%Q); ("koper", 1.05%Q)].

(** [coverage_factor_map]; the factor of ["premium"] is the integer 1. *)
Definition coverage_factor_map : list (string * Q) :=
  [("basic", 0.80%Q); ("standard", 0.90%Q); ("premium", 1%Q)].

Fixpoint assoc (k : string) (m : list (string * Q)) : option Q :=
  match m with
  | [] => None
  | (k', v) :: m' => if String.eqb k k' then Some v else assoc k m'
  end.

(** [None] is the [KeyError] of [coverage_factor_map[coverage_level]]. *)
Definition calculate_premium (vehicle_age horsepower : Z) (city : string)
  (coverage_level : string) : option PremiumResult :=
  let base := of_Q 25.0 in
  let age_factor :=
    fadd (of_Q 1.0) (fmul (of_Q (inject_Z (Z.max 0 (vehicle_age - 3)))) (of_Q 0.05)) in
  let power_factor :=
    fadd (of_Q 1.0) (fmul (of_Q (inject_Z (Z.max 0 (horsepower - 80)))) (of_Q 0.01)) in
  let city_norm := PyStr.lower (PyStr.strip city) in
  let city_factor := of_Q (default 1.04%Q (assoc city_norm city_factor_map)) in
  match assoc coverage_level coverage_factor_map with
  | None => None
  | Some cf =>
      let coverage_factor := of_Q cf in
      let monthly :=
        fmul (fmul (fmul (fmul base age_factor) power_factor) city_factor) coverage_factor in
      Some (mkPremiumResult (round2 monthly)
              [("base", base); ("age_factor", age_factor);
               ("power_factor", power_factor); ("city_factor", city_factor);
               ("coverage_factor", coverage_factor)])
  end.

End WithFloat.
End Premium.

(** Exact decimal arithmetic: an instance of the interface in which no
    operation rounds, used to run the model on concrete turns. *)
Module ExactFloat.

(** Rounding to the nearest integer, ties to even. *)
Definition round_half_even (q : Q) : Z :=
  let fl := Qfloor q in
  let twice := Qfloor (q * 2) - 2 * fl in      (* 0: below the half, 1: at or above *)
  if twice =? 0 then fl
  else if Qeq_bool (q * 2) (inject_Z (2 * fl + 1))
       then (if Z.even fl then fl else fl + 1)
       else fl + 1.

Definition q_round2 (q : Q) : Q := Qmake (round_half_even (q * 100)) 100.

(** The shortest decimal of a number of hundredths, with at least one
    fractional digit. *)
Definition q_repr (q : Q) : string :=
  let n := round_half_even (q * 100) in
  let a := Z.abs n in
  (if n <? 0 then "-" else "") ++ pretty (a / 100) ++ "." ++
  (if a mod 10 =? 0 then pretty (a mod 100 / 10)
   else pretty (a mod 100 / 10) ++ pretty (a mod 10)).

#[export] Instance ops : FloatOps := {|
  float := Q;
  of_Q := fun q => q;
  fadd := Qplus;
  fmul := Qmult;
  fle := Qle_bool;
  round2 := q_round2;
  repr := q_repr
|}.

End ExactFloat.

Example premium_ex1 :
  option_map (fun r => repr (Premium.monthly_eur r))
    (Premium.calculate_premium (F := ExactFloat.ops) 10 120 "Ljubljana" "basic")
  = Some "45.36".
Proof. vm_compute. reflexivity. Qed.

(* ===================================================================== *)
(** ** dialogue.py *)
(* ===================================================================== *)

Module Dialogue.
Import PyStr Re.

Definition CANCEL_WORDS : list string := ["cancel"; "stop"; "nevermind"; "never mind"].
Definition EXIT_WORDS : list string :=
  ["hang up"; "goodbye"; "bye"; "exit"; "quit"; "stop"; "end"; "terminate";
   "close"; "disconnect"].

Definition _DIGIT_WORDS : list (string * string) :=
  [("zero", "0"); ("oh", "0"); ("o", "0"); ("one", "1"); ("two", "2");
   ("three", "3"); ("four", "4"); ("for", "4"); ("five", "5"); ("six", "6");
   ("seven", "7"); ("eight", "8"); ("ate", "8"); ("nine", "9")].

(** [_DIGIT_WORDS.get(tok)] *)
Fixpoint digit_word_in (m : list (string * string)) (tok : string) : option string :=
  match m with
  | [] => None
  | (w, d) :: m' => if String.eqb tok w then Some d else digit_word_in m' tok
  end.
Definition digit_word (tok : string) : option string := digit_word_in _DIGIT_WORDS tok.

Definition HUMAN_FALLBACK : string :=
  "I don't have enough information for more. " ++
  "You can say 'human agent' to be connected to our service center or check our website.".

Definition _looks_like_insurance_request (t : string) : bool :=
  any_in ["need insurance"; "want insurance"; "looking for insurance";
          "get insurance"; "buy insurance"; "insurance for my car"] t.

(** The pattern "[a-zA-Z]+|\d+". *)
Definition re_token : regex := Alt (plus (Chr is_alpha)) (plus digit).

(** The [while] loop of [_spoken_digits_to_string] over the tokens
    from index [i] on; [out] is the list built so far. *)
Fixpoint spoken_loop (tokens : list string) (out : list string) : list string :=
  match tokens with
  | [] => out
  | tok :: tokens' =>
      if isdigit tok then spoken_loop tokens' (out ++ [tok])
      else
        let single :=
          match digit_word tok with
          | Some d => spoken_loop tokens' (out ++ [d])
          | None => spoken_loop tokens' out
          end in
        if mem tok ["double"; "triple"] then
          match tokens' with
          | nxt :: tokens'' =>
              match digit_word nxt with
              | Some d =>
                  spoken_loop tokens''
                    (out ++ [repeat_str d (if String.eqb tok "double" then 2 else 3)])
              | None => single
              end
          | [] => single
          end
        else single
  end.

(** The two readings of an utterance as digits. *)
Definition raw_digits_of (text : string) : string := digits_of (lower text).
Definition spoken_of (text : string) : string :=
  join (spoken_loop (findall re_token (lower text)) []).

Definition _spoken_digits_to_string (text : string) : string :=
  let raw_digits := raw_digits_of text in
  let spoken := spoken_of text in
  if Nat.leb (String.length raw_digits) (String.length spoken)
  then spoken else raw_digits.

Definition _extract_policy_number (text : string) : string :=
  let s := _spoken_digits_to_string text in
  let s := digits_of s in
  if Nat.leb 6 (String.length s) then s else "".

Definition _contains_any (text : string) (phrases : list string) : bool :=
  let t := lower text in
  any_in phrases t.

Definition lj_variants : list string :=
  ["ljublajan"; "ljublijana"; "ljubljana"; "ljubljkana"; "leobliana";
   "liubljana"; "lubljana"].

Definition known : list (string * string) :=
  [("maribor", "Maribor"); ("celje", "Celje"); ("koper", "Koper")].

Fixpoint known_get (m : list (string * string)) (c : string) : option string :=
  match m with
  | [] => None
  | (k, v) :: m' => if String.eqb c k then Some v else known_get m' c
  end.

Definition normalize_city (city : string) : string :=
  let raw := strip city in
  let c := strip (lower raw) in
  if String.eqb c "" then raw
  else if mem c lj_variants || contains "ljubl" c then "Ljubljana"
  else if Qle_bool 0.75 (Difflib.ratio c "ljubljana") then "Ljubljana"
  else match known_get known c with
       | Some v => v
       | None => strip raw
       end.

(** The pattern "(?<=[.!?])\s+". *)
Definition re_sentence_gap : regex :=
  Cat (Behind (fun c => existsb (Ascii.eqb c) (list_ascii_of_string ".!?"))) (plus space).

Definition _first_sentence (text : string) (max_len : nat) : string :=
  let t := String.concat " " (words (strip text)) in
  if String.eqb t "" then ""
  else
    let parts := split re_sentence_gap t in
    let sent := match parts with p :: _ => p | [] => t end in
    if Nat.ltb max_len (String.length sent)
    then rstrip (String.substring 0 (max_len - 1) sent) ++ "…"
    else sent.

(** The pattern "[^\w]+". *)
Definition re_no_word : regex := plus (Chr (fun c => negb (is_word c))).

Definition _is_bad_sentence (s : string) : bool :=
  let s := strip s in
  Nat.ltb (String.length s) 12 || mem s ["."; "…"]
  || bool_decide (is_Some (fullmatch re_no_word s)).

Definition _looks_like_pricing (t : string) : bool :=
  any_in ["pricing"; "prcing"; "price"; "cost"; "quote"; "premium"; "how much"] t.

Definition _looks_like_claim_info_only (t : string) : bool :=
  let positives := ["claim"; "claims"; "claiming"; "report"; "reporting"] in
  let negatives := ["don't want to submit"; "do not want to submit"; "not submit";
                    "not to submit"; "just info"; "information"; "explain"; "tell me"] in
  any_in positives t && any_in negatives t.

Definition COVERAGE_SUMMARY (level : string) : string :=
  if String.eqb level "basic"
  then "Basic: third-party liability only (covers damage/injury you cause to others)."
  else if String.eqb level "standard"
  then "Standard: liability + collision/own-damage (deductible applies)."
  else "Premium: broadest cover (liability + collision + theft/fire/weather) and optional add-ons like roadside assistance.".

Definition _coverage_difference_answer : string :=
  "Differences: " ++
  COVERAGE_SUMMARY "basic" ++ " " ++
  COVERAGE_SUMMARY "standard" ++ " " ++
  COVERAGE_SUMMARY "premium" ++ " " ++
  "Do you want the cheapest option or the most coverage?".

Definition _is_dissatisfied (t : string) : bool :=
  any_in ["not precise"; "irrelevant"; "wrong"; "useless"; "stupid"; "idiot";
          "you are not helping"; "what are you talking about";
          "why you don't provide"; "why dont you provide";
          "why don't answer"; "why dont answer"] t.

(** [k in slots] *)
Definition has (slots : slots_t) (k : string) : bool :=
  bool_decide (is_Some (slots !! k)).

Definition claim_needed : list string :=
  ["insurance_number"; "injuries"; "accident_city"; "accident_date";
   "accident_description"; "police_report"; "vehicle_drivable";
   "third_party_involved"].

Definition _claim_missing_slots (slots : slots_t) : list string :=
  List.filter (fun k => negb (has slots k)) claim_needed.

Definition _ask_claim_question (missing_key : string) : string :=
  if String.eqb missing_key "insurance_number" then
    "What is your insurance/policy number? (You can read it as it appears on your policy card.)"
  else if String.eqb missing_key "injuries" then
    "Were there any injuries? Please say yes or no."
  else if String.eqb missing_key "accident_city" then
    "Which city did the accident happen in?"
  else if String.eqb missing_key "accident_date" then
    "What date did it happen? You can say 'today', 'yesterday', or a date like 2025-12-22."
  else if String.eqb missing_key "accident_description" then
    "Briefly, what happened? One sentence is enough."
  else if String.eqb missing_key "police_report" then
    "Was the police notified? Please say yes or no. If yes, do you have a report/reference number?"
  else if String.eqb missing_key "vehicle_drivable" then
    "Is your car drivable right now? Please say yes or no."
  else if String.eqb missing_key "third_party_involved" then
    "Were other vehicles involved? Please say yes or no."
  else "Can you tell me a bit more?".

(** The pattern "\b(no|nope|nah|not)\b". *)
Definition re_no : regex :=
  cats [WordB; Grp 1 (alts [lit "no"; lit "nope"; lit "nah"; lit "not"]); WordB].
(** The pattern "\b(yes|yeah|yep|y|sure|correct|ok)\b". *)
Definition re_yes : regex :=
  cats [WordB;
        Grp 1 (alts [lit "yes"; lit "yeah"; lit "yep"; lit "y"; lit "sure";
                     lit "correct"; lit "ok"]);
        WordB].

Definition _parse_yes_no (text : string) : option bool :=
  let t := lower (strip text) in
  if mem t ["np"; "nop"; "noo"; "nahh"] then Some false
  else if bool_decide (is_Some (search re_no t)) then Some false
  else if bool_decide (is_Some (search re_yes t)) then Some true
  else None.

(** The pattern "\b(\d{4})-(\d{2})-(\d{2})\b". *)
Definition re_iso_date : regex :=
  cats [WordB; Grp 1 (times 4 4 digit); chr "-"; Grp 2 (times 2 2 digit); chr "-";
        Grp 3 (times 2 2 digit); WordB].

Definition _parse_date (now : Clock.datetime) (text : string) : option string :=
  let t := lower (strip text) in
  let today := now in
  if contains "today" t then Some (Clock.iso today)
  else if contains "yesterday" t then Some (Clock.iso (Clock.minus_one_day today))
  else match search re_iso_date t with
       | Some m =>
           Some (default "" (group m 1) ++ "-" ++ default "" (group m 2) ++ "-"
                 ++ default "" (group m 3))
       | None => None
       end.

(** The pattern "\bin\s+([A-Za-zÀ-ž\- ]+?)(?:,\s*([A-Za-zÀ-ž\- ]+))?(?:[.!?]|$)",
    ignoring case. *)
Definition re_location : regex :=
  cats [WordB; liti "in"; plus space;
        Grp 1 (plus_lazy (Chr Nlu.city_char));
        opt (cats [chr ","; star space; Grp 2 (plus (Chr Nlu.city_char))]);
        alts [one_of ".!?"; Eos]].

(** The truth value of an optional string: [None] and [""] are false. *)
Definition nonempty (o : option string) : bool :=
  match o with Some s => negb (String.eqb s "") | None => false end.

(** Returns the pair [(area, city)]. *)
Definition _extract_accident_location (text : string) : option string * option string :=
  let t := strip text in
  match search re_location t with
  | None => (None, None)
  | Some m =>
      let part1 := strip (default "" (group m 1)) in
      let part2 := strip (default "" (group m 2)) in
      if negb (String.eqb part2 "")
      then (Some part1, Some (normalize_city part2))
      else (None, Some (normalize_city part1))
  end.

Definition is_alnum (c : ascii) : bool := is_alpha c || is_digit c.
Definition is_alnum_dash (c : ascii) : bool := is_alnum c || Ascii.eqb c "-".

(** The pattern "\b(?:report|ref|reference|case)\s*#?\s*([A-Za-z0-9\-]+)\b",
    ignoring case. *)
Definition re_report_ref : regex :=
  cats [WordB; alts [liti "report"; liti "ref"; liti "reference"; liti "case"];
        star space; opt (chr "#"); star space;
        Grp 1 (plus (Chr is_alnum_dash)); WordB].

Definition accident_words : list string :=
  ["accident"; "crash"; "collision"; "rear-ended"; "hit"; "bumped"].

Definition _claim_update_from_text (now : Clock.datetime) (user_text : string)
  (slots : slots_t) : slots_t :=
  let tl := strip (lower user_text) in
  let '(area, city) := _extract_accident_location user_text in
  let slots :=
    if nonempty city && negb (has slots "accident_city")
    then <["accident_city" := VStr (default "" city)]> slots else slots in
  let slots :=
    if nonempty area && negb (has slots "accident_area")
    then <["accident_area" := VStr (default "" area)]> slots else slots in
  let d := _parse_date now user_text in
  let slots :=
    if nonempty d && negb (has slots "accident_date")
    then <["accident_date" := VStr (default "" d)]> slots else slots in
  let yn := _parse_yes_no user_text in
  let slots :=
    if bool_decide (yn = None) && Nat.ltb 8 (String.length (strip user_text))
       && negb (has slots "accident_description")
    then (if any_in accident_words tl
          then <["accident_description" := VStr (strip user_text)]> slots
          else slots)
    else slots in
  match search re_report_ref user_text with
  | Some m => <["police_report_ref" := VStr (default "" (group m 1))]> slots
  | None => slots
  end.

(** The pattern "[,.!?;]" of [re.split]. *)
Definition re_clause_end : regex := one_of ",.!?;".

(** The pattern "\b([A-Za-z0-9][A-Za-z0-9\-]{4,})\b". *)
Definition re_policy_token : regex :=
  cats [WordB; Grp 1 (Cat (Chr is_alnum) (at_least 4 (Chr is_alnum_dash))); WordB].

(** [slots.pop("claim_expected", None)] after a write. The slot
    [claim_expected] holds the name of a claim field; a value that is
    not a string equals none of the names compared with it. *)
Definition _claim_apply_expected_answer (now : Clock.datetime) (user_text : string)
  (slots : slots_t) : slots_t :=
  match slots !! "claim_expected" with
  | None => slots
  | Some ev =>
      if negb (truthy ev) then slots
      else
        let yn := _parse_yes_no user_text in
        let d := _parse_date now user_text in
        match ev with
        | VStr expected =>
            if mem expected ["injuries"; "vehicle_drivable"; "third_party_involved"] then
              match yn with
              | Some b => delete "claim_expected" (<[expected := VBool b]> slots)
              | None => slots
              end
            else if String.eqb expected "police_report" then
              match yn with
              | Some b =>
                  let slots := <["police_report" := VBool b]> slots in
                  let slots :=
                    if b then
                      match search re_report_ref user_text with
                      | Some m =>
                          <["police_report_ref" := VStr (default "" (group m 1))]> slots
                      | None => slots
                      end
                    else slots in
                  delete "claim_expected" slots
              | None => slots
              end
            else if String.eqb expected "accident_date" then
              if nonempty d
              then delete "claim_expected"
                     (<["accident_date" := VStr (default "" d)]> slots)
              else slots
            else if String.eqb expected "accident_city" then
              let '(area, city) := _extract_accident_location user_text in
              let city :=
                if negb (nonempty city) then
                  let candidate :=
                    strip (Nlu.hd_str (split re_clause_end (strip user_text))) in
                  if Nat.leb 2 (String.length candidate)
                     && Nat.leb (String.length candidate) 40
                     && negb (bool_decide (is_Some (search digit candidate)))
                  then Some (normalize_city candidate) else city
                else city in
              if nonempty city then
                let slots := <["accident_city" := VStr (default "" city)]> slots in
                let slots :=
                  if nonempty area
                  then <["accident_area" := VStr (default "" area)]> slots else slots in
                delete "claim_expected" slots
              else slots
            else if mem expected ["insurance_number"; "policy_number"] then
              let txt := strip user_text in
              let pn := _extract_policy_number txt in
              if negb (String.eqb pn "") then
                delete "claim_expected" (<["insurance_number" := VStr pn]> slots)
              else
                match search re_policy_token txt with
                | Some m =>
                    delete "claim_expected"
                      (<["insurance_number" := VStr (default "" (group m 1))]> slots)
                | None => slots
                end
            else if String.eqb expected "accident_description" then
              let txt := strip user_text in
              if Nat.ltb 5 (String.length txt)
              then delete "claim_expected" (<["accident_description" := VStr txt]> slots)
              else slots
            else slots
        | _ => slots
        end
  end.

Record SessionState := mkSessionState {
  slots : slots_t;
  last_intent : option string;
  turns : Z
}.

(** [SessionState()] *)
Definition new_session : SessionState := mkSessionState ∅ None 0.

Record TurnResult := mkTurnResult {
  response_text : string;
  end_call : bool
}.

(** [state.slots.get("claim_counters", {})], replaced by [{}] when it
    is not a dictionary. *)
Definition claim_counters (s : slots_t) : gmap string Z :=
  match s !! "claim_counters" with
  | Some (VCounters m) => m
  | _ => ∅
  end.

(** Returns the claim number and the state with the counter stored. *)
Definition _generate_claim_number (now : Clock.datetime) (state : SessionState)
  : string * SessionState :=
  let yyyymm := Clock.yyyymm now in
  let counters := claim_counters (slots state) in
  let n := default 0 (counters !! yyyymm) + 1 in
  let counters := <[yyyymm := n]> counters in
  let state :=
    mkSessionState (<["claim_counters" := VCounters counters]> (slots state))
      (last_intent state) (turns state) in
  (yyyymm ++ zfill 5 n, state).

Definition estimate_hp_from_engine_size (engine_size_l : Q) : Z * string :=
  if Qle_bool engine_size_l 1.0 then (95, "estimated from engine size")
  else if Qle_bool engine_size_l 1.2 then (105, "estimated from engine size")
  else if Qle_bool engine_size_l 1.4 then (120, "estimated from engine size")
  else if Qle_bool engine_size_l 1.6 then (135, "estimated from engine size")
  else if Qle_bool engine_size_l 1.8 then (155, "estimated from engine size")
  else if Qle_bool engine_size_l 2.0 then (180, "estimated from engine size")
  else (200, "estimated from engine size").

Definition premium_needed : list string :=
  ["vehicle_age"; "horsepower"; "city"; "coverage_level"].

Definition _missing_premium_slots (slots : slots_t) : list string :=
  List.filter (fun k => negb (has slots k)) premium_needed.

Definition _ask_one_missing (missing : list string) (slots : slots_t) : string :=
  match missing with
  | [] => "What detail should we adjust?"
  | k :: _ =>
      if String.eqb k "vehicle_age" then
        "What’s the vehicle year (e.g., 2010) or age in years?"
      else if String.eqb k "horsepower" then
        if has slots "engine_size_l" then
          "I can estimate horsepower from engine size—do you want that, or do you know the exact HP?"
        else
          "About how many horsepower is the vehicle? If you don’t know, tell me engine size (e.g., 1.4 / 1.6)."
      else if String.eqb k "city" then
        "Which city is the vehicle primarily used in?"
      else if String.eqb k "coverage_level" then
        "Do you want basic, standard, or premium coverage?"
      else "Could you tell me " ++ k ++ "?"
  end.

(** [int(slots.get(k, 0))]; [None] is the exception of [int]. *)
Definition int_slot (s : slots_t) (k : string) : option Z :=
  match s !! k with
  | Some v => py_int v
  | None => Some 0
  end.

(** The outcome of a turn: the result and the state it leaves, or an
    exception that ends the call loop. *)
Inductive outcome : Type :=
| Return (r : TurnResult) (st : SessionState)
| Raise.

Definition with_slots (st : SessionState) (s : slots_t) : SessionState :=
  mkSessionState s (last_intent st) (turns st).

(** [max(a, b)] on two floats. *)
Definition qmax (a b : Q) : Q := if Qle_bool b a then a else b.

Section WithFloat.
Context {F : FloatOps}.

(** rag.py: a retrieved passage, and the index as the function
    [retrieve(query, top_k)]; [None] is its [RuntimeError]. *)
Record DocChunk := mkDocChunk {
  doc_id : string;
  chunk_id : string;
  text : string;
  score : float
}.
Definition RAGIndex : Type := string -> nat -> option (list DocChunk).

(** [_first_sentence(best.text, max_len=140) if (best and best.text) else ""]
    with [best = docs[0] if docs else None]. *)
Definition best_candidate (docs : list DocChunk) : string :=
  match docs with
  | best :: _ =>
      if negb (String.eqb (text best) "") then _first_sentence (text best) 140 else ""
  | [] => ""
  end.

(** Returns the answer and the slots it leaves; [None] when an
    [int(...)] of a counter slot raises. *)
Definition _qa_answer_or_followup (user_text : string) (docs : list DocChunk)
  (s : slots_t) : option (string * slots_t) :=
  let t := strip (lower user_text) in
  match int_slot s "qa_turns" with
  | None => None
  | Some qt =>
  let s := <["qa_turns" := VInt (qt + 1)]> s in
  match int_slot s "qa_frustration" with
  | None => None
  | Some fr0 =>
  let s :=
    if _is_dissatisfied t
    then <["qa_frustration" := VInt (fr0 + 1)]> s
    else <["qa_frustration" := VInt (Z.max 0 (fr0 - 1))]> s in
  match int_slot s "qa_turns", int_slot s "qa_frustration" with
  | Some qa_turns, Some fr =>
  let website :=
    if qa_turns =? 1
    then " You can also review details on our website for the full wording." else "" in
  let human :=
    if (5 <=? qa_turns) && (2 <=? fr)
    then " If you’d rather speak to a person, type human." else "" in
  if _looks_like_insurance_request t then
    Some ("Sure — I can help you get car insurance. Let’s start with the vehicle year.",
          <["force_intent" := VStr "premium_estimate"]> s)
  else if _looks_like_claim_info_only t then
    let candidate := best_candidate docs in
    let base :=
      if negb (_is_bad_sentence candidate) then candidate
      else "Claims info: you can report online/phone, then provide incident details and evidence." in
    Some (base ++ website ++
          " What part of claims do you want (steps, documents, timelines, or coverage)?"
          ++ human, s)
  else if _looks_like_pricing t then
    let s := <["force_intent" := VStr "premium_estimate"]> s in
    if negb (has s "vehicle_age") && negb (has s "vehicle_year") then
      Some ("Sure — I can estimate pricing. What’s the vehicle year (e.g., 2010)?" ++ human, s)
    else
      let missing := _missing_premium_slots s in
      Some ("Sure — I can estimate pricing. " ++ _ask_one_missing missing s ++ human, s)
  else if any_in ["plans"; "plan"; "options"; "offer"; "coverage levels";
                  "coverage level"; "levels you offer"] t then
    Some ("We offer 3 coverage levels: Basic, Standard, and Premium." ++ website ++
          " Want the differences between them?" ++ human, s)
  else if any_in ["difference"; "differences"; "compare"; "comparison";
                  "what are the differences"; "what is their differences"] t then
    Some (_coverage_difference_answer ++ human, s)
  else if any_in ["how many"; "number of"; "how many models"; "how many plans";
                  "how many options"] t then
    Some ("We offer 3 options (Basic, Standard, Premium). Do you want the cheapest or the most coverage?"
          ++ human, s)
  else if any_in ["what are you talking about"; "huh"; "doesn't make sense";
                  "irrelevant"] t then
    Some ("Got it — are you asking about coverage levels, pricing, or claim reporting?"
          ++ human, s)
  else if match docs with
          | [] => true
          | d0 :: _ => String.eqb (text d0) ""
          end then
    Some (HUMAN_FALLBACK, s)
  else
    let candidate := best_candidate docs in
    let base :=
      if negb (_is_bad_sentence candidate) then candidate
      else "I can answer that, but I need one detail first." in
    let follow :=
      if contains "deductible" t then
        "Which coverage level (basic, standard, premium)?"
      else if contains "exclusion" t || contains "excluded" t || contains "not covered" t then
        "Which situation (theft, drunk driving, intentional damage, etc.)?"
      else if contains "roadside" t || contains "replacement" t then
        "Do you want roadside assistance and a replacement vehicle included?"
      else
        "What specific part do you want to know (coverage, deductible, exclusions, or claims)?" in
    Some (base ++ website ++ " " ++ follow ++ human, s)
  | _, _ => None
  end
  end
  end.


Definition nl : string := String (ascii_of_nat 10) EmptyString.

(** The pattern "\bage\s*(is)?\s*(\d{1,2})\b". *)
Definition re_age_is : regex :=
  cats [WordB; lit "age"; star space; opt (Grp 1 (lit "is")); star space;
        Grp 2 (times 1 2 digit); WordB].
(** The pattern "\d{1,2}". *)
Definition re_two_digits : regex := times 1 2 digit.
(** The pattern "\b(\d(?:\.\d)?)\s*(l|liter|litre)\b". *)
Definition re_litres : regex :=
  cats [WordB; Grp 1 (Cat digit (opt (Cat (chr ".") digit))); star space;
        Grp 2 (alts [lit "l"; lit "liter"; lit "litre"]); WordB].

(** Lines 515-536: the entities of the utterance are merged into the
    slots, the city is normalised, and the vehicle age is derived. *)
Definition merge_entities (CURRENT_YEAR : Z) (user_text t : string)
  (last_intent : option string) (s : slots_t) : slots_t :=
  let ents := Nlu.extract_entities user_text in
  let s := ents ∪ s in
  let s :=
    match s !! "city" with
    | Some v => <["city" := VStr (normalize_city (py_str v))]> s
    | None => s
    end in
  let s :=
    match s !! "vehicle_year" with
    | Some v =>
        match py_int v with
        | Some y =>
            if (1950 <=? y) && (y <=? CURRENT_YEAR)
            then <["vehicle_age" := VInt (CURRENT_YEAR - y)]> s else s
        | None => s
        end
    | None => s
    end in
  if negb (has s "vehicle_age") then
    match search re_age_is t with
    | Some m => <["vehicle_age" := VInt (digits_value (default "" (group m 2)))]> s
    | None =>
        match fullmatch re_two_digits t with
        | Some _ =>
            let age := digits_value t in
            if (0 <? age) && (age <? 100)
               && bool_decide (last_intent = Some "premium_estimate")
            then <["vehicle_age" := VInt age]> s else s
        | None => s
        end
    end
  else s.

Definition shopping_signals : list string :=
  ["cheapest"; "lowest"; "option"; "basic coverage"; "liability"; "minimum coverage"].

Definition affirmations : list string :=
  ["yes"; "yes please"; "ok"; "okay"; "sure"; "da"; "ya"].

(** Lines 539-581: the intent of the turn after the override rules,
    and the slots they leave. A forced intent that is not a string is
    kept as its [str]; it equals no intent name either way. *)
Definition resolve_intent (user_text t : string) (last_intent : option string)
  (s : slots_t) : Nlu.IntentResult * slots_t :=
  let intent_res := Nlu.detect_intent user_text last_intent in
  let forced := s !! "force_intent" in
  let s := delete "force_intent" s in
  let intent_res :=
    if truthy_opt forced
    then Nlu.mkIntentResult (py_str (default (VStr "") forced)) 0.99
    else intent_res in
  let '(intent_res, s) :=
    if truthy_opt (s !! "in_claim_intake") then
      if _contains_any t CANCEL_WORDS then
        (Nlu.mkIntentResult "doc_qa" 0.6,
         delete "claim_expected" (<["in_claim_intake" := VBool false]> s))
      else (Nlu.mkIntentResult "report_claim" 0.95, s)
    else (intent_res, s) in
  let intent_res :=
    if String.eqb (Nlu.intent intent_res) "doc_qa" && any_in shopping_signals t
    then Nlu.mkIntentResult "premium_estimate" (qmax (Nlu.confidence intent_res) 0.8)
    else intent_res in
  let intent_res :=
    if String.eqb (Nlu.intent intent_res) "report_claim" && _looks_like_claim_info_only t
    then Nlu.mkIntentResult "doc_qa" 0.85
    else intent_res in
  let intent_res :=
    if String.eqb (Nlu.intent intent_res) "doc_qa" && mem t affirmations then
      if bool_decide (last_intent = Some "premium_estimate") then
        match _missing_premium_slots s with
        | [] => Nlu.mkIntentResult "compare_coverage" 0.9
        | _ => Nlu.mkIntentResult "premium_estimate" 0.9
        end
      else intent_res
    else intent_res in
  let intent_res :=
    if bool_decide (last_intent = Some "premium_estimate")
       && String.eqb (Nlu.intent intent_res) "doc_qa"
    then Nlu.mkIntentResult "premium_estimate" (qmax (Nlu.confidence intent_res) 0.75)
    else intent_res in
  let s :=
    if negb (String.eqb (Nlu.intent intent_res) "doc_qa")
    then <["qa_turns" := VInt 0]> s else s in
  (intent_res, s).

(** [str(slots.get(k, dflt))] inside an f-string. *)
Definition show_slot (s : slots_t) (k dflt : string) : string :=
  match s !! k with Some v => py_str v | None => dflt end.

(** Lines 593-628: the claim intake sub-flow. *)
Definition claim_intake (now : Clock.datetime) (user_text : string)
  (state : SessionState) : outcome :=
  let s := <["in_claim_intake" := VBool true]> (slots state) in
  let s := _claim_update_from_text now user_text s in
  let s := _claim_apply_expected_answer now user_text s in
  match _claim_missing_slots s with
  | next_key :: _ =>
      Return (mkTurnResult (_ask_claim_question next_key) false)
             (with_slots state (<["claim_expected" := VStr next_key]> s))
  | [] =>
      let '(claim_no, state) := _generate_claim_number now (with_slots state s) in
      let s := <["claim_number" := VStr claim_no]> (slots state) in
      let s := <["in_claim_intake" := VBool false]> s in
      let s := delete "claim_expected" s in
      let area := s !! "accident_area" in
      let city := s !! "accident_city" in
      let loc :=
        if truthy_opt area && truthy_opt city
        then show_slot s "accident_area" "" ++ ", " ++ show_slot s "accident_city" ""
        else if truthy_opt city then show_slot s "accident_city" ""
             else "the provided location" in
      Return
        (mkTurnResult
           ("Thanks — I’ve recorded your claim details." ++ nl ++
            "Next steps:" ++ nl ++
            "1) If anyone is injured or there is danger, contact emergency services." ++ nl ++
            "2) Take photos of the scene, vehicle damage, plates, and road signs." ++ nl ++
            "3) Collect third-party and witness contacts if available." ++ nl ++
            "4) Keep receipts for towing/urgent costs." ++ nl ++ nl ++
            "Summary: Accident in " ++ loc ++ " on " ++
            show_slot s "accident_date" "unknown date" ++ ". " ++
            "Injuries: " ++ (if truthy_opt (s !! "injuries") then "yes" else "no") ++ "." ++ nl ++
            "Your claim number is " ++ claim_no ++ ".")
           false)
        (with_slots state s)
  end.

(** [slots[k]] converted by [int]; [None] is the [KeyError] or the
    exception of [int]. *)
Definition int_of_slot (s : slots_t) (k : string) : option Z :=
  match s !! k with Some v => py_int v | None => None end.
Definition str_of_slot (s : slots_t) (k : string) : option string :=
  match s !! k with Some v => Some (py_str v) | None => None end.

(** Lines 630-668: the premium quote sub-flow. *)
Definition premium_quote (t : string) (state : SessionState) : outcome :=
  let s := slots state in
  let s :=
    if negb (has s "coverage_level") && contains "cheapest" t
    then <["coverage_level" := VStr "basic"]> s else s in
  let '(hp_note, s) :=
    if negb (has s "horsepower") && has s "engine_size_l" then
      match s !! "engine_size_l" with
      | Some v =>
          match py_float v with
          | Some es =>
              let '(hp_est, note) := estimate_hp_from_engine_size es in
              ("(Using ~" ++ pretty hp_est ++ " HP " ++ note ++ ".) ",
               <["horsepower" := VInt hp_est]> s)
          | None => ("", s)
          end
      | None => ("", s)
      end
    else ("", s) in
  match _missing_premium_slots s with
  | (_ :: _) as missing =>
      Return (mkTurnResult (hp_note ++ _ask_one_missing missing s) false)
             (with_slots state s)
  | [] =>
      let s :=
        if negb (has s "engine_size_l") then
          match search re_litres t with
          | Some m =>
              match float_of_string (default "" (group m 1)) with
              | Some q => <["engine_size_l" := VFloat q]> s
              | None => s
              end
          | None => s
          end
        else s in
      match int_of_slot s "vehicle_age", int_of_slot s "horsepower",
            str_of_slot s "city", str_of_slot s "coverage_level" with
      | Some vehicle_age, Some horsepower, Some city, Some coverage_level =>
          match Premium.calculate_premium vehicle_age horsepower city
                  (lower coverage_level) with
          | Some res =>
              Return
                (mkTurnResult
                   ("Based on a " ++ show_slot s "vehicle_age" "" ++
                    "-year-old vehicle with " ++ show_slot s "horsepower" "" ++ " HP in " ++
                    show_slot s "city" "" ++ " with " ++ show_slot s "coverage_level" "" ++
                    " coverage, your estimate is about " ++
                    "€" ++ repr (Premium.monthly_eur res) ++
                    " per month. Want to compare basic vs standard vs premium pricing?")
                   false)
                (with_slots state s)
          | None => Raise
          end
      | _, _, _, _ => Raise
      end
  end.

Definition coverage_levels : list string := ["basic"; "standard"; "premium"].

(** The [for level in ...] loop of the comparison: [results] maps
    each level to the monthly amount of its quote. *)
Fixpoint compare_loop (levels : list string) (vehicle_age horsepower : Z)
  (city : string) (results : gmap string float) : option (gmap string float) :=
  match levels with
  | [] => Some results
  | level :: levels' =>
      match Premium.calculate_premium vehicle_age horsepower city level with
      | Some res =>
          compare_loop levels' vehicle_age horsepower city
            (<[level := Premium.monthly_eur res]> results)
      | None => None
      end
  end.

Definition show_price (results : gmap string float) (level : string) : string :=
  match results !! level with Some x => repr x | None => "" end.

(** Lines 678-702: the coverage comparison sub-flow. *)
Definition compare_coverage (state : SessionState) : outcome :=
  let s := slots state in
  match _missing_premium_slots s with
  | _ :: _ => Return (mkTurnResult _coverage_difference_answer false) state
  | [] =>
      match int_of_slot s "vehicle_age", int_of_slot s "horsepower",
            str_of_slot s "city" with
      | Some vehicle_age, Some horsepower, Some city =>
          match compare_loop coverage_levels vehicle_age horsepower city ∅ with
          | Some results =>
              Return
                (mkTurnResult
                   ("Here’s a quick comparison:" ++ nl ++
                    "- Basic (liability only): €" ++ show_price results "basic" ++
                    " per month" ++ nl ++
                    "- Standard: €" ++ show_price results "standard" ++ " per month" ++ nl ++
                    "- Premium (most coverage): €" ++ show_price results "premium" ++
                    " per month" ++ nl ++ nl ++
                    "Which one do you prefer?")
                   false)
                state
          | None => Raise
          end
      | _, _, _ => Raise
      end
  end.

(** Lines 704-713: the fallback to retrieval-backed answers. *)
Definition doc_qa (rag : RAGIndex) (user_text t : string) (state : SessionState)
  : outcome :=
  let rag_query :=
    if any_in ["plans"; "options"; "coverage"; "levels"] t
    then "auto insurance coverage levels basic standard premium differences"
    else if contains "claim" t
         then "auto claim process steps required information evidence timeline"
         else user_text in
  match rag rag_query 3%nat with
  | None => Raise
  | Some docs =>
      match _qa_answer_or_followup user_text docs (slots state) with
      | Some (answer, s) => Return (mkTurnResult answer false) (with_slots state s)
      | None => Raise
      end
  end.

Definition dialogue_manager (CURRENT_YEAR : Z) (now : Clock.datetime) (rag : RAGIndex)
  (user_text : string) (state : SessionState) : outcome :=
  let state := mkSessionState (slots state) (last_intent state) (turns state + 1) in
  let t := strip (lower user_text) in
  (* Global exit: user can always end call *)
  if _contains_any t EXIT_WORDS then
    let s := <["in_claim_intake" := VBool false]> (slots state) in
    let s := delete "claim_expected" s in
    Return (mkTurnResult "Okay — ending the call. Goodbye!" true) (with_slots state s)
  else
    let s := merge_entities CURRENT_YEAR user_text t (last_intent state) (slots state) in
    let '(intent_res, s) := resolve_intent user_text t (last_intent state) s in
    let intent := Nlu.intent intent_res in
    let state := mkSessionState s (Some intent) (turns state) in
    if String.eqb intent "handoff_human"
       || _contains_any t ["human"; "human agent"; "call me back"; "call back"] then
      Return
        (mkTurnResult
           "Okay — I’m transferring you to a human agent now. (Prototype: transfer simulated.)"
           true)
        state
    else if String.eqb intent "report_claim" then claim_intake now user_text state
    else if String.eqb intent "premium_estimate" then premium_quote t state
    else if bool_decide (last_intent state = Some "premium_estimate")
            && negb (has (slots state) "coverage_level")
            && any_in ["difference"; "compare"; "comparison"; "what is the difference"] t
    then Return (mkTurnResult _coverage_difference_answer false) state
    else if (bool_decide (last_intent state = Some "premium_estimate")
             || bool_decide (last_intent state = Some "compare_coverage"))
            && String.eqb intent "doc_qa"
    then
      Return
        (mkTurnResult
           "Do you want to pick a coverage level (basic/standard/premium), or get a new quote with different details?"
           false)
        state
    else if String.eqb intent "compare_coverage" then compare_coverage state
    else doc_qa rag user_text t state.

End WithFloat.

End Dialogue.

Example spoken_ex1 :
  Dialogue._spoken_digits_to_string "one two double three for five" = "123345".
Proof. reflexivity. Qed.
Example spoken_ex2 :
  Dialogue._spoken_digits_to_string "policy 12 34 56 ate" = "1234568".
Proof. reflexivity. Qed.
Example policy_ex1 : Dialogue._extract_policy_number "it is 12345" = "".
Proof. reflexivity. Qed.
Example city_ex1 : Dialogue.normalize_city "  LUBLJANA " = "Ljubljana".
Proof. reflexivity. Qed.
Example city_ex2 : Dialogue.normalize_city " Novo Mesto " = "Novo Mesto".
Proof. vm_compute. reflexivity. Qed.

(* ===================================================================== *)
(** * Properties *)
(* ===================================================================== *)

(** ** Strings *)

Section StringFacts.
Import PyStr.

Lemma is_space_lower_char (c : ascii) : is_space (lower_char c) = is_space c.
Proof. destruct c as [[] [] [] [] [] [] [] []]; reflexivity. Qed.

Lemma lower_char_idemp (c : ascii) : lower_char (lower_char c) = lower_char c.
Proof. destruct c as [[] [] [] [] [] [] [] []]; reflexivity. Qed.

Lemma lower_idemp (s : string) : lower (lower s) = lower s.
Proof.
  induction s as [|c s IH]; simpl; [reflexivity|].
  now rewrite lower_char_idemp, IH.
Qed.

Lemma lstrip_lower (s : string) : lstrip (lower s) = lower (lstrip s).
Proof.
  induction s as [|c s IH]; simpl; [reflexivity|].
  rewrite is_space_lower_char. destruct (is_space c); [exact IH|reflexivity].
Qed.

Lemma rstrip_lower (s : string) : rstrip (lower s) = lower (rstrip s).
Proof.
  induction s as [|c s IH]; simpl; [reflexivity|].
  rewrite IH, is_space_lower_char.
  destruct (rstrip s); simpl; [destruct (is_space c)|]; reflexivity.
Qed.

Lemma strip_lower (s : string) : strip (lower s) = lower (strip s).
Proof. unfold strip. now rewrite lstrip_lower, rstrip_lower. Qed.

(** A string that does not start with a space. *)
Definition head_ok (s : string) : Prop :=
  match s with EmptyString => True | String c _ => is_space c = false end.

Lemma lstrip_head_ok (s : string) : head_ok (lstrip s).
Proof.
  induction s as [|c s IH]; simpl; [exact I|].
  destruct (is_space c) eqn:E; [exact IH|exact E].
Qed.

Lemma lstrip_of_head_ok (s : string) : head_ok s -> lstrip s = s.
Proof. destruct s as [|c s]; simpl; [reflexivity|]. now intros ->. Qed.

Lemma rstrip_head_ok (s : string) : head_ok s -> head_ok (rstrip s).
Proof.
  destruct s as [|c s]; simpl; [trivial|]. intros E.
  destruct (rstrip s); [rewrite E|]; exact E.
Qed.

Lemma rstrip_idemp (s : string) : rstrip (rstrip s) = rstrip s.
Proof.
  induction s as [|c s IH]; simpl; [reflexivity|].
  destruct (rstrip s) as [|a r] eqn:E.
  - destruct (is_space c) eqn:Ec; simpl; [reflexivity|now rewrite Ec].
  - change (rstrip (String c (String a r))) with
      (match rstrip (String a r) with
       | EmptyString => if is_space c then EmptyString else String c EmptyString
       | r0 => String c r0
       end).
    now rewrite IH.
Qed.

Lemma strip_idemp (s : string) : strip (strip s) = strip s.
Proof.
  unfold strip.
  rewrite (lstrip_of_head_ok (rstrip (lstrip s)))
    by (apply rstrip_head_ok, lstrip_head_ok).
  apply rstrip_idemp.
Qed.

Lemma mem_true_iff (x : string) (xs : list string) : mem x xs = true <-> In x xs.
Proof.
  unfold mem. rewrite existsb_exists. split.
  - intros [y [Hy E]]. apply String.eqb_eq in E. now subst.
  - intros H. exists x. split; [exact H|apply String.eqb_refl].
Qed.

End StringFacts.

(** ** City normalisation *)

Section NormalizeCity.
Import PyStr Dialogue.

(** The three Ljubljana rules, on the lower-cased trimmed name. *)
Definition lj_rule (c : string) : bool :=
  mem c lj_variants || contains "ljubl" c
  || Qle_bool 0.75 (Difflib.ratio c "ljubljana").

Lemma normalize_city_unfold (city : string) :
  normalize_city city =
    let c := lower (strip city) in
    if String.eqb c "" then strip city
    else if lj_rule c then "Ljubljana"
    else match known_get known c with
         | Some v => v
         | None => strip city
         end.
Proof.
  unfold normalize_city, lj_rule. cbv zeta.
  rewrite strip_lower, !strip_idemp.
  destruct (String.eqb (lower (strip city)) ""); [reflexivity|].
  destruct (mem (lower (strip city)) lj_variants || contains "ljubl" (lower (strip city)));
    reflexivity.
Qed.

Lemma lj_rule_empty : lj_rule "" = false.
Proof. reflexivity. Qed.

Lemma known_get_values (c v : string) :
  known_get known c = Some v -> v = "Maribor" \/ v = "Celje" \/ v = "Koper".
Proof.
  unfold known. simpl.
  destruct (String.eqb c "maribor"); [intros [= <-]; auto|].
  destruct (String.eqb c "celje"); [intros [= <-]; auto|].
  destruct (String.eqb c "koper"); [intros [= <-]; auto|discriminate].
Qed.

Lemma normalize_city_idempotent (city : string) :
  normalize_city (normalize_city city) = normalize_city city.
Proof.
  rewrite (normalize_city_unfold city). cbv zeta.
  destruct (String.eqb (lower (strip city)) "") eqn:E0.
  - rewrite normalize_city_unfold. cbv zeta. rewrite strip_idemp, E0. reflexivity.
  - destruct (lj_rule (lower (strip city))) eqn:E1; [reflexivity|].
    destruct (known_get known (lower (strip city))) as [v|] eqn:E2.
    + apply known_get_values in E2. destruct E2 as [-> | [-> | ->]]; reflexivity.
    + rewrite normalize_city_unfold. cbv zeta. rewrite strip_idemp, E0, E1, E2.
      reflexivity.
Qed.

End NormalizeCity.

(** C6. Whatever its case and surrounding blanks, a name that is one of
    the curated misspellings, contains "ljubl", or has a similarity ratio
    of at least 0.75 to "ljubljana" is normalised to exactly "Ljubljana"
    (in particular each of the six listed misspellings); a name matching
    neither the Ljubljana rules nor the known-city table is returned
    trimmed and otherwise unchanged; and normalising twice is the same
    as normalising once. *)
Theorem normalize_city_roundtrip :
  (forall city : string,
     let c := PyStr.lower (PyStr.strip city) in
     PyStr.mem c Dialogue.lj_variants = true
     \/ PyStr.contains "ljubl" c = true
     \/ Qle_bool 0.75 (Difflib.ratio c "ljubljana") = true ->
     Dialogue.normalize_city city = "Ljubljana")
  /\ Forall (fun v => Dialogue.normalize_city v = "Ljubljana")
       ["ljublajan"; "liubljana"; "lubljana"; "ljublijana"; "ljubljkana"; "leobliana"]
  /\ (forall city : string,
        let c := PyStr.lower (PyStr.strip city) in
        PyStr.mem c Dialogue.lj_variants = false ->
        PyStr.contains "ljubl" c = false ->
        Qle_bool 0.75 (Difflib.ratio c "ljubljana") = false ->
        Dialogue.known_get Dialogue.known c = None ->
        Dialogue.normalize_city city = PyStr.strip city)
  /\ (forall city : string,
        Dialogue.normalize_city (Dialogue.normalize_city city)
        = Dialogue.normalize_city city).
Proof.
  split; [|split; [|split]].
  - intros city c H. rewrite normalize_city_unfold. cbv zeta. fold c.
    assert (R : lj_rule c = true).
    { unfold lj_rule. destruct H as [-> | [-> | ->]];
        rewrite ?orb_true_r; reflexivity. }
    destruct (String.eqb c "") eqn:E0.
    + apply String.eqb_eq in E0. rewrite E0 in R. discriminate R.
    + now rewrite R.
  - repeat constructor.
  - intros city c H1 H2 H3 H4. rewrite normalize_city_unfold. cbv zeta. fold c.
    unfold lj_rule. rewrite H1, H2, H3, H4. simpl.
    destruct (String.eqb c ""); reflexivity.
  - exact normalize_city_idempotent.
Qed.

(** ** Intent resolution *)

(** C5. [detect_intent] is a function of the utterance and of the
    previous intent alone; on the lower-cased trimmed text the first
    rule that matches decides: (1) previous intent premium_estimate and a
    premium keyword give premium_estimate 0.85; else (2) a compare
    keyword gives compare_coverage 0.9, (3) a premium keyword gives
    premium_estimate 0.8, (4) a claim keyword gives report_claim 0.8,
    (5) a handoff keyword gives handoff_human 0.7, (6) otherwise doc_qa
    0.6; the confidence always lies in [0,1] and the intent in the
    closed set of intents. *)
Theorem detect_intent_rule_order (user_text : string) (last_intent : option string) :
  let t := PyStr.strip (PyStr.lower user_text) in
  let r := Nlu.detect_intent user_text last_intent in
  let sticky :=
    last_intent = Some "premium_estimate" /\ PyStr.any_in Nlu.kw_premium_estimate t = true in
  (sticky -> r = Nlu.mkIntentResult "premium_estimate" 0.85)
  /\ (~ sticky ->
      PyStr.any_in Nlu.kw_compare_coverage t = true ->
      r = Nlu.mkIntentResult "compare_coverage" 0.9)
  /\ (~ sticky ->
      PyStr.any_in Nlu.kw_compare_coverage t = false ->
      PyStr.any_in Nlu.kw_premium_estimate t = true ->
      r = Nlu.mkIntentResult "premium_estimate" 0.8)
  /\ (PyStr.any_in Nlu.kw_compare_coverage t = false ->
      PyStr.any_in Nlu.kw_premium_estimate t = false ->
      PyStr.any_in Nlu.kw_report_claim t = true ->
      r = Nlu.mkIntentResult "report_claim" 0.8)
  /\ (PyStr.any_in Nlu.kw_compare_coverage t = false ->
      PyStr.any_in Nlu.kw_premium_estimate t = false ->
      PyStr.any_in Nlu.kw_report_claim t = false ->
      PyStr.any_in Nlu.kw_handoff_human t = true ->
      r = Nlu.mkIntentResult "handoff_human" 0.7)
  /\ (PyStr.any_in Nlu.kw_compare_coverage t = false ->
      PyStr.any_in Nlu.kw_premium_estimate t = false ->
      PyStr.any_in Nlu.kw_report_claim t = false ->
      PyStr.any_in Nlu.kw_handoff_human t = false ->
      r = Nlu.mkIntentResult "doc_qa" 0.6)
  /\ (0 <= Nlu.confidence r /\ Nlu.confidence r <= 1)%Q
  /\ In (Nlu.intent r) Nlu.Intent.
Proof.
  intros t r sticky. subst r sticky. unfold Nlu.detect_intent. fold t.
  destruct (PyStr.any_in Nlu.kw_premium_estimate t) eqn:Ep;
  destruct (PyStr.any_in Nlu.kw_compare_coverage t) eqn:Ec;
  destruct (PyStr.any_in Nlu.kw_report_claim t) eqn:Er;
  destruct (PyStr.any_in Nlu.kw_handoff_human t) eqn:Eh;
  destruct (bool_decide (last_intent = Some "premium_estimate")) eqn:El;
  try (apply bool_decide_eq_true in El);
  try (apply bool_decide_eq_false in El);
  simpl;
  repeat split;
  try reflexivity; try discriminate; try tauto;
  try (intros; exfalso; tauto);
  try (simpl; tauto);
  try (unfold Qle; simpl; lia).
Qed.

(** The rules do not overlap vacuously: each one is met by an utterance. *)
Lemma detect_intent_rule_order_witness :
  Nlu.detect_intent "and the price?" (Some "premium_estimate")
    = Nlu.mkIntentResult "premium_estimate" 0.85
  /\ Nlu.detect_intent "Compare them" None = Nlu.mkIntentResult "compare_coverage" 0.9
  /\ Nlu.detect_intent "my car was stolen" None = Nlu.mkIntentResult "report_claim" 0.8.
Proof.
  pose proof (detect_intent_rule_order "and the price?" (Some "premium_estimate")) as H1.
  pose proof (detect_intent_rule_order "Compare them" None) as H2.
  pose proof (detect_intent_rule_order "my car was stolen" None) as H3.
  cbv zeta in H1, H2, H3.
  split; [|split].
  - apply H1. split; reflexivity.
  - apply H2; [intros [E _]; discriminate E | reflexivity].
  - apply H3; reflexivity.
Defined.

(** ** A concrete environment for running turns *)

Module Demo.
Definition year : Z := 2026.
Definition now : Clock.datetime := Clock.Date 2026 11 3.
(** An index that retrieves nothing. *)
Definition rag : Dialogue.RAGIndex (F := ExactFloat.ops) := fun _ _ => Some [].
Definition turn (user_text : string) (st : Dialogue.SessionState) : Dialogue.outcome :=
  Dialogue.dialogue_manager (F := ExactFloat.ops) year now rag user_text st.
(** The state after a conversation, when no turn raised. *)
Fixpoint after (texts : list string) (st : Dialogue.SessionState)
  : option Dialogue.SessionState :=
  match texts with
  | [] => Some st
  | txt :: texts' =>
      match turn txt st with
      | Dialogue.Return _ st' => after texts' st'
      | Dialogue.Raise => None
      end
  end.
End Demo.

(** ** The exit check *)

Section ExitCheck.
Import PyStr Dialogue.
Context {F : FloatOps}.
Variables (CURRENT_YEAR : Z) (now : Clock.datetime) (rag : RAGIndex).

Definition goodbye : TurnResult :=
  mkTurnResult "Okay — ending the call. Goodbye!" true.

(** The state an exit turn leaves. *)
Definition exit_state (state : SessionState) : SessionState :=
  mkSessionState
    (delete "claim_expected" (<["in_claim_intake" := VBool false]> (slots state)))
    (last_intent state) (turns state + 1).

Lemma dialogue_manager_exit (user_text : string) (state : SessionState) :
  _contains_any (strip (lower user_text)) EXIT_WORDS = true ->
  dialogue_manager CURRENT_YEAR now rag user_text state
  = Return goodbye (exit_state state).
Proof.
  intros H. unfold dialogue_manager. cbv zeta. rewrite H. reflexivity.
Qed.

Definition norm (user_text : string) : string := strip (lower user_text).

Definition handoff_phrases : list string :=
  ["human"; "human agent"; "call me back"; "call back"].

(** The intent of a turn after the override rules, with the slots
    they leave, and the session state handed to the sub-flow the turn
    is dispatched to. *)
Definition pre_resolved (user_text : string) (st : SessionState)
  : Nlu.IntentResult * slots_t :=
  resolve_intent user_text (norm user_text) (last_intent st)
    (merge_entities CURRENT_YEAR user_text (norm user_text) (last_intent st) (slots st)).

Definition pre_intent (user_text : string) (st : SessionState) : string :=
  Nlu.intent (fst (pre_resolved user_text st)).

Definition pre_state (user_text : string) (st : SessionState) : SessionState :=
  mkSessionState (snd (pre_resolved user_text st)) (Some (pre_intent user_text st))
    (turns st + 1).

Definition transfer : TurnResult :=
  mkTurnResult
    "Okay — I’m transferring you to a human agent now. (Prototype: transfer simulated.)"
    true.

(** The dispatch of a turn that passed the exit check. *)
Lemma dialogue_manager_no_exit (user_text : string) (state : SessionState) :
  _contains_any (norm user_text) EXIT_WORDS = false ->
  dialogue_manager CURRENT_YEAR now rag user_text state
  = let t := norm user_text in
    let intent := pre_intent user_text state in
    let st := pre_state user_text state in
    if String.eqb intent "handoff_human" || _contains_any t handoff_phrases
    then Return transfer st
    else if String.eqb intent "report_claim" then claim_intake now user_text st
    else if String.eqb intent "premium_estimate" then premium_quote t st
    else if bool_decide (Some intent = Some "premium_estimate")
            && negb (has (slots st) "coverage_level")
            && any_in ["difference"; "compare"; "comparison"; "what is the difference"] t
    then Return (mkTurnResult _coverage_difference_answer false) st
    else if (bool_decide (Some intent = Some "premium_estimate")
             || bool_decide (Some intent = Some "compare_coverage"))
            && String.eqb intent "doc_qa"
    then Return
           (mkTurnResult
              "Do you want to pick a coverage level (basic/standard/premium), or get a new quote with different details?"
              false) st
    else if String.eqb intent "compare_coverage" then compare_coverage st
    else doc_qa rag user_text t st.
Proof.
  intros H. unfold dialogue_manager, pre_state, pre_intent, pre_resolved, norm in *.
  cbv zeta. rewrite H. cbn [slots last_intent turns].
  destruct (resolve_intent _ _ _ _) as [ir s]. reflexivity.
Qed.

Lemma exact_exit_phrase_contained (t : string) :
  mem t EXIT_WORDS = true -> _contains_any t EXIT_WORDS = true.
Proof.
  intros H. apply mem_true_iff in H. unfold EXIT_WORDS in H. simpl in H.
  repeat (destruct H as [<- | H]; [reflexivity|]). destruct H.
Qed.

Lemma exit_state_flags (state : SessionState) :
  slots (exit_state state) !! "in_claim_intake" = Some (VBool false)
  /\ slots (exit_state state) !! "claim_expected" = None.
Proof.
  unfold exit_state. cbn [slots]. split.
  - rewrite lookup_delete_ne by discriminate. apply lookup_insert_eq.
  - apply lookup_delete_eq.
Qed.

End ExitCheck.




(** C10. In a session with in_claim_intake true, the utterance "stop",
    which is both an exit word and a cancellation word, is handled by
    the exit check: the call ends with end_call = true, and the turn
    neither re-routes to doc_qa nor goes on. *)
Theorem stop_during_intake_ends_call {F : FloatOps} (CURRENT_YEAR : Z)
  (now : Clock.datetime) (rag : Dialogue.RAGIndex) (state : Dialogue.SessionState) :
  truthy_opt (Dialogue.slots state !! "in_claim_intake") = true ->
  PyStr.mem "stop" Dialogue.EXIT_WORDS = true
  /\ PyStr.mem "stop" Dialogue.CANCEL_WORDS = true
  /\ exists st' : Dialogue.SessionState,
       Dialogue.dialogue_manager CURRENT_YEAR now rag "stop" state
         = Dialogue.Return (Dialogue.mkTurnResult "Okay — ending the call. Goodbye!" true) st'
       /\ Dialogue.last_intent st' = Dialogue.last_intent state
       /\ Dialogue.slots st' !! "in_claim_intake" = Some (VBool false)
       /\ Dialogue.slots st' !! "claim_expected" = None.
Proof.
  intros _. split; [reflexivity|]. split; [reflexivity|].
  exists (exit_state state). split; [|split; [reflexivity|apply exit_state_flags]].
  apply dialogue_manager_exit. reflexivity.
Qed.

Lemma stop_during_intake_ends_call_witness :
  exists st' : Dialogue.SessionState,
    Demo.turn "stop"
      (Dialogue.mkSessionState
         (<["claim_expected" := VStr "injuries"]> (<["in_claim_intake" := VBool true]> ∅))
         (Some "report_claim") 3)
      = Dialogue.Return (Dialogue.mkTurnResult "Okay — ending the call. Goodbye!" true) st'
    /\ Dialogue.last_intent st' = Some "report_claim"
    /\ Dialogue.slots st' !! "in_claim_intake" = Some (VBool false)
    /\ Dialogue.slots st' !! "claim_expected" = None.
Proof.
  apply (stop_during_intake_ends_call (F := ExactFloat.ops) Demo.year Demo.now Demo.rag).
  reflexivity.
Defined.

(** ** Spoken digits and the policy number *)

Section PolicyNumber.
Import PyStr Re Dialogue.

Lemma apply_expected_insurance (now : Clock.datetime) (user_text : string) (s : slots_t) :
  s !! "claim_expected" = Some (VStr "insurance_number") ->
  _claim_apply_expected_answer now user_text s =
    let txt := strip user_text in
    let pn := _extract_policy_number txt in
    if negb (String.eqb pn "") then
      delete "claim_expected" (<["insurance_number" := VStr pn]> s)
    else
      match search re_policy_token txt with
      | Some m =>
          delete "claim_expected"
            (<["insurance_number" := VStr (default "" (group m 1))]> s)
      | None => s
      end.
Proof.
  intros H. unfold _claim_apply_expected_answer. rewrite H. reflexivity.
Qed.

Lemma lookup_after_fill (s : slots_t) (k : string) (v : value) :
  k <> "claim_expected" ->
  delete "claim_expected" (<[k := v]> s) !! k = Some v.
Proof.
  intros Hk. rewrite lookup_delete_ne by congruence. apply lookup_insert_eq.
Qed.

End PolicyNumber.

(** C7 (as the code has it). The spoken-digit recovery returns the
    spoken-word reconstruction whenever it has at least as many
    characters as the raw digit characters of the utterance, and the raw
    digits otherwise; in the reconstruction "for" reads 4, "ate" reads 8,
    and "double"/"triple" before a digit word repeat its digit two or
    three times. [_extract_policy_number] returns the digits of that
    string when there are at least 6 of them and the empty string
    otherwise. When the policy number is the expected answer, the
    insurance_number slot takes that digit string if it is not empty;
    failing that it takes the first token of five or more letters, digits
    or hyphens of the utterance, if there is one; and otherwise the slots
    stay as they are. *)
Theorem spoken_digits_and_policy_number :
  (forall text : string,
     (String.length (Dialogue.raw_digits_of text) <= String.length (Dialogue.spoken_of text))%nat ->
     Dialogue._spoken_digits_to_string text = Dialogue.spoken_of text)
  /\ (forall text : string,
        (String.length (Dialogue.spoken_of text) < String.length (Dialogue.raw_digits_of text))%nat ->
        Dialogue._spoken_digits_to_string text = Dialogue.raw_digits_of text)
  /\ (forall (toks out : list string),
        Dialogue.spoken_loop ("for" :: toks) out = Dialogue.spoken_loop toks (out ++ ["4"])
        /\ Dialogue.spoken_loop ("ate" :: toks) out = Dialogue.spoken_loop toks (out ++ ["8"]))
  /\ (forall (w d : string) (toks out : list string),
        Dialogue.digit_word w = Some d ->
        Dialogue.spoken_loop ("double" :: w :: toks) out
          = Dialogue.spoken_loop toks (out ++ [PyStr.repeat_str d 2])
        /\ Dialogue.spoken_loop ("triple" :: w :: toks) out
          = Dialogue.spoken_loop toks (out ++ [PyStr.repeat_str d 3]))
  /\ (forall text : string,
        let s := PyStr.digits_of (Dialogue._spoken_digits_to_string text) in
        Dialogue._extract_policy_number text
          = if Nat.leb 6 (String.length s) then s else "")
  /\ (forall text : string,
        Dialogue._extract_policy_number text <> "" ->
        (6 <= String.length (Dialogue._extract_policy_number text))%nat)
  /\ (forall (now : Clock.datetime) (text : string) (s : slots_t),
        s !! "claim_expected" = Some (VStr "insurance_number") ->
        let pn := Dialogue._extract_policy_number (PyStr.strip text) in
        let s' := Dialogue._claim_apply_expected_answer now text s in
        (pn <> "" -> s' !! "insurance_number" = Some (VStr pn))
        /\ (pn = "" ->
            forall m, Re.search Dialogue.re_policy_token (PyStr.strip text) = Some m ->
            s' !! "insurance_number" = Some (VStr (default "" (Re.group m 1))))
        /\ (pn = "" ->
            Re.search Dialogue.re_policy_token (PyStr.strip text) = None ->
            s' = s)).
Proof.
  repeat apply conj.
  - intros text H. unfold Dialogue._spoken_digits_to_string. cbv zeta.
    apply Nat.leb_le in H. now rewrite H.
  - intros text H. unfold Dialogue._spoken_digits_to_string. cbv zeta.
    apply Nat.leb_gt in H. now rewrite H.
  - intros toks out. split; reflexivity.
  - intros w d toks out H. split.
    + change (Dialogue.spoken_loop ("double" :: w :: toks) out)
        with (match Dialogue.digit_word w with
              | Some d0 => Dialogue.spoken_loop toks (out ++ [PyStr.repeat_str d0 2])
              | None => Dialogue.spoken_loop (w :: toks) out
              end).
      now rewrite H.
    + change (Dialogue.spoken_loop ("triple" :: w :: toks) out)
        with (match Dialogue.digit_word w with
              | Some d0 => Dialogue.spoken_loop toks (out ++ [PyStr.repeat_str d0 3])
              | None => Dialogue.spoken_loop (w :: toks) out
              end).
      now rewrite H.
  - intros text. reflexivity.
  - intros text. unfold Dialogue._extract_policy_number. cbv zeta.
    destruct (Nat.leb 6 _) eqn:E; [intros _; now apply Nat.leb_le in E|congruence].
  - intros now text s H pn s'. subst s'.
    rewrite (apply_expected_insurance now text s H). cbv zeta. fold pn.
    destruct (String.eqb pn "") eqn:E; cbn [negb].
    + apply String.eqb_eq in E. repeat apply conj.
      * congruence.
      * intros _ m ->. now apply lookup_after_fill.
      * intros _ ->. reflexivity.
    + apply String.eqb_neq in E. repeat apply conj.
      * intros _. now apply lookup_after_fill.
      * congruence.
      * congruence.
Qed.

Lemma spoken_digits_and_policy_number_witness :
  Dialogue._spoken_digits_to_string "one two double three for five" = "123345"
  /\ Dialogue._claim_apply_expected_answer Demo.now "it is one two three for five six"
       (<["claim_expected" := VStr "insurance_number"]> ∅) !! "insurance_number"
     = Some (VStr "123456").
Proof.
  destruct spoken_digits_and_policy_number as (H1 & _ & _ & _ & _ & _ & H7).
  split.
  - rewrite (H1 "one two double three for five"); [reflexivity|vm_compute; lia].
  - apply (H7 Demo.now "it is one two three for five six"); [reflexivity|].
    vm_compute. discriminate.
Defined.

(** C7, the claim as stated, fails: the answer "ABC12" has two digits,
    so no policy number of six digits is recovered from it, and yet the
    insurance_number slot is filled with it. *)
Lemma policy_number_counterexample :
  Dialogue._spoken_digits_to_string "ABC12" = "12"
  /\ Dialogue._extract_policy_number "ABC12" = ""
  /\ Dialogue._claim_apply_expected_answer Demo.now "ABC12"
       (<["claim_expected" := VStr "insurance_number"]> ∅)
     = <["insurance_number" := VStr "ABC12"]> ∅.
Proof. repeat split; vm_compute; reflexivity. Qed.

(** ** Which slots each step of a turn may write *)

Lemma mem_false_Forall (k : string) (keys : list string) :
  PyStr.mem k keys = false -> Forall (fun a => a <> k) keys.
Proof.
  intros H. apply List.Forall_forall. intros a Ha ->.
  assert (PyStr.mem k keys = true) by now apply mem_true_iff.
  congruence.
Qed.

(** Turns [H : mem k keys = false] into one hypothesis [a <> k] for each
    key [a] of the list. *)
Ltac keys_ne H :=
  apply mem_false_Forall in H;
  repeat (let E := fresh "Hne" in apply Forall_cons_1 in H as [E H]);
  clear H.

Ltac frame_step :=
  first
    [ rewrite lookup_insert_ne by assumption
    | rewrite lookup_delete_ne by assumption
    | case_match ].

Ltac frame := repeat frame_step; try done.

Section Frames.
Import PyStr Re Dialogue.

Definition entity_keys : list string :=
  ["coverage_level"; "horsepower"; "engine_size_l"; "city"; "vehicle_year";
   "vehicle_age"].

Lemma extract_entities_frame (user_text k : string) :
  mem k entity_keys = false -> Nlu.extract_entities user_text !! k = None.
Proof.
  intros H. keys_ne H. unfold Nlu.extract_entities. cbv zeta. frame.
Qed.

End Frames.

(** Evaluates the comparisons of two string literals in the goal. *)
Ltac eval_eqb :=
  repeat match goal with
    | |- context [String.eqb ?a ?b] =>
        let v := eval vm_compute in (String.eqb a b) in
        match v with
        | true => change (String.eqb a b) with true
        | false => change (String.eqb a b) with false
        end
    | _ => progress cbn [andb orb negb fst snd Nlu.intent Nlu.confidence]
    end.

Section Steps.
Import PyStr Re Dialogue.
Context {F : FloatOps}.

Lemma merge_entities_frame (CY : Z) (user_text t : string) (li : option string)
  (s : slots_t) (k : string) :
  mem k entity_keys = false ->
  merge_entities CY user_text t li s !! k = s !! k.
Proof.
  intros H. pose proof (extract_entities_frame user_text k H) as He.
  keys_ne H. unfold merge_entities. cbv zeta. frame;
    now rewrite lookup_union_r.
Qed.

(** The slots [resolve_intent] leaves: the forced intent is consumed;
    a cancellation during intake clears the intake flags; and the Q&A
    turn counter is reset unless the intent is doc_qa. *)
Definition consumed_slots (t : string) (s : slots_t) : slots_t :=
  let s := delete "force_intent" s in
  if truthy_opt (s !! "in_claim_intake") && _contains_any t CANCEL_WORDS
  then delete "claim_expected" (<["in_claim_intake" := VBool false]> s)
  else s.

Lemma resolve_intent_slots (user_text t : string) (li : option string) (s : slots_t) :
  snd (resolve_intent user_text t li s)
  = if negb (String.eqb (Nlu.intent (fst (resolve_intent user_text t li s))) "doc_qa")
    then <["qa_turns" := VInt 0]> (consumed_slots t s)
    else consumed_slots t s.
Proof.
  unfold resolve_intent, consumed_slots. cbv zeta.
  destruct (truthy_opt (delete "force_intent" s !! "in_claim_intake"));
    [destruct (_contains_any t CANCEL_WORDS)|]; cbn [andb fst snd];
    reflexivity.
Qed.

Definition resolve_keys : list string :=
  ["force_intent"; "in_claim_intake"; "claim_expected"; "qa_turns"].

Lemma consumed_slots_frame (t : string) (s : slots_t) (k : string) :
  mem k ["force_intent"; "in_claim_intake"; "claim_expected"] = false ->
  consumed_slots t s !! k = s !! k.
Proof.
  intros H. keys_ne H. unfold consumed_slots. cbv zeta. frame.
Qed.

Lemma consumed_slots_force (t : string) (s : slots_t) :
  consumed_slots t s !! "force_intent" = None.
Proof.
  unfold consumed_slots. cbv zeta. case_match.
  - rewrite lookup_delete_ne, lookup_insert_ne by discriminate. apply lookup_delete_eq.
  - apply lookup_delete_eq.
Qed.

Lemma resolve_intent_frame (user_text t : string) (li : option string)
  (s : slots_t) (k : string) :
  mem k resolve_keys = false ->
  snd (resolve_intent user_text t li s) !! k = s !! k.
Proof.
  intros H. rewrite resolve_intent_slots.
  assert (Hq : "qa_turns" <> k) by (intros <-; discriminate H).
  assert (H' : mem k ["force_intent"; "in_claim_intake"; "claim_expected"] = false).
  { unfold mem in *. simpl in *. repeat (apply orb_false_elim in H as [? H]).
    repeat (apply orb_false_intro; [assumption|]). reflexivity. }
  case_match; [rewrite lookup_insert_ne by assumption|]; now apply consumed_slots_frame.
Qed.

Lemma resolve_intent_consumes (user_text t : string) (li : option string) (s : slots_t) :
  snd (resolve_intent user_text t li s) !! "force_intent" = None.
Proof.
  rewrite resolve_intent_slots.
  case_match; [rewrite lookup_insert_ne by discriminate|]; apply consumed_slots_force.
Qed.

(** During intake, without a cancellation word and unless the text
    reads as a question about claims, the intent is report_claim. *)
Lemma resolve_intent_in_intake (user_text t : string) (li : option string) (s : slots_t) :
  truthy_opt (s !! "in_claim_intake") = true ->
  _contains_any t CANCEL_WORDS = false ->
  _looks_like_claim_info_only t = false ->
  Nlu.intent (fst (resolve_intent user_text t li s)) = "report_claim".
Proof.
  intros H1 H2 H3. unfold resolve_intent. cbv zeta.
  rewrite lookup_delete_ne by discriminate. rewrite H1, H2, H3.
  eval_eqb. rewrite ?andb_false_r. eval_eqb. reflexivity.
Qed.

(** *** The claim steps *)

Definition update_keys : list string :=
  ["accident_city"; "accident_area"; "accident_date"; "accident_description";
   "police_report_ref"].

Lemma claim_update_frame (now : Clock.datetime) (user_text : string) (s : slots_t)
  (k : string) :
  mem k update_keys = false ->
  _claim_update_from_text now user_text s !! k = s !! k.
Proof.
  intros H. keys_ne H. unfold _claim_update_from_text. cbv zeta. frame.
Qed.

Lemma insert_keeps (s : slots_t) (a k : string) (v : value) :
  is_Some (s !! k) -> is_Some (<[a := v]> s !! k).
Proof. intros H. rewrite lookup_insert. case_decide; [eauto|exact H]. Qed.

Ltac keeps := repeat first [ assumption | case_match | apply insert_keeps ].

Lemma claim_update_keeps (now : Clock.datetime) (user_text : string) (s : slots_t)
  (k : string) :
  is_Some (s !! k) -> is_Some (_claim_update_from_text now user_text s !! k).
Proof.
  intros H. unfold _claim_update_from_text. cbv zeta. keeps.
Qed.

Lemma claim_update_no_date (now : Clock.datetime) (user_text : string) (s : slots_t) :
  _parse_date now user_text = None ->
  _claim_update_from_text now user_text s !! "accident_date" = s !! "accident_date".
Proof.
  intros H. unfold _claim_update_from_text. cbv zeta. rewrite H.
  cbn [nonempty andb].
  repeat first [ rewrite lookup_insert_ne by discriminate | case_match ]; done.
Qed.

Definition apply_keys : list string :=
  ["claim_expected"; "injuries"; "vehicle_drivable"; "third_party_involved";
   "police_report"; "police_report_ref"; "accident_date"; "accident_city";
   "accident_area"; "insurance_number"; "accident_description"].

Lemma claim_apply_frame (now : Clock.datetime) (user_text : string) (s : slots_t)
  (k : string) :
  mem k apply_keys = false ->
  _claim_apply_expected_answer now user_text s !! k = s !! k.
Proof.
  intros H. keys_ne H. unfold _claim_apply_expected_answer.
  destruct (s !! "claim_expected") as [ev|]; [|done].
  destruct (negb (truthy ev)); [done|]. cbv zeta.
  destruct ev as [expected| | | |]; try done.
  destruct (mem expected ["injuries"; "vehicle_drivable"; "third_party_involved"]) eqn:E.
  - apply mem_true_iff in E. simpl in E.
    destruct E as [<- | [<- | [<- | []]]]; frame.
  - frame.
Qed.

Lemma delete_keeps (s : slots_t) (a k : string) :
  a <> k -> is_Some (s !! k) -> is_Some (delete a s !! k).
Proof. intros Hne H. now rewrite lookup_delete_ne. Qed.

Lemma claim_apply_keeps (now : Clock.datetime) (user_text : string) (s : slots_t)
  (k : string) :
  k <> "claim_expected" ->
  is_Some (s !! k) -> is_Some (_claim_apply_expected_answer now user_text s !! k).
Proof.
  intros Hk H. unfold _claim_apply_expected_answer. cbv zeta.
  repeat first [ assumption | case_match
               | apply delete_keeps; [congruence|] | apply insert_keeps ].
Qed.

Definition yes_no_fields : list string :=
  ["injuries"; "vehicle_drivable"; "third_party_involved"; "police_report"].

(** An answer that does not parse leaves the slots as they are. *)
Lemma claim_apply_no_yes_no (now : Clock.datetime) (user_text : string) (s : slots_t)
  (fld : string) :
  In fld yes_no_fields ->
  s !! "claim_expected" = Some (VStr fld) ->
  _parse_yes_no user_text = None ->
  _claim_apply_expected_answer now user_text s = s.
Proof.
  intros Hf He Hy. unfold _claim_apply_expected_answer. rewrite He, Hy.
  simpl in Hf. destruct Hf as [<- | [<- | [<- | [<- | []]]]]; reflexivity.
Qed.

Lemma claim_apply_no_date (now : Clock.datetime) (user_text : string) (s : slots_t) :
  s !! "claim_expected" = Some (VStr "accident_date") ->
  _parse_date now user_text = None ->
  _claim_apply_expected_answer now user_text s = s.
Proof.
  intros He Hd. unfold _claim_apply_expected_answer. rewrite He, Hd. reflexivity.
Qed.

(** *** The list of missing claim fields *)

Lemma has_true (s : slots_t) (k : string) : has s k = true <-> is_Some (s !! k).
Proof. unfold has. apply bool_decide_eq_true. Qed.

Lemma has_false (s : slots_t) (k : string) : has s k = false <-> s !! k = None.
Proof.
  unfold has. rewrite bool_decide_eq_false. rewrite <- eq_None_not_Some. tauto.
Qed.

Lemma filter_head {A : Type} (f : A -> bool) (l : list A) (k : A) (rest : list A) :
  List.filter f l = k :: rest ->
  exists pre post,
    l = (pre ++ k :: post)%list /\ Forall (fun x => f x = false) pre /\ f k = true
    /\ rest = List.filter f post.
Proof.
  induction l as [|x l IH]; simpl; [discriminate|].
  destruct (f x) eqn:E.
  - intros [= -> <-]. exists [], l. repeat split; [constructor|exact E].
  - intros H. destruct (IH H) as (pre & post & -> & Hpre & Hk & Hr).
    exists (x :: pre), post. repeat split; [constructor; assumption|exact Hk|exact Hr].
Qed.

Lemma filter_head_intro {A : Type} (f : A -> bool) (pre post : list A) (k : A) :
  Forall (fun x => f x = false) pre -> f k = true ->
  List.filter f (pre ++ k :: post)%list = k :: List.filter f post.
Proof.
  intros Hpre Hk. induction Hpre as [|x pre Hx _ IH]; simpl.
  - now rewrite Hk.
  - now rewrite Hx.
Qed.

(** The first missing field: every field before it in the fixed order
    is present, and it is absent. *)
Lemma missing_first (s : slots_t) (k : string) (rest : list string) :
  _claim_missing_slots s = k :: rest ->
  exists pre post,
    claim_needed = (pre ++ k :: post)%list
    /\ Forall (fun f => has s f = true) pre
    /\ has s k = false.
Proof.
  intros H. apply filter_head in H as (pre & post & E & Hpre & Hk & _).
  exists pre, post. repeat split; [exact E| |].
  - eapply List.Forall_impl; [|exact Hpre]. intros f Hf. simpl in Hf.
    now apply negb_false_iff in Hf.
  - now apply negb_true_iff in Hk.
Qed.

(** The first missing field stays the first missing one as long as it
    stays absent and no slot is removed. *)
Lemma missing_first_stable (s s' : slots_t) (k : string) (rest : list string) :
  _claim_missing_slots s = k :: rest ->
  (forall f, In f claim_needed -> is_Some (s !! f) -> is_Some (s' !! f)) ->
  s' !! k = None ->
  exists rest', _claim_missing_slots s' = k :: rest'.
Proof.
  intros H Hmono Hk.
  apply filter_head in H as (pre & post & E & Hpre & _ & _).
  unfold _claim_missing_slots. rewrite E.
  eexists. apply filter_head_intro.
  - apply List.Forall_forall. intros f Hf.
    rewrite List.Forall_forall in Hpre. specialize (Hpre f Hf). simpl in Hpre.
    apply negb_false_iff, has_true in Hpre. apply negb_false_iff, has_true.
    apply Hmono; [|exact Hpre]. rewrite E. apply in_or_app. now left.
  - apply negb_true_iff, has_false. exact Hk.
Qed.

Lemma missing_insert_other (s : slots_t) (a : string) (v : value) :
  ~ In a claim_needed ->
  _claim_missing_slots (<[a := v]> s) = _claim_missing_slots s.
Proof.
  intros Ha. unfold _claim_missing_slots. apply List.filter_ext_in.
  intros f Hf. unfold has. f_equal. apply bool_decide_ext.
  rewrite lookup_insert_ne; [tauto|]. intros ->. contradiction.
Qed.


Lemma in_needed_iff (f : string) : In f claim_needed <-> mem f claim_needed = true.
Proof. symmetry. apply mem_true_iff. Qed.
End Steps.

Section Dispatch.
Import PyStr Re Dialogue.
Context {F : FloatOps}.

Definition premium_keys : list string :=
  ["coverage_level"; "horsepower"; "engine_size_l"].
Definition qa_keys : list string := ["qa_turns"; "qa_frustration"; "force_intent"].

Lemma premium_quote_frame (t : string) (st st' : SessionState) (r : TurnResult)
  (k : string) :
  premium_quote t st = Return r st' ->
  mem k premium_keys = false ->
  slots st' !! k = slots st !! k.
Proof.
  intros H Hk. keys_ne Hk. unfold premium_quote in H. cbv zeta in H.
  repeat (case_match; simplify_eq); cbn [slots with_slots]; frame.
Qed.

Lemma premium_quote_result (t : string) (st st' : SessionState) (r : TurnResult) :
  premium_quote t st = Return r st' ->
  end_call r = false /\ last_intent st' = last_intent st /\ turns st' = turns st.
Proof.
  intros H. unfold premium_quote in H. cbv zeta in H.
  repeat (case_match; simplify_eq); auto.
Qed.

Lemma compare_coverage_state (st st' : SessionState) (r : TurnResult) :
  compare_coverage st = Return r st' -> st' = st /\ end_call r = false.
Proof.
  intros H. unfold compare_coverage in H. cbv zeta in H.
  repeat (case_match; simplify_eq); auto.
Qed.

Lemma qa_frame (user_text : string) (docs : list DocChunk) (s s' : slots_t)
  (answer k : string) :
  _qa_answer_or_followup user_text docs s = Some (answer, s') ->
  mem k qa_keys = false ->
  s' !! k = s !! k.
Proof.
  intros H Hk. keys_ne Hk. unfold _qa_answer_or_followup in H. cbv zeta in H.
  repeat (case_match; simplify_eq); frame.
Qed.

(** The responder sets the forced intent on its two redirects only. *)
Lemma qa_force_intent (user_text : string) (docs : list DocChunk) (s s' : slots_t)
  (answer : string) (v : value) :
  _qa_answer_or_followup user_text docs s = Some (answer, s') ->
  s !! "force_intent" = None ->
  s' !! "force_intent" = Some v ->
  v = VStr "premium_estimate"
  /\ (_looks_like_insurance_request (strip (lower user_text))
      || _looks_like_pricing (strip (lower user_text))) = true.
Proof.
  intros H Hs Hv. unfold _qa_answer_or_followup in H. cbv zeta in H.
  repeat (case_match; simplify_eq);
    repeat first [ rewrite lookup_insert_eq in Hv
                 | rewrite lookup_insert_ne in Hv by discriminate ];
    simplify_eq; rewrite ?orb_true_r; auto.
Qed.
End Dispatch.

(** ** A turn, route by route *)

Section Turn.
Import PyStr Re Dialogue.
Context {F : FloatOps}.
Variables (CURRENT_YEAR : Z) (rag : RAGIndex).

Local Abbreviation pre_intent := (pre_intent CURRENT_YEAR).
Local Abbreviation pre_state := (pre_state CURRENT_YEAR).

(** A claim-intake turn: the turn is dispatched to the claim intake
    sub-flow. *)
Definition claim_turn (user_text : string) (st : SessionState) : Prop :=
  _contains_any (norm user_text) EXIT_WORDS = false
  /\ pre_intent user_text st = "report_claim"
  /\ _contains_any (norm user_text) handoff_phrases = false.

(** The slots of a claim-intake turn once the utterance has been read:
    after the free-text heuristics and the expected answer. *)
Definition claim_slots (now : Clock.datetime) (user_text : string) (st : SessionState)
  : slots_t :=
  _claim_apply_expected_answer now user_text
    (_claim_update_from_text now user_text
       (<["in_claim_intake" := VBool true]> (slots (pre_state user_text st)))).

Lemma dm_claim_turn (now : Clock.datetime) (user_text : string) (st : SessionState) :
  claim_turn user_text st ->
  dialogue_manager CURRENT_YEAR now rag user_text st
  = claim_intake now user_text (pre_state user_text st).
Proof.
  intros (He & Hi & Hh). rewrite dialogue_manager_no_exit by exact He. cbv zeta.
  rewrite Hh, Hi. reflexivity.
Qed.

Lemma claim_intake_missing (now : Clock.datetime) (user_text : string)
  (st : SessionState) (k : string) (rest : list string) :
  _claim_missing_slots (claim_slots now user_text st) = k :: rest ->
  claim_intake now user_text (pre_state user_text st)
  = Return (mkTurnResult (_ask_claim_question k) false)
      (mkSessionState (<["claim_expected" := VStr k]> (claim_slots now user_text st))
         (Some (pre_intent user_text st)) (turns st + 1)).
Proof.
  intros H. unfold claim_intake. cbv zeta. fold (claim_slots now user_text st).
  rewrite H. reflexivity.
Qed.

Lemma needed_keys (f : string) :
  In f claim_needed ->
  mem f entity_keys = false /\ mem f resolve_keys = false
  /\ f <> "claim_expected" /\ f <> "in_claim_intake".
Proof.
  unfold claim_needed. simpl. intros H.
  repeat (destruct H as [<- | H]; [repeat split; discriminate|]). destruct H.
Qed.

Lemma pre_state_slot (user_text : string) (st : SessionState) (k : string) :
  mem k entity_keys = false -> mem k resolve_keys = false ->
  slots (pre_state user_text st) !! k = slots st !! k.
Proof.
  intros H1 H2. unfold pre_state, pre_resolved. cbn [slots].
  rewrite resolve_intent_frame by exact H2. now apply merge_entities_frame.
Qed.

(** No step of a claim-intake turn removes a claim field. *)
Lemma claim_slots_keeps (now : Clock.datetime) (user_text : string) (st : SessionState)
  (f : string) :
  In f claim_needed ->
  is_Some (slots st !! f) -> is_Some (claim_slots now user_text st !! f).
Proof.
  intros Hf H. destruct (needed_keys f Hf) as (H1 & H2 & H3 & H4).
  unfold claim_slots.
  apply claim_apply_keeps; [exact H3|]. apply claim_update_keeps, insert_keeps.
  now rewrite pre_state_slot.
Qed.

(** *** The routes that are not the claim intake *)

(** A turn that passes the exit check either is a claim-intake turn,
    or is none and leaves every slot as the override rules left it, but for the
    slots of the quote and of the Q&A responder; the forced intent is
    then present only as the responder's redirect set it. *)
Lemma dm_routes (now : Clock.datetime) (user_text : string) (st st' : SessionState)
  (r : TurnResult) :
  _contains_any (norm user_text) EXIT_WORDS = false ->
  dialogue_manager CURRENT_YEAR now rag user_text st = Return r st' ->
  (claim_turn user_text st
   /\ claim_intake now user_text (pre_state user_text st) = Return r st')
  \/ (~ claim_turn user_text st
      /\ (forall k, mem k premium_keys = false -> mem k qa_keys = false ->
           slots st' !! k = slots (pre_state user_text st) !! k)
      /\ (forall v, slots st' !! "force_intent" = Some v ->
           v = VStr "premium_estimate"
           /\ (_looks_like_insurance_request (norm user_text)
               || _looks_like_pricing (norm user_text)) = true
           /\ end_call r = false)).
Proof.
  intros He H. rewrite dialogue_manager_no_exit in H by exact He. cbv zeta in H.
  assert (Hf : slots (pre_state user_text st) !! "force_intent" = None)
    by apply resolve_intent_consumes.
  destruct (String.eqb (pre_intent user_text st) "handoff_human"
            || _contains_any (norm user_text) handoff_phrases) eqn:Eh.
  { right. split.
    { intros (_ & Hi & Hh). rewrite Hi, Hh in Eh. discriminate Eh. }
    simplify_eq. split; [done|]. intros v Hv. congruence. }
  apply orb_false_elim in Eh as [_ Eh].
  destruct (String.eqb (pre_intent user_text st) "report_claim") eqn:Ec.
  { left. apply String.eqb_eq in Ec. repeat split; assumption. }
  right. split.
  { intros (_ & Hi & _). rewrite Hi in Ec. discriminate Ec. }
  destruct (String.eqb (pre_intent user_text st) "premium_estimate") eqn:Ep.
  { split.
    - intros k Hk _. eapply premium_quote_frame; eassumption.
    - intros v Hv.
      rewrite (premium_quote_frame _ _ _ _ _ H) in Hv by reflexivity. congruence. }
  case_match; [simplify_eq; split; [done|intros v Hv; congruence]|].
  case_match; [simplify_eq; split; [done|intros v Hv; congruence]|].
  case_match.
  { apply compare_coverage_state in H as [-> _].
    split; [done|intros v Hv; congruence]. }
  unfold doc_qa in H. cbv zeta in H.
  destruct (rag _ _) as [docs|]; [|discriminate].
  destruct (_qa_answer_or_followup user_text docs (slots (pre_state user_text st)))
    as [[answer s']|] eqn:Eq; [|discriminate].
  simplify_eq. cbn [slots with_slots end_call]. split.
  - intros k _ Hk. eapply qa_frame; eassumption.
  - intros v Hv. destruct (qa_force_intent _ _ _ _ _ _ Eq Hf Hv) as [-> Hl].
    repeat split. exact Hl.
Qed.
End Turn.

(** ** Claim intake *)



(** ** Invariants of the session *)

Section Invariants.
Import PyStr Re Dialogue.
Context {F : FloatOps}.
Variables (CURRENT_YEAR : Z) (rag : RAGIndex).

Local Abbreviation pre_intent := (pre_intent CURRENT_YEAR).
Local Abbreviation pre_state := (pre_state CURRENT_YEAR).
Local Abbreviation claim_turn := (claim_turn CURRENT_YEAR).
Local Abbreviation claim_slots := (claim_slots CURRENT_YEAR).

(** The states of a session: the initial one, and those a turn
    returns. *)
Inductive reachable : SessionState -> Prop :=
| reach_new : reachable new_session
| reach_turn (now : Clock.datetime) (user_text : string) (st st' : SessionState)
    (r : TurnResult) :
    reachable st ->
    dialogue_manager CURRENT_YEAR now rag user_text st = Return r st' ->
    reachable st'.

(** While a claim question is pending, the intake flag is set and the
    pending field is the first missing one. *)
Definition claim_inv (s : slots_t) : Prop :=
  forall fld : string,
    s !! "claim_expected" = Some (VStr fld) ->
    (exists rest, _claim_missing_slots s = fld :: rest)
    /\ s !! "in_claim_intake" = Some (VBool true).

Definition inv_keys : list string :=
  "claim_expected" :: "in_claim_intake" :: claim_needed.

Lemma missing_agree (s s' : slots_t) :
  (forall k, In k claim_needed -> s' !! k = s !! k) ->
  _claim_missing_slots s' = _claim_missing_slots s.
Proof.
  intros H. unfold _claim_missing_slots. apply List.filter_ext_in.
  intros f Hf. unfold has. now rewrite (H f Hf).
Qed.

Lemma claim_inv_agree (s s' : slots_t) :
  (forall k, In k inv_keys -> s' !! k = s !! k) -> claim_inv s -> claim_inv s'.
Proof.
  intros H Hs fld Hf.
  rewrite (H "claim_expected") in Hf by (left; reflexivity).
  destruct (Hs fld Hf) as [[rest Hm] Hi]. split.
  - exists rest. rewrite <- Hm. apply missing_agree.
    intros k Hk. apply H. right. right. exact Hk.
  - rewrite (H "in_claim_intake") by (right; left; reflexivity). exact Hi.
Qed.

Lemma claim_inv_none (s : slots_t) : s !! "claim_expected" = None -> claim_inv s.
Proof. intros H fld Hf. congruence. Qed.

Lemma inv_keys_other (k : string) :
  In k inv_keys ->
  mem k entity_keys = false /\ mem k premium_keys = false /\ mem k qa_keys = false
  /\ k <> "force_intent" /\ k <> "qa_turns".
Proof.
  unfold inv_keys, claim_needed. simpl. intros H.
  repeat (destruct H as [<- | H]; [repeat split; discriminate|]). destruct H.
Qed.

Lemma consumed_slots_inv (t : string) (s : slots_t) :
  claim_inv s -> claim_inv (consumed_slots t s).
Proof.
  intros Hs. unfold consumed_slots. cbv zeta. case_match.
  - apply claim_inv_none, lookup_delete_eq.
  - eapply claim_inv_agree; [|exact Hs]. intros k Hk.
    apply inv_keys_other in Hk as (_ & _ & _ & Hk & _).
    now rewrite lookup_delete_ne.
Qed.

Lemma pre_state_inv (user_text : string) (st : SessionState) :
  claim_inv (slots st) -> claim_inv (slots (pre_state user_text st)).
Proof.
  intros Hs. unfold pre_state, pre_resolved. cbn [slots].
  rewrite resolve_intent_slots.
  assert (Hc : claim_inv (consumed_slots (norm user_text)
                 (merge_entities CURRENT_YEAR user_text (norm user_text)
                    (last_intent st) (slots st)))).
  { apply consumed_slots_inv. eapply claim_inv_agree; [|exact Hs].
    intros k Hk. apply inv_keys_other in Hk as (Hk & _).
    now apply merge_entities_frame. }
  case_match; [|exact Hc].
  eapply claim_inv_agree; [|exact Hc]. intros k Hk.
  apply inv_keys_other in Hk as (_ & _ & _ & _ & Hk).
  now rewrite lookup_insert_ne.
Qed.

Lemma claim_intake_inv (now : Clock.datetime) (user_text : string)
  (st st' : SessionState) (r : TurnResult) :
  claim_intake now user_text st = Return r st' -> claim_inv (slots st').
Proof.
  unfold claim_intake. cbv zeta.
  set (s := _claim_apply_expected_answer now user_text
              (_claim_update_from_text now user_text
                 (<["in_claim_intake" := VBool true]> (slots st)))).
  destruct (_claim_missing_slots s) as [|k rest] eqn:Em.
  - destruct (_generate_claim_number now (with_slots st s)) as [claim_no st0].
    intros [= _ <-]. cbn [slots with_slots].
    apply claim_inv_none, lookup_delete_eq.
  - intros [= _ <-]. cbn [slots with_slots]. intros fld Hf.
    rewrite lookup_insert_eq in Hf. injection Hf as <-. split.
    + exists rest. rewrite missing_insert_other; [exact Em|].
      unfold claim_needed. simpl. intuition discriminate.
    + rewrite lookup_insert_ne by discriminate. subst s.
      rewrite claim_apply_frame by reflexivity.
      rewrite claim_update_frame by reflexivity.
      apply lookup_insert_eq.
Qed.

Lemma turn_inv (now : Clock.datetime) (user_text : string) (st st' : SessionState)
  (r : TurnResult) :
  claim_inv (slots st) ->
  dialogue_manager CURRENT_YEAR now rag user_text st = Return r st' ->
  claim_inv (slots st').
Proof.
  intros Hs H.
  destruct (_contains_any (norm user_text) EXIT_WORDS) eqn:He.
  - rewrite dialogue_manager_exit in H by exact He. injection H as _ <-.
    apply claim_inv_none, exit_state_flags.
  - destruct (dm_routes CURRENT_YEAR rag now user_text st st' r He H)
      as [[_ Hc] | (_ & Hfr & _)].
    + eapply claim_intake_inv; exact Hc.
    + eapply claim_inv_agree; [|apply pre_state_inv; exact Hs].
      intros k Hk. apply inv_keys_other in Hk as (_ & Hp & Hq & _).
      now apply Hfr.
Qed.

Lemma reachable_inv (st : SessionState) : reachable st -> claim_inv (slots st).
Proof.
  induction 1 as [|now user_text st st' r _ IH H].
  - apply claim_inv_none. reflexivity.
  - eapply turn_inv; eassumption.
Qed.
End Invariants.

Section Reask.
Import PyStr Re Dialogue.
Context {F : FloatOps}.
Variables (CURRENT_YEAR : Z) (rag : RAGIndex).

Local Abbreviation pre_intent := (pre_intent CURRENT_YEAR).
Local Abbreviation pre_state := (pre_state CURRENT_YEAR).
Local Abbreviation claim_turn := (claim_turn CURRENT_YEAR).
Local Abbreviation claim_slots := (claim_slots CURRENT_YEAR).

(** A cancellation during intake never resolves to report_claim. *)
Lemma resolve_intent_cancel (user_text t : string) (li : option string) (s : slots_t) :
  truthy_opt (s !! "in_claim_intake") = true ->
  _contains_any t CANCEL_WORDS = true ->
  Nlu.intent (fst (resolve_intent user_text t li s)) <> "report_claim".
Proof.
  intros H1 H2. unfold resolve_intent. cbv zeta.
  rewrite lookup_delete_ne by discriminate. rewrite H1, H2.
  destruct (any_in shopping_signals t), (mem t affirmations),
    (bool_decide (li = Some "premium_estimate")),
    (_looks_like_claim_info_only t);
    cbn [fst snd Nlu.intent Nlu.confidence String.eqb Ascii.eqb Bool.eqb andb orb negb];
    repeat (case_match;
            cbn [fst snd Nlu.intent Nlu.confidence String.eqb Ascii.eqb Bool.eqb
                 andb orb negb]);
    discriminate.
Qed.

(** In a claim-intake turn of a session that is in intake, the slots
    handed to the sub-flow are those of the session, but for the
    entities of the utterance, the forced intent and the Q&A counter. *)
Lemma claim_turn_pre_slot (user_text : string) (st : SessionState) (k : string) :
  claim_turn user_text st ->
  slots st !! "in_claim_intake" = Some (VBool true) ->
  mem k entity_keys = false -> k <> "force_intent" -> k <> "qa_turns" ->
  slots (pre_state user_text st) !! k = slots st !! k.
Proof.
  intros (_ & Hi & _) Hin Hk Hf Hq.
  set (s1 := merge_entities CURRENT_YEAR user_text (norm user_text)
               (last_intent st) (slots st)).
  assert (Hin1 : truthy_opt (s1 !! "in_claim_intake") = true).
  { subst s1. rewrite merge_entities_frame by reflexivity. now rewrite Hin. }
  destruct (_contains_any (norm user_text) CANCEL_WORDS) eqn:Ec.
  { exfalso. eapply resolve_intent_cancel; [exact Hin1|exact Ec|exact Hi]. }
  unfold pre_state, pre_resolved. cbn [slots]. fold s1.
  rewrite resolve_intent_slots.
  assert (Hc : consumed_slots (norm user_text) s1 !! k = slots st !! k).
  { unfold consumed_slots. cbv zeta. rewrite Ec, andb_false_r.
    rewrite lookup_delete_ne by congruence. subst s1.
    now apply merge_entities_frame. }
  case_match; [rewrite lookup_insert_ne by congruence|]; exact Hc.
Qed.
End Reask.

(** C9. In a claim-intake turn of a session whose pending question is
    the field F, if the utterance has no yes/no word (F being injuries,
    vehicle_drivable, third_party_involved or police_report) or no
    recognisable date (F being accident_date), the turn returns normally:
    the response asks the canned question of F again, slot F is still
    absent and claim_expected is still F. *)
Theorem unparseable_answer_is_reasked {F : FloatOps} (CURRENT_YEAR : Z)
  (rag : Dialogue.RAGIndex) (now : Clock.datetime) (user_text : string)
  (state : Dialogue.SessionState) (fld : string) :
  reachable CURRENT_YEAR rag state ->
  claim_turn CURRENT_YEAR user_text state ->
  Dialogue.slots state !! "claim_expected" = Some (VStr fld) ->
  (In fld yes_no_fields /\ Dialogue._parse_yes_no user_text = None)
  \/ (fld = "accident_date" /\ Dialogue._parse_date now user_text = None) ->
  exists st' : Dialogue.SessionState,
    Dialogue.dialogue_manager CURRENT_YEAR now rag user_text state
      = Dialogue.Return
          (Dialogue.mkTurnResult (Dialogue._ask_claim_question fld) false) st'
    /\ Dialogue.slots st' !! fld = None
    /\ Dialogue.slots st' !! "claim_expected" = Some (VStr fld).
Proof.
  intros Hr Ht He Hu.
  destruct (reachable_inv CURRENT_YEAR rag state Hr fld He) as [[rest Hm] Hin].
  destruct (missing_first _ _ _ Hm) as (pre & post & E & _ & Hk).
  apply has_false in Hk.
  assert (Hfld : In fld Dialogue.claim_needed).
  { rewrite E. apply in_or_app. right. now left. }
  destruct (needed_keys fld Hfld) as (Hk1 & Hk2 & Hk3 & Hk4).
  set (s3 := <["in_claim_intake" := VBool true]>
               (Dialogue.slots (pre_state CURRENT_YEAR user_text state))).
  set (s4 := Dialogue._claim_update_from_text now user_text s3).
  assert (He4 : s4 !! "claim_expected" = Some (VStr fld)).
  { subst s4 s3. rewrite claim_update_frame by reflexivity.
    rewrite lookup_insert_ne by discriminate.
    rewrite (claim_turn_pre_slot CURRENT_YEAR user_text state "claim_expected" Ht Hin);
      [exact He|reflexivity|discriminate|discriminate]. }
  assert (Hs3 : s3 !! fld = None).
  { subst s3. rewrite lookup_insert_ne by congruence.
    rewrite (claim_turn_pre_slot CURRENT_YEAR user_text state fld Ht Hin);
      [exact Hk|exact Hk1| |].
    - intros ->. discriminate Hk2.
    - intros ->. discriminate Hk2. }
  assert (Hs : claim_slots CURRENT_YEAR now user_text state = s4
               /\ s4 !! fld = None).
  { unfold claim_slots. fold s3. fold s4.
    destruct Hu as [[Hy Hp] | [-> Hp]].
    - split; [now apply (claim_apply_no_yes_no now user_text s4 fld)|].
      subst s4. rewrite claim_update_frame; [exact Hs3|].
      simpl in Hy. destruct Hy as [<- | [<- | [<- | [<- | []]]]]; reflexivity.
    - split; [now apply claim_apply_no_date|].
      subst s4. now rewrite claim_update_no_date. }
  destruct Hs as [Hcs Hn].
  destruct (missing_first_stable (Dialogue.slots state)
              (claim_slots CURRENT_YEAR now user_text state) fld rest Hm)
    as [rest' Hm'].
  { intros f Hf. now apply claim_slots_keeps. }
  { now rewrite Hcs. }
  eexists. split; [|split].
  - rewrite (dm_claim_turn CURRENT_YEAR rag now user_text state Ht).
    apply (claim_intake_missing CURRENT_YEAR now user_text state fld rest' Hm').
  - cbn [Dialogue.slots]. rewrite lookup_insert_ne by congruence.
    now rewrite Hcs.
  - cbn [Dialogue.slots]. apply lookup_insert_eq.
Qed.


(** A session in intake whose pending question is about injuries. *)
Definition demo_intake_state : Dialogue.SessionState :=
  Eval vm_compute in
    default Dialogue.new_session
      (Demo.after ["I had a crash"; "one two three four five six"] Dialogue.new_session).

Lemma demo_intake_state_reachable :
  reachable (F := ExactFloat.ops) Demo.year Demo.rag demo_intake_state.
Proof.
  apply (reach_turn Demo.year Demo.rag Demo.now "one two three four five six"
           (default Dialogue.new_session (Demo.after ["I had a crash"] Dialogue.new_session))
           demo_intake_state
           (Dialogue.mkTurnResult (Dialogue._ask_claim_question "injuries") false)).
  - apply (reach_turn Demo.year Demo.rag Demo.now "I had a crash" Dialogue.new_session _
             (Dialogue.mkTurnResult (Dialogue._ask_claim_question "insurance_number") false)).
    + apply reach_new.
    + vm_compute. reflexivity.
  - vm_compute. reflexivity.
Defined.

Lemma unparseable_answer_is_reasked_witness :
  exists st' : Dialogue.SessionState,
    Demo.turn "maybe" demo_intake_state
      = Dialogue.Return
          (Dialogue.mkTurnResult (Dialogue._ask_claim_question "injuries") false) st'
    /\ Dialogue.slots st' !! "injuries" = None
    /\ Dialogue.slots st' !! "claim_expected" = Some (VStr "injuries").
Proof.
  apply (unparseable_answer_is_reasked (F := ExactFloat.ops) Demo.year Demo.rag Demo.now
           "maybe" demo_intake_state "injuries").
  - exact demo_intake_state_reachable.
  - repeat split; vm_compute; reflexivity.
  - vm_compute. reflexivity.
  - left. split; [simpl; tauto|vm_compute; reflexivity].
Defined.

Section ClaimFrame.
Import PyStr Re Dialogue.
Context {F : FloatOps}.

Definition claim_keys : list string :=
  "in_claim_intake" :: "claim_counters" :: "claim_number" :: (update_keys ++ apply_keys).

(** The claim intake sub-flow writes claim slots only. *)
Lemma claim_intake_frame (now : Clock.datetime) (user_text : string)
  (st st' : SessionState) (r : TurnResult) (k : string) :
  claim_intake now user_text st = Return r st' ->
  mem k claim_keys = false ->
  slots st' !! k = slots st !! k.
Proof.
  intros H Hk.
  assert (Hu : mem k update_keys = false).
  { apply mem_false_Forall in Hk. destruct (mem k update_keys) eqn:E; [|reflexivity].
    apply mem_true_iff in E. rewrite List.Forall_forall in Hk.
    exfalso. apply (Hk k); [|reflexivity].
    right. right. right. apply in_or_app. now left. }
  assert (Ha : mem k apply_keys = false).
  { apply mem_false_Forall in Hk. destruct (mem k apply_keys) eqn:E; [|reflexivity].
    apply mem_true_iff in E. rewrite List.Forall_forall in Hk.
    exfalso. apply (Hk k); [|reflexivity].
    right. right. right. apply in_or_app. now right. }
  assert (Hs : forall s0 : slots_t,
             _claim_apply_expected_answer now user_text
               (_claim_update_from_text now user_text
                  (<["in_claim_intake" := VBool true]> s0)) !! k = s0 !! k).
  { intros s0. rewrite claim_apply_frame by exact Ha.
    rewrite claim_update_frame by exact Hu.
    apply lookup_insert_ne. intros <-. discriminate Hk. }
  assert (Hne : "claim_expected" <> k) by (intros <-; discriminate Ha).
  assert (Hn1 : "in_claim_intake" <> k) by (intros <-; discriminate Hk).
  assert (Hn2 : "claim_counters" <> k) by (intros <-; discriminate Hk).
  assert (Hn3 : "claim_number" <> k) by (intros <-; discriminate Hk).
  revert H. unfold claim_intake. cbv zeta.
  destruct (_claim_missing_slots _) as [|next_key rest].
  - unfold _generate_claim_number. cbv zeta.
    intros [= _ <-]. cbn [slots with_slots last_intent turns].
    rewrite lookup_delete_ne by exact Hne.
    rewrite lookup_insert_ne by exact Hn1.
    rewrite lookup_insert_ne by exact Hn3.
    rewrite lookup_insert_ne by exact Hn2.
    apply Hs.
  - intros [= _ <-]. cbn [slots with_slots].
    rewrite lookup_insert_ne by exact Hne. apply Hs.
Qed.

Lemma claim_intake_result (now : Clock.datetime) (user_text : string)
  (st st' : SessionState) (r : TurnResult) :
  claim_intake now user_text st = Return r st' -> end_call r = false.
Proof.
  unfold claim_intake. cbv zeta.
  destruct (_claim_missing_slots _) as [|next_key rest].
  - unfold _generate_claim_number. cbv zeta. intros [= <- _]. reflexivity.
  - intros [= <- _]. reflexivity.
Qed.
End ClaimFrame.

(** ** The forced intent *)

Section ForceIntent.
Import PyStr Re Dialogue.
Context {F : FloatOps}.
Variables (CURRENT_YEAR : Z) (rag : RAGIndex).

(** What one turn does to the forced intent. *)
Lemma turn_force_intent (now : Clock.datetime) (user_text : string)
  (st st' : SessionState) (r : TurnResult) :
  dialogue_manager CURRENT_YEAR now rag user_text st = Return r st' ->
  (_contains_any (norm user_text) EXIT_WORDS = true ->
   slots st' !! "force_intent" = slots st !! "force_intent")
  /\ (_contains_any (norm user_text) EXIT_WORDS = false ->
      slots (pre_state CURRENT_YEAR user_text st) !! "force_intent" = None
      /\ forall v : value,
           slots st' !! "force_intent" = Some v ->
           v = VStr "premium_estimate"
           /\ (_looks_like_insurance_request (norm user_text)
               || _looks_like_pricing (norm user_text)) = true
           /\ end_call r = false).
Proof.
  intros H. split; intros He.
  - rewrite dialogue_manager_exit in H by exact He. injection H as _ <-.
    unfold exit_state. cbn [slots].
    rewrite lookup_delete_ne by discriminate.
    now rewrite lookup_insert_ne by discriminate.
  - assert (Hp : slots (pre_state CURRENT_YEAR user_text st) !! "force_intent" = None)
      by apply resolve_intent_consumes.
    split; [exact Hp|]. intros v Hv.
    destruct (dm_routes CURRENT_YEAR rag now user_text st st' r He H)
      as [[_ Hc] | (_ & _ & Hf)]; [|now apply Hf].
    rewrite (claim_intake_frame now user_text _ st' r "force_intent" Hc) in Hv
      by reflexivity.
    congruence.
Qed.
End ForceIntent.




(** ** The coverage comparison *)

Section ExactLaws.
Import ExactFloat.

Lemma Qle_bool_true (x y : Q) : Qle_bool x y = true <-> (x <= y)%Q.
Proof. apply Qle_bool_iff. Qed.

Lemma round_half_even_comp (x y : Q) : (x == y)%Q -> round_half_even x = round_half_even y.
Proof.
  intros E. unfold round_half_even.
  assert (E2 : (x * 2 == y * 2)%Q) by now rewrite E.
  rewrite (Qfloor_comp _ _ E), (Qfloor_comp _ _ E2).
  destruct (Qfloor (y * 2) - 2 * Qfloor y =? 0); [reflexivity|].
  assert (Eb : Qeq_bool (x * 2) (inject_Z (2 * Qfloor y + 1))
               = Qeq_bool (y * 2) (inject_Z (2 * Qfloor y + 1))).
  { destruct (Qeq_bool (y * 2) _) eqn:Ey.
    - apply Qeq_bool_iff. apply Qeq_bool_iff in Ey. now rewrite E2.
    - destruct (Qeq_bool (x * 2) _) eqn:Ex; [|reflexivity].
      apply Qeq_bool_iff in Ex. rewrite E2 in Ex. apply Qeq_bool_iff in Ex. congruence. }
  now rewrite Eb.
Qed.

(** The rounded value is within one half of the number. *)
Lemma round_half_even_near (q : Q) :
  (inject_Z (2 * round_half_even q - 1) <= q * 2)%Q
  /\ (q * 2 <= inject_Z (2 * round_half_even q + 1))%Q.
Proof.
  pose proof (Qfloor_le q) as Hl. pose proof (Qlt_floor q) as Hu.
  pose proof (Qfloor_le (q * 2)) as Hl2. pose proof (Qlt_floor (q * 2)) as Hu2.
  unfold round_half_even.
  set (fl := Qfloor q) in *. set (f2 := Qfloor (q * 2)) in *.
  assert (Hq2 : (q * 2 == q + q)%Q) by ring.
  assert (B1 : (inject_Z (2 * fl) <= q * 2)%Q).
  { rewrite Hq2. replace (2 * fl) with (fl + fl) by lia.
    rewrite inject_Z_plus. now apply Qplus_le_compat. }
  assert (B2 : (q * 2 < inject_Z (2 * fl + 2))%Q).
  { rewrite Hq2. replace (2 * fl + 2) with ((fl + 1) + (fl + 1)) by lia.
    rewrite inject_Z_plus. now apply Qplus_lt_le_compat; [|apply Qlt_le_weak]. }
  assert (F1 : 2 * fl <= f2).
  { apply Qfloor_resp_le in B1. now rewrite Qfloor_Z in B1. }
  assert (F2 : f2 < 2 * fl + 2).
  { apply Z.lt_nge. intros Hc. apply (Qlt_not_le _ _ B2).
    eapply Qle_trans; [|exact Hl2]. rewrite <- Zle_Qle. exact Hc. }
  destruct (f2 - 2 * fl =? 0) eqn:E0.
  - apply Z.eqb_eq in E0. assert (f2 = 2 * fl) by lia. split.
    + eapply Qle_trans; [|exact B1]. rewrite <- Zle_Qle. lia.
    + apply Qlt_le_weak. replace (2 * fl + 1) with (f2 + 1) by lia. exact Hu2.
  - apply Z.eqb_neq in E0. assert (E1 : f2 = 2 * fl + 1) by lia.
    destruct (Qeq_bool (q * 2) (inject_Z (2 * fl + 1))) eqn:Et.
    + apply Qeq_bool_iff in Et. destruct (Z.even fl); split; rewrite Et;
        rewrite <- Zle_Qle; lia.
    + split.
      * rewrite E1 in Hl2. eapply Qle_trans; [|exact Hl2]. rewrite <- Zle_Qle. lia.
      * apply Qlt_le_weak. eapply Qlt_le_trans; [exact B2|]. rewrite <- Zle_Qle. lia.
Qed.

Lemma round_half_even_mono (x y : Q) :
  (x <= y)%Q -> round_half_even x <= round_half_even y.
Proof.
  intros H. apply Z.le_ngt. intros Hc.
  destruct (round_half_even_near x) as [Lx _].
  destruct (round_half_even_near y) as [_ Uy].
  assert (E : (x == y)%Q).
  { apply Qle_antisym; [exact H|].
    apply (Qmult_le_r _ _ 2); [reflexivity|].
    eapply Qle_trans; [exact Uy|]. eapply Qle_trans; [|exact Lx].
    rewrite <- Zle_Qle. lia. }
  apply round_half_even_comp in E. lia.
Qed.

#[export] Instance laws : FloatLaws ops.
Proof.
  constructor; simpl.
  - intros x y z H1 H2. apply Qle_bool_iff. apply Qle_bool_iff in H1, H2.
    eapply Qle_trans; eassumption.
  - intros p q H. now apply Qle_bool_iff.
  - intros x y Hx Hy. apply Qle_bool_iff. apply Qle_bool_iff in Hx, Hy.
    apply (Qle_trans _ (0 + 0)%Q); [discriminate|]. now apply Qplus_le_compat.
  - intros x y Hx Hy. apply Qle_bool_iff. apply Qle_bool_iff in Hx, Hy.
    now apply Qmult_le_0_compat.
  - intros x a b Hx Hab. apply Qle_bool_iff. apply Qle_bool_iff in Hx, Hab.
    rewrite (Qmult_comm x a), (Qmult_comm x b).
    now apply Qmult_le_compat_r.
  - intros x y H. apply Qle_bool_iff. apply Qle_bool_iff in H.
    unfold q_round2, Qle. simpl. apply Z.mul_le_mono_nonneg_r; [lia|].
    apply round_half_even_mono.
    now apply Qmult_le_compat_r.
Qed.
End ExactLaws.

Section Comparison.
Import PyStr Dialogue.
Context {F : FloatOps} {L : FloatLaws F}.

Lemma assoc_city_nonneg (c : string) :
  (0 <= default 1.04 (Premium.assoc c Premium.city_factor_map))%Q.
Proof.
  unfold Premium.city_factor_map. simpl.
  repeat (case_match; [discriminate|]). discriminate.
Qed.

(** The amount before the coverage factor is applied, common to the
    three levels. *)
Definition uncovered (vehicle_age horsepower : Z) (city : string) : float :=
  let base := of_Q 25.0 in
  let age_factor :=
    fadd (of_Q 1.0) (fmul (of_Q (inject_Z (Z.max 0 (vehicle_age - 3)))) (of_Q 0.05)) in
  let power_factor :=
    fadd (of_Q 1.0) (fmul (of_Q (inject_Z (Z.max 0 (horsepower - 80)))) (of_Q 0.01)) in
  let city_factor :=
    of_Q (default 1.04%Q (Premium.assoc (lower (strip city)) Premium.city_factor_map)) in
  fmul (fmul (fmul base age_factor) power_factor) city_factor.

(** The monthly amount of a level, from its coverage factor. *)
Definition monthly (vehicle_age horsepower : Z) (city : string) (cf : Q) : float :=
  round2 (fmul (uncovered vehicle_age horsepower city) (of_Q cf)).

Lemma calculate_premium_monthly (vehicle_age horsepower : Z) (city level : string) (cf : Q) :
  Premium.assoc level Premium.coverage_factor_map = Some cf ->
  option_map Premium.monthly_eur
    (Premium.calculate_premium vehicle_age horsepower city level)
  = Some (monthly vehicle_age horsepower city cf).
Proof.
  intros H. unfold Premium.calculate_premium. cbv zeta. rewrite H. reflexivity.
Qed.

Lemma of_Q_nonneg (q : Q) : (0 <= q)%Q -> fle (of_Q 0) (of_Q q) = true.
Proof using L. apply of_Q_mono. Qed.

Lemma factor_nonneg (n : Z) (q : Q) :
  (0 <= q)%Q ->
  fle (of_Q 0) (fadd (of_Q 1.0) (fmul (of_Q (inject_Z (Z.max 0 n))) (of_Q q))) = true.
Proof using L.
  intros Hq. apply fadd_nonneg; [apply of_Q_nonneg; discriminate|].
  apply fmul_nonneg; apply of_Q_nonneg; [|exact Hq].
  change 0%Q with (inject_Z 0). rewrite <- Zle_Qle. lia.
Qed.



End Comparison.



(** ** Decimal rendering *)

Section Decimal.
Import PyStr.

Lemma length_append (a b : string) :
  String.length (a ++ b) = (String.length a + String.length b)%nat.
Proof. induction a as [|c a IH]; simpl; [reflexivity|now rewrite IH]. Qed.

Lemma length_repeat_zero (n : nat) : String.length (repeat_str "0" n) = n.
Proof. induction n as [|n IH]; simpl; [reflexivity|]. f_equal. exact IH. Qed.

Lemma pretty_go_length_le (k : nat) : forall (x : N) (s : string),
  (x < 10 ^ N.of_nat k)%N ->
  (String.length (pretty_N_go x s) <= k + String.length s)%nat.
Proof.
  induction k as [|k IH]; intros x s Hx.
  - assert (x = 0%N) by (simpl in Hx; lia). subst. rewrite pretty_N_go_0. lia.
  - destruct (N.eq_dec x 0%N) as [->|Hne]; [rewrite pretty_N_go_0; lia|].
    rewrite pretty_N_go_step by lia.
    eapply Nat.le_trans; [apply IH|simpl; lia].
    apply N.Div0.div_lt_upper_bound.
    rewrite <- N.pow_succ_r'. now rewrite <- Nat2N.inj_succ.
Qed.

Lemma pretty_go_length_ge (k : nat) : forall (x : N) (s : string),
  (10 ^ N.of_nat k <= x)%N ->
  (S k + String.length s <= String.length (pretty_N_go x s))%nat.
Proof.
  induction k as [|k IH]; intros x s Hx.
  - rewrite pretty_N_go_step by (simpl in Hx; lia).
    assert (H : forall (y : N) (t : string),
               (String.length t <= String.length (pretty_N_go y t))%nat).
    { intros y. induction (N.lt_wf_0 y) as [y _ IHy]. intros t.
      destruct (N.eq_dec y 0%N) as [->|Hy]; [rewrite pretty_N_go_0; lia|].
      rewrite pretty_N_go_step by lia.
      eapply Nat.le_trans; [|apply IHy; apply N.div_lt; lia]. simpl. lia. }
    eapply Nat.le_trans; [|apply H]. simpl. lia.
  - assert (10 ^ N.of_nat (S k) <> 0)%N by (apply N.pow_nonzero; lia).
    rewrite pretty_N_go_step by lia.
    eapply Nat.le_trans; [|apply IH].
    + simpl. lia.
    + apply N.div_le_lower_bound; [lia|].
      rewrite <- N.pow_succ_r'. now rewrite <- Nat2N.inj_succ.
Qed.

Lemma pretty_Z_length_le (k : nat) (n : Z) :
  0 <= n < 10 ^ Z.of_nat (S k) -> (String.length (pretty n) <= S k)%nat.
Proof.
  intros Hn. destruct n as [|p|p]; [simpl; lia| |lia].
  change (pretty (Z.pos p)) with (pretty_N_go (N.pos p) "").
  eapply Nat.le_trans; [apply (pretty_go_length_le (S k))|simpl; lia].
  apply N2Z.inj_lt. rewrite N2Z.inj_pow, nat_N_Z. simpl (Z.of_N 10). lia.
Qed.

Lemma pretty_Z_length_ge (k : nat) (n : Z) :
  10 ^ Z.of_nat k <= n -> (S k <= String.length (pretty n))%nat.
Proof.
  intros Hn. assert (0 < 10 ^ Z.of_nat k) by (apply Z.pow_pos_nonneg; lia).
  destruct n as [|p|p]; [lia| |lia].
  change (pretty (Z.pos p)) with (pretty_N_go (N.pos p) "").
  eapply Nat.le_trans; [|apply (pretty_go_length_ge k)]; [simpl; lia|].
  apply N2Z.inj_le. rewrite N2Z.inj_pow, nat_N_Z. simpl (Z.of_N 10). lia.
Qed.

(** A number below 10^w is rendered on exactly [w] characters, a
    larger one on more. *)
Lemma zfill_length_small (w : nat) (n : Z) :
  0 <= n < 10 ^ Z.of_nat (S w) -> String.length (zfill (S w) n) = S w.
Proof.
  intros Hn. unfold zfill. cbv zeta.
  destruct (n <? 0) eqn:E; [apply Z.ltb_lt in E; lia|].
  rewrite Z.abs_eq by lia.
  pose proof (pretty_Z_length_le w n Hn).
  rewrite length_append, length_repeat_zero. lia.
Qed.

Lemma zfill_length_large (w : nat) (n : Z) :
  10 ^ Z.of_nat w <= n -> (w < String.length (zfill w n))%nat.
Proof.
  intros Hn. assert (0 < 10 ^ Z.of_nat w) by (apply Z.pow_pos_nonneg; lia).
  unfold zfill. cbv zeta.
  destruct (n <? 0) eqn:E; [apply Z.ltb_lt in E; lia|].
  rewrite Z.abs_eq by lia.
  pose proof (pretty_Z_length_ge w n Hn).
  rewrite length_append, length_repeat_zero. lia.
Qed.
End Decimal.

(** ** Claim numbers *)

Section ClaimNumber.
Import PyStr Dialogue.
Context {F : FloatOps}.
Variables (CURRENT_YEAR : Z) (rag : RAGIndex).

Local Abbreviation claim_turn := (claim_turn CURRENT_YEAR).
Local Abbreviation claim_slots := (claim_slots CURRENT_YEAR).
Local Abbreviation pre_state := (pre_state CURRENT_YEAR).

(** The sequence number last issued in month [m] of the session. *)
Definition counter (s : slots_t) (m : string) : Z := default 0 (claim_counters s !! m).

(** A turn that completes a claim: it is dispatched to the claim
    intake and no required field is missing once the utterance is read. *)
Definition completes (now : Clock.datetime) (user_text : string) (st : SessionState)
  : Prop :=
  claim_turn user_text st /\ _claim_missing_slots (claim_slots now user_text st) = [].

Lemma claim_slots_counters (now : Clock.datetime) (user_text : string) (st : SessionState) :
  claim_slots now user_text st !! "claim_counters" = slots st !! "claim_counters".
Proof.
  unfold claim_slots.
  rewrite claim_apply_frame by reflexivity.
  rewrite claim_update_frame by reflexivity.
  rewrite lookup_insert_ne by discriminate.
  now apply pre_state_slot.
Qed.

Lemma claim_counters_agree (s s' : slots_t) :
  s' !! "claim_counters" = s !! "claim_counters" -> claim_counters s' = claim_counters s.
Proof. unfold claim_counters. now intros ->. Qed.

(** What one turn does to the counters: nothing, unless it completes
    a claim; then this month's counter goes up by one and the claim
    number is made of the month and the new counter. *)
Lemma turn_counters (now : Clock.datetime) (user_text : string) (st st' : SessionState)
  (r : TurnResult) :
  dialogue_manager CURRENT_YEAR now rag user_text st = Return r st' ->
  (~ completes now user_text st
   /\ slots st' !! "claim_counters" = slots st !! "claim_counters")
  \/ (completes now user_text st
      /\ claim_counters (slots st')
         = <[Clock.yyyymm now := counter (slots st) (Clock.yyyymm now) + 1]>
             (claim_counters (slots st))
      /\ slots st' !! "claim_number"
         = Some (VStr (Clock.yyyymm now
                       ++ zfill 5 (counter (slots st) (Clock.yyyymm now) + 1)))).
Proof.
  intros H.
  destruct (_contains_any (norm user_text) EXIT_WORDS) eqn:He.
  { left. split; [intros [[Hc _] _]; congruence|].
    rewrite dialogue_manager_exit in H by exact He. injection H as _ <-.
    unfold exit_state. cbn [slots].
    rewrite lookup_delete_ne by discriminate.
    now rewrite lookup_insert_ne by discriminate. }
  destruct (dm_routes CURRENT_YEAR rag now user_text st st' r He H)
    as [[Ht Hc] | (Hn & Hfr & _)].
  - revert Hc. unfold claim_intake. cbv zeta.
    fold (claim_slots now user_text st).
    destruct (_claim_missing_slots (claim_slots now user_text st)) as [|k rest] eqn:Em.
    + right. split; [split; assumption|].
      revert Hc. unfold _generate_claim_number. cbv zeta.
      cbn [slots with_slots last_intent turns].
      intros [= _ <-]. cbn [slots with_slots last_intent turns].
      assert (Ec : claim_counters (claim_slots now user_text st) = claim_counters (slots st))
        by apply claim_counters_agree, claim_slots_counters.
      rewrite Ec. fold (counter (slots st) (Clock.yyyymm now)). split.
      * unfold claim_counters at 1.
        rewrite lookup_delete_ne by discriminate.
        rewrite lookup_insert_ne by discriminate.
        rewrite lookup_insert_ne by discriminate.
        now rewrite lookup_insert_eq.
      * rewrite lookup_delete_ne by discriminate.
        rewrite lookup_insert_ne by discriminate.
        now rewrite lookup_insert_eq.
    + left. split; [intros [_ Hm]; congruence|].
      injection Hc as _ <-. cbn [slots with_slots].
      rewrite lookup_insert_ne by discriminate. apply claim_slots_counters.
  - left. split; [intros [Ht _]; now apply Hn|].
    rewrite Hfr by reflexivity. now apply pre_state_slot.
Qed.

(** A session going on: [steps st st'] when some turns lead from [st]
    to [st']. *)
Inductive steps : SessionState -> SessionState -> Prop :=
| steps_refl (st : SessionState) : steps st st
| steps_turn (now : Clock.datetime) (user_text : string) (st st' st'' : SessionState)
    (r : TurnResult) :
    dialogue_manager CURRENT_YEAR now rag user_text st = Return r st' ->
    steps st' st'' -> steps st st''.

Lemma counter_insert (c : gmap string Z) (m m' : string) (n : Z) :
  default 0 (<[m := n]> c !! m') = if decide (m = m') then n else default 0 (c !! m').
Proof. rewrite lookup_insert. now case_decide. Qed.

Lemma turn_counter_mono (now : Clock.datetime) (user_text : string)
  (st st' : SessionState) (r : TurnResult) (m : string) :
  dialogue_manager CURRENT_YEAR now rag user_text st = Return r st' ->
  counter (slots st) m <= counter (slots st') m.
Proof.
  intros H. destruct (turn_counters _ _ _ _ _ H) as [[_ E] | (_ & E & _)].
  - unfold counter. rewrite (claim_counters_agree _ _ E). lia.
  - unfold counter at 2. rewrite E, counter_insert.
    case_decide; [subst m|]; unfold counter; lia.
Qed.

Lemma steps_counter_mono (st st' : SessionState) (m : string) :
  steps st st' -> counter (slots st) m <= counter (slots st') m.
Proof.
  induction 1 as [st|now user_text st st' st'' r H _ IH]; [lia|].
  pose proof (turn_counter_mono _ _ _ _ _ m H). lia.
Qed.
End ClaimNumber.

(** C3 (as the code has it). The claim number generated when a claim is
    completed is the string YYYYMM of the completion month followed by
    the sequence number zero-padded to at least five digits: exactly five
    digits while the sequence number is at most 99999, and more beyond.
    The monthly counter kept in the session slots starts at 1 and goes up
    by exactly 1 with each completed claim, no other turn changes it, and
    so of two claims completed in the same calendar month within one
    session the later has the strictly greater sequence number. *)
Theorem claim_numbers_increase {F : FloatOps} (CURRENT_YEAR : Z) (rag : Dialogue.RAGIndex) :
  (* the number generated *)
  (forall (now : Clock.datetime) (st : Dialogue.SessionState),
     let m := Clock.yyyymm now in
     let n := counter (Dialogue.slots st) m + 1 in
     fst (Dialogue._generate_claim_number now st) = m ++ PyStr.zfill 5 n
     /\ counter (Dialogue.slots (snd (Dialogue._generate_claim_number now st))) m = n
     /\ (Dialogue.slots st !! "claim_counters" = None -> n = 1)
     /\ (0 <= n < 100000 -> String.length (PyStr.zfill 5 n) = 5%nat)
     /\ (100000 <= n -> (5 < String.length (PyStr.zfill 5 n))%nat))
  (* one turn *)
  /\ (forall (now : Clock.datetime) (user_text : string) (st st' : Dialogue.SessionState)
        (r : Dialogue.TurnResult),
        Dialogue.dialogue_manager CURRENT_YEAR now rag user_text st = Dialogue.Return r st' ->
        let m := Clock.yyyymm now in
        (~ completes CURRENT_YEAR now user_text st
         /\ Dialogue.slots st' !! "claim_counters" = Dialogue.slots st !! "claim_counters")
        \/ (completes CURRENT_YEAR now user_text st
            /\ counter (Dialogue.slots st') m = counter (Dialogue.slots st) m + 1
            /\ Dialogue.slots st' !! "claim_number"
               = Some (VStr (m ++ PyStr.zfill 5 (counter (Dialogue.slots st') m)))))
  (* two claims of one session in the same month *)
  /\ (forall (now1 now2 : Clock.datetime) (text1 text2 : string)
        (st1 st1' st2 st2' : Dialogue.SessionState) (r1 r2 : Dialogue.TurnResult),
        Dialogue.dialogue_manager CURRENT_YEAR now1 rag text1 st1 = Dialogue.Return r1 st1' ->
        completes CURRENT_YEAR now1 text1 st1 ->
        steps CURRENT_YEAR rag st1' st2 ->
        Dialogue.dialogue_manager CURRENT_YEAR now2 rag text2 st2 = Dialogue.Return r2 st2' ->
        completes CURRENT_YEAR now2 text2 st2 ->
        Clock.yyyymm now1 = Clock.yyyymm now2 ->
        counter (Dialogue.slots st1') (Clock.yyyymm now1)
        < counter (Dialogue.slots st2') (Clock.yyyymm now2)).
Proof.
  split; [|split].
  - intros now st m n. unfold Dialogue._generate_claim_number. cbv zeta.
    cbn [fst snd Dialogue.slots]. fold m. repeat apply conj.
    + reflexivity.
    + unfold counter at 1. unfold Dialogue.claim_counters at 1.
      rewrite lookup_insert_eq. rewrite lookup_insert_eq. reflexivity.
    + intros Hn. subst n. unfold counter, Dialogue.claim_counters. rewrite Hn.
      rewrite lookup_empty. reflexivity.
    + intros Hn. apply (zfill_length_small 4 n). simpl. lia.
    + intros Hn. apply (zfill_length_large 5 n). simpl. lia.
  - intros now user_text st st' r H m.
    destruct (turn_counters CURRENT_YEAR rag now user_text st st' r H)
      as [Hl | (Hc & E & Hn)]; [left; exact Hl|right].
    assert (Ec : counter (Dialogue.slots st') m = counter (Dialogue.slots st) m + 1).
    { unfold counter at 1. rewrite E. fold m. now rewrite lookup_insert_eq. }
    split; [exact Hc|]. split; [exact Ec|]. rewrite Ec. exact Hn.
  - intros now1 now2 text1 text2 st1 st1' st2 st2' r1 r2 H1 _ Hs H2 Hc2 Em.
    rewrite Em.
    pose proof (steps_counter_mono CURRENT_YEAR rag st1' st2 (Clock.yyyymm now2) Hs) as Hle.
    destruct (turn_counters CURRENT_YEAR rag now2 text2 st2 st2' r2 H2)
      as [[Hn _] | (_ & E & _)]; [contradiction|].
    unfold counter at 2. rewrite E, lookup_insert_eq. simpl. lia.
Qed.

(** *** A session that keeps reporting accidents *)

(** The session after a first claim has been completed. *)
Definition demo_claimed_state : Dialogue.SessionState :=
  Eval vm_compute in
    default Dialogue.new_session
      (Demo.after ["I was in an accident in Maribor today"; "one two three four five six";
                   "no"; "it was a crash with a truck"; "no"; "yes"; "nope"]
         Dialogue.new_session).

Section Repeated.
Import PyStr Dialogue.

Local Abbreviation reachable := (reachable (F := ExactFloat.ops) Demo.year Demo.rag).
Local Abbreviation completes := (completes Demo.year Demo.now).

(** A session between two claims: every claim field is filled, no
    question is pending and the last intent is report_claim. *)
Definition between_claims (st : SessionState) : Prop :=
  last_intent st = Some "report_claim"
  /\ slots st !! "force_intent" = None
  /\ slots st !! "in_claim_intake" = Some (VBool false)
  /\ slots st !! "claim_expected" = None
  /\ forall f, In f claim_needed -> is_Some (slots st !! f).

Lemma missing_none (s : slots_t) :
  (forall f, In f claim_needed -> is_Some (s !! f)) -> _claim_missing_slots s = [].
Proof.
  intros H. unfold _claim_missing_slots.
  assert (G : forall l, (forall f, In f l -> is_Some (s !! f)) ->
                        List.filter (fun k => negb (has s k)) l = []).
  { induction l as [|x l IH]; intros Hl; [reflexivity|]. simpl.
    assert (Hx : has s x = true) by (apply has_true, Hl; now left).
    rewrite Hx. simpl. apply IH. intros f Hf. apply Hl. now right. }
  now apply G.
Qed.

Lemma accident_resolved (s : slots_t) :
  s !! "force_intent" = None ->
  s !! "in_claim_intake" = Some (VBool false) ->
  resolve_intent "accident" "accident" (Some "report_claim") s
  = (Nlu.mkIntentResult "report_claim" 0.8, <["qa_turns" := VInt 0]> (delete "force_intent" s)).
Proof.
  intros H1 H2. unfold resolve_intent. cbv zeta.
  rewrite H1. rewrite lookup_delete_ne by discriminate. rewrite H2. reflexivity.
Qed.

Lemma accident_update (s : slots_t) :
  _claim_update_from_text Demo.now "accident" s = s.
Proof. reflexivity. Qed.

(** The state a completed claim leaves. *)
Definition completed_slots (now : Clock.datetime) (s : slots_t) : slots_t :=
  let m := Clock.yyyymm now in
  let n := counter s m + 1 in
  delete "claim_expected"
    (<["in_claim_intake" := VBool false]>
       (<["claim_number" := VStr (m ++ zfill 5 n)]>
          (<["claim_counters" := VCounters (<[m := n]> (claim_counters s))]> s))).

Lemma claim_intake_complete (now : Clock.datetime) (user_text : string)
  (st0 : SessionState) :
  _claim_missing_slots
    (_claim_apply_expected_answer now user_text
       (_claim_update_from_text now user_text
          (<["in_claim_intake" := VBool true]> (slots st0)))) = [] ->
  exists r : TurnResult,
    claim_intake now user_text st0
    = Return r
        (mkSessionState
           (completed_slots now
              (_claim_apply_expected_answer now user_text
                 (_claim_update_from_text now user_text
                    (<["in_claim_intake" := VBool true]> (slots st0)))))
           (last_intent st0) (turns st0)).
Proof.
  intros H. unfold claim_intake. cbv zeta. rewrite H.
  unfold _generate_claim_number. cbv zeta. eexists. reflexivity.
Qed.

Lemma accident_turn (st : SessionState) :
  between_claims st ->
  exists (r : TurnResult) (st' : SessionState),
    Demo.turn "accident" st = Return r st'
    /\ completes "accident" st
    /\ between_claims st'.
Proof.
  intros (Hl & Hf & Hi & He & Hall).
  assert (Hpre : pre_resolved Demo.year "accident" st
                 = (Nlu.mkIntentResult "report_claim" 0.8,
                    <["qa_turns" := VInt 0]>
                      (delete "force_intent"
                         (merge_entities Demo.year "accident" "accident"
                            (Some "report_claim") (slots st))))).
  { unfold pre_resolved. change (norm "accident") with "accident". rewrite Hl.
    apply accident_resolved; rewrite merge_entities_frame by reflexivity; assumption. }
  assert (Ht : claim_turn Demo.year "accident" st).
  { split; [reflexivity|]. split; [|reflexivity].
    unfold pre_intent. now rewrite Hpre. }
  assert (Hs : forall k, mem k entity_keys = false -> k <> "force_intent" ->
                         k <> "qa_turns" -> k <> "in_claim_intake" ->
                 claim_slots Demo.year Demo.now "accident" st !! k = slots st !! k).
  { intros k Hk1 Hk2 Hk3 Hk4. unfold claim_slots, pre_state. cbn [slots].
    rewrite Hpre. cbn [snd]. rewrite accident_update.
    unfold _claim_apply_expected_answer.
    rewrite lookup_insert_ne by discriminate.
    rewrite lookup_insert_ne by discriminate.
    rewrite lookup_delete_ne by discriminate.
    rewrite merge_entities_frame by reflexivity. rewrite He.
    rewrite lookup_insert_ne by congruence.
    rewrite lookup_insert_ne by congruence.
    rewrite lookup_delete_ne by congruence.
    now apply merge_entities_frame. }
  assert (Hfi : claim_slots Demo.year Demo.now "accident" st !! "force_intent" = None).
  { unfold claim_slots, pre_state. cbn [slots].
    rewrite Hpre. cbn [snd]. rewrite accident_update.
    unfold _claim_apply_expected_answer.
    rewrite lookup_insert_ne by discriminate.
    rewrite lookup_insert_ne by discriminate.
    rewrite lookup_delete_ne by discriminate.
    rewrite merge_entities_frame by reflexivity. rewrite He.
    rewrite lookup_insert_ne by discriminate.
    rewrite lookup_insert_ne by discriminate.
    apply lookup_delete_eq. }
  assert (Hm : _claim_missing_slots (claim_slots Demo.year Demo.now "accident" st) = []).
  { apply missing_none. intros f Hfn.
    destruct (needed_keys f Hfn) as (K1 & K2 & K3 & K4).
    rewrite Hs; [now apply Hall|exact K1| | |exact K4].
    - intros ->. discriminate K2.
    - intros ->. discriminate K2. }
  destruct (claim_intake_complete Demo.now "accident"
              (pre_state Demo.year "accident" st) Hm) as [r Hc].
  fold (claim_slots Demo.year Demo.now "accident" st) in Hc.
  exists r. eexists. split; [|split; [split; assumption|]].
  { unfold Demo.turn.
    rewrite (dm_claim_turn Demo.year Demo.rag Demo.now "accident" st Ht). exact Hc. }
  unfold between_claims, completed_slots. cbv zeta. cbn [slots last_intent pre_state].
  repeat apply conj.
  - unfold pre_intent. now rewrite Hpre.
  - rewrite lookup_delete_ne by discriminate.
    rewrite !lookup_insert_ne by discriminate.
    exact Hfi.
  - rewrite lookup_delete_ne by discriminate. apply lookup_insert_eq.
  - apply lookup_delete_eq.
  - intros f Hfn. destruct (needed_keys f Hfn) as (K1 & K2 & K3 & K4).
    rewrite lookup_delete_ne by congruence.
    rewrite lookup_insert_ne by congruence.
    apply insert_keeps, insert_keeps.
    rewrite Hs; [now apply Hall|exact K1| | |exact K4].
    + intros ->. discriminate K2.
    + intros ->. discriminate K2.
Qed.

Lemma after_reachable (texts : list string) : forall st st' : SessionState,
  reachable st -> Demo.after texts st = Some st' -> reachable st'.
Proof.
  induction texts as [|txt texts IH]; intros st st' Hr H; simpl in H.
  - now injection H as <-.
  - destruct (Demo.turn txt st) as [r st1|] eqn:E; [|discriminate].
    apply (IH st1 st'); [|exact H].
    exact (reach_turn Demo.year Demo.rag Demo.now txt st st1 r Hr E).
Qed.

Lemma demo_claimed_state_reachable : reachable demo_claimed_state.
Proof.
  apply (after_reachable
           ["I was in an accident in Maribor today"; "one two three four five six";
            "no"; "it was a crash with a truck"; "no"; "yes"; "nope"]
           new_session); [apply reach_new|].
  vm_compute. reflexivity.
Qed.

Lemma demo_claimed_state_between : between_claims demo_claimed_state.
Proof.
  repeat apply conj; try (vm_compute; reflexivity).
  intros f Hf. unfold claim_needed in Hf. simpl in Hf.
  repeat (destruct Hf as [<- | Hf]; [vm_compute; eauto|]). destruct Hf.
Qed.

(** After the first claim, each further "accident" completes one more:
    every sequence number is reached. *)
Lemma reach_counter (k : nat) :
  exists st : SessionState,
    reachable st /\ between_claims st
    /\ counter (slots st) (Clock.yyyymm Demo.now) = Z.of_nat (S k).
Proof.
  induction k as [|k (st & Hr & Hb & Hc)].
  - exists demo_claimed_state. split; [exact demo_claimed_state_reachable|].
    split; [exact demo_claimed_state_between|]. vm_compute. reflexivity.
  - destruct (accident_turn st Hb) as (r & st' & Ht & Hcomp & Hb').
    exists st'. split; [exact (reach_turn _ _ _ _ _ _ _ Hr Ht)|]. split; [exact Hb'|].
    destruct (turn_counters Demo.year Demo.rag Demo.now "accident" st st' r Ht)
      as [[Hn _] | (_ & E & _)]; [contradiction|].
    unfold counter at 1. rewrite E, lookup_insert_eq. simpl default. lia.
Qed.
End Repeated.

Lemma claim_numbers_increase_witness :
  counter (Dialogue.slots demo_claimed_state) "202611" = 1
  /\ Dialogue.slots demo_claimed_state !! "claim_number" = Some (VStr "20261100001").
Proof.
  pose proof (proj1 (proj2 (claim_numbers_increase (F := ExactFloat.ops) Demo.year Demo.rag))
                Demo.now "nope"
                (default Dialogue.new_session
                   (Demo.after ["I was in an accident in Maribor today";
                                "one two three four five six"; "no";
                                "it was a crash with a truck"; "no"; "yes"]
                      Dialogue.new_session))
                demo_claimed_state
                (Dialogue.mkTurnResult
                   (Dialogue.response_text
                      match Demo.turn "nope"
                              (default Dialogue.new_session
                                 (Demo.after ["I was in an accident in Maribor today";
                                              "one two three four five six"; "no";
                                              "it was a crash with a truck"; "no"; "yes"]
                                    Dialogue.new_session)) with
                      | Dialogue.Return r _ => r
                      | Dialogue.Raise => Dialogue.mkTurnResult "" false
                      end) false)) as H.
  cbv zeta in H.
  destruct H as [[Hn _] | (_ & Hc & Hn)].
  - vm_compute. reflexivity.
  - exfalso. apply Hn. repeat split; vm_compute; reflexivity.
  - split; [vm_compute; reflexivity|]. rewrite Hn. vm_compute. reflexivity.
Defined.

(** C3, the claim as stated, fails: in the session that completes a
    first claim and then hears "accident" again and again, each time
    completing one more claim, the claim that follows the 99999th has the
    sequence number 100000, of six digits. *)
Lemma claim_number_six_digits_counterexample :
  exists (st : Dialogue.SessionState) (r : Dialogue.TurnResult) (st' : Dialogue.SessionState),
    reachable (F := ExactFloat.ops) Demo.year Demo.rag st
    /\ Demo.turn "accident" st = Dialogue.Return r st'
    /\ completes Demo.year Demo.now "accident" st
    /\ Dialogue.slots st' !! "claim_number" = Some (VStr ("202611" ++ "100000")).
Proof.
  destruct (reach_counter (Z.to_nat 99998)) as (st & Hr & Hb & Hc).
  destruct (accident_turn st Hb) as (r & st' & Ht & Hcomp & _).
  exists st, r, st'. split; [exact Hr|]. split; [exact Ht|]. split; [exact Hcomp|].
  destruct (turn_counters Demo.year Demo.rag Demo.now "accident" st st' r Ht)
    as [[Hn _] | (_ & _ & E)]; [contradiction|].
  rewrite E, Hc. replace (Z.of_nat (S (Z.to_nat 99998)) + 1) with 100000 by lia.
  vm_compute. reflexivity.
Qed.

(* ===================================================================== *)
(** * Further properties of the dialogue manager *)
(* ===================================================================== *)

(** ** The dispatch of a turn *)

Section Dispatching.
Import PyStr Re Dialogue.
Context {F : FloatOps}.
Variables (CURRENT_YEAR : Z) (rag : RAGIndex).

Local Abbreviation pre_intent := (pre_intent CURRENT_YEAR).
Local Abbreviation pre_state := (pre_state CURRENT_YEAR).

(** The dispatch of a turn by the resolved intent alone. *)
Definition dispatch (now : Clock.datetime) (user_text : string) (state : SessionState)
  : outcome :=
  let t := norm user_text in
  let intent := pre_intent user_text state in
  let st := pre_state user_text state in
  if String.eqb intent "handoff_human" || _contains_any t handoff_phrases
  then Return transfer st
  else if String.eqb intent "report_claim" then claim_intake now user_text st
  else if String.eqb intent "premium_estimate" then premium_quote t st
  else if String.eqb intent "compare_coverage" then compare_coverage st
  else doc_qa rag user_text t st.

Lemma dialogue_manager_dispatch (now : Clock.datetime) (user_text : string)
  (state : SessionState) :
  _contains_any (norm user_text) EXIT_WORDS = false ->
  dialogue_manager CURRENT_YEAR now rag user_text state = dispatch now user_text state.
Proof.
  intros He. rewrite dialogue_manager_no_exit by exact He. unfold dispatch. cbv zeta.
  destruct (String.eqb (pre_intent user_text state) "handoff_human"
            || _contains_any (norm user_text) handoff_phrases); [reflexivity|].
  destruct (String.eqb (pre_intent user_text state) "report_claim"); [reflexivity|].
  destruct (String.eqb (pre_intent user_text state) "premium_estimate") eqn:Ep;
    [reflexivity|].
  apply String.eqb_neq in Ep.
  rewrite (bool_decide_eq_false_2 (Some (pre_intent user_text state) = Some "premium_estimate"))
    by congruence.
  cbn [andb orb].
  destruct (String.eqb (pre_intent user_text state) "compare_coverage") eqn:Ec.
  - apply String.eqb_eq in Ec. rewrite Ec. rewrite andb_false_r. reflexivity.
  - apply String.eqb_neq in Ec.
    rewrite (bool_decide_eq_false_2 (Some (pre_intent user_text state) = Some "compare_coverage"))
      by congruence.
    reflexivity.
Qed.

Lemma claim_intake_bookkeeping (now : Clock.datetime) (user_text : string)
  (st st' : SessionState) (r : TurnResult) :
  claim_intake now user_text st = Return r st' ->
  last_intent st' = last_intent st /\ turns st' = turns st.
Proof.
  unfold claim_intake. cbv zeta.
  destruct (_claim_missing_slots _) as [|next_key rest].
  - unfold _generate_claim_number. cbv zeta. intros [= _ <-]. split; reflexivity.
  - intros [= _ <-]. split; reflexivity.
Qed.

Lemma doc_qa_result (user_text t : string) (st st' : SessionState) (r : TurnResult) :
  doc_qa rag user_text t st = Return r st' ->
  end_call r = false /\ last_intent st' = last_intent st /\ turns st' = turns st.
Proof.
  unfold doc_qa. cbv zeta. destruct (rag _ _) as [docs|]; [|discriminate].
  destruct (_qa_answer_or_followup _ _ _) as [[answer s]|]; [|discriminate].
  intros [= <- <-]. repeat split.
Qed.

(** What a returning turn that passed the exit check leaves of the
    bookkeeping: the resolved intent and one more turn; and the call
    ends on a hand-off only. *)
Lemma dispatch_result (now : Clock.datetime) (user_text : string)
  (st st' : SessionState) (r : TurnResult) :
  dispatch now user_text st = Return r st' ->
  last_intent st' = Some (pre_intent user_text st)
  /\ turns st' = turns st + 1
  /\ end_call r
     = (String.eqb (pre_intent user_text st) "handoff_human"
        || _contains_any (norm user_text) handoff_phrases).
Proof.
  unfold dispatch. cbv zeta.
  destruct (String.eqb (pre_intent user_text st) "handoff_human"
            || _contains_any (norm user_text) handoff_phrases).
  { intros [= <- <-]. repeat split. }
  destruct (String.eqb (pre_intent user_text st) "report_claim").
  { intros H. pose proof (claim_intake_result _ _ _ _ _ H) as He.
    apply claim_intake_bookkeeping in H as [-> ->]. repeat split. exact He. }
  destruct (String.eqb (pre_intent user_text st) "premium_estimate").
  { intros H. apply premium_quote_result in H as (He & -> & ->). repeat split. exact He. }
  destruct (String.eqb (pre_intent user_text st) "compare_coverage").
  { intros H. apply compare_coverage_state in H as [-> He]. repeat split. exact He. }
  intros H. apply doc_qa_result in H as (He & -> & ->). repeat split. exact He.
Qed.

End Dispatching.

(** X1. A turn is dispatched by its resolved intent alone: after the
    exit check come the hand-off, the claim intake on report_claim, the
    quote on premium_estimate, the comparison on compare_coverage, and
    the document Q&A for anything else. The two follow-up replies
    written between the quote and the comparison are never given,
    because last_intent already holds the intent of the current turn
    when they test it. *)
Theorem followup_replies_unreachable {F : FloatOps} (CURRENT_YEAR : Z)
  (now : Clock.datetime) (rag : Dialogue.RAGIndex) (user_text : string)
  (state : Dialogue.SessionState) :
  Dialogue.dialogue_manager CURRENT_YEAR now rag user_text state
  = let t := PyStr.strip (PyStr.lower user_text) in
    if Dialogue._contains_any t Dialogue.EXIT_WORDS
    then Dialogue.Return
           (Dialogue.mkTurnResult "Okay — ending the call. Goodbye!" true)
           (exit_state state)
    else
      let intent := pre_intent CURRENT_YEAR user_text state in
      let st := pre_state CURRENT_YEAR user_text state in
      if String.eqb intent "handoff_human"
         || Dialogue._contains_any t ["human"; "human agent"; "call me back"; "call back"]
      then Dialogue.Return
             (Dialogue.mkTurnResult
                "Okay — I’m transferring you to a human agent now. (Prototype: transfer simulated.)"
                true)
             st
      else if String.eqb intent "report_claim" then Dialogue.claim_intake now user_text st
      else if String.eqb intent "premium_estimate" then Dialogue.premium_quote t st
      else if String.eqb intent "compare_coverage" then Dialogue.compare_coverage st
      else Dialogue.doc_qa rag user_text t st.
Proof.
  cbv zeta.
  destruct (Dialogue._contains_any (PyStr.strip (PyStr.lower user_text)) Dialogue.EXIT_WORDS)
    eqn:He.
  - now apply dialogue_manager_exit.
  - now apply dialogue_manager_dispatch.
Qed.

(** X2. Every turn that returns counts once: the turn counter grows by
    exactly one, on the exit route as on every sub-flow. An exit turn
    leaves last_intent as it was; any other turn stores the intent it
    resolved. *)
Theorem turn_bookkeeping {F : FloatOps} (CURRENT_YEAR : Z) (now : Clock.datetime)
  (rag : Dialogue.RAGIndex) (user_text : string) (st st' : Dialogue.SessionState)
  (r : Dialogue.TurnResult) :
  Dialogue.dialogue_manager CURRENT_YEAR now rag user_text st = Dialogue.Return r st' ->
  Dialogue.turns st' = Dialogue.turns st + 1
  /\ Dialogue.last_intent st'
     = if Dialogue._contains_any (PyStr.strip (PyStr.lower user_text)) Dialogue.EXIT_WORDS
       then Dialogue.last_intent st
       else Some (pre_intent CURRENT_YEAR user_text st).
Proof.
  intros H.
  destruct (Dialogue._contains_any (PyStr.strip (PyStr.lower user_text)) Dialogue.EXIT_WORDS)
    eqn:He.
  - rewrite dialogue_manager_exit in H by exact He. injection H as _ <-. split; reflexivity.
  - rewrite dialogue_manager_dispatch in H by exact He.
    apply dispatch_result in H as (Hl & Ht & _). split; assumption.
Qed.

Lemma turn_bookkeeping_witness :
  exists (r : Dialogue.TurnResult) (st' : Dialogue.SessionState),
    Demo.turn "I had an accident" Dialogue.new_session = Dialogue.Return r st'
    /\ Dialogue.turns st' = 1
    /\ Dialogue.last_intent st' = Some "report_claim".
Proof.
  destruct (Demo.turn "I had an accident" Dialogue.new_session) as [r st'|] eqn:E;
    [|vm_compute in E; discriminate E].
  exists r, st'. split; [reflexivity|].
  destruct (turn_bookkeeping (F := ExactFloat.ops) Demo.year Demo.now Demo.rag
              "I had an accident" Dialogue.new_session st' r E) as [Ht Hl].
  split; [exact Ht|]. rewrite Hl. vm_compute. reflexivity.
Defined.

(** X3. A call ends on the exit check and on the hand-off only: the
    result of a turn has end_call set exactly when the normalized
    utterance contains an exit word, or the resolved intent is
    handoff_human, or the utterance contains a hand-off phrase. Claim
    intake, quote, comparison and Q&A never end the call. *)
Theorem call_ends_on_exit_or_handoff {F : FloatOps} (CURRENT_YEAR : Z)
  (now : Clock.datetime) (rag : Dialogue.RAGIndex) (user_text : string)
  (st st' : Dialogue.SessionState) (r : Dialogue.TurnResult) :
  Dialogue.dialogue_manager CURRENT_YEAR now rag user_text st = Dialogue.Return r st' ->
  let t := PyStr.strip (PyStr.lower user_text) in
  Dialogue.end_call r
  = (Dialogue._contains_any t Dialogue.EXIT_WORDS
     || String.eqb (pre_intent CURRENT_YEAR user_text st) "handoff_human"
     || Dialogue._contains_any t ["human"; "human agent"; "call me back"; "call back"]).
Proof.
  intros H t. subst t.
  destruct (Dialogue._contains_any (PyStr.strip (PyStr.lower user_text)) Dialogue.EXIT_WORDS)
    eqn:He.
  - rewrite dialogue_manager_exit in H by exact He. injection H as <- _. reflexivity.
  - rewrite dialogue_manager_dispatch in H by exact He.
    apply dispatch_result in H as (_ & _ & Hr). exact Hr.
Qed.

Lemma call_ends_on_exit_or_handoff_witness :
  exists (r : Dialogue.TurnResult) (st' : Dialogue.SessionState),
    Demo.turn "please call me back" Dialogue.new_session = Dialogue.Return r st'
    /\ Dialogue.end_call r = true.
Proof.
  destruct (Demo.turn "please call me back" Dialogue.new_session) as [r st'|] eqn:E;
    [|vm_compute in E; discriminate E].
  exists r, st'. split; [reflexivity|].
  rewrite (call_ends_on_exit_or_handoff (F := ExactFloat.ops) Demo.year Demo.now Demo.rag
             "please call me back" Dialogue.new_session st' r E).
  vm_compute. reflexivity.
Defined.

(** ** Invariants of a session *)

Section SessionInvariants.
Import PyStr Re Dialogue.
Context {F : FloatOps}.
Variables (CURRENT_YEAR : Z) (rag : RAGIndex).

Local Abbreviation pre_intent := (pre_intent CURRENT_YEAR).
Local Abbreviation pre_state := (pre_state CURRENT_YEAR).
Local Abbreviation claim_turn := (claim_turn CURRENT_YEAR).
Local Abbreviation reachable := (reachable CURRENT_YEAR rag).
Local Abbreviation dispatch := (dispatch CURRENT_YEAR rag).

(** *** The intents a turn resolves to *)

Definition produced_intents : list string :=
  ["doc_qa"; "report_claim"; "premium_estimate"; "handoff_human"; "compare_coverage"].

(** The forced intent, when there is one, is the quote. *)
Definition force_ok (s : slots_t) : Prop :=
  forall v : value, s !! "force_intent" = Some v -> v = VStr "premium_estimate".

Lemma detect_intent_names (user_text : string) (li : option string) :
  In (Nlu.intent (Nlu.detect_intent user_text li)) produced_intents.
Proof.
  unfold Nlu.detect_intent. cbv zeta.
  repeat case_match; cbn [Nlu.intent produced_intents In]; auto 10.
Qed.

Lemma resolve_intent_names (user_text t : string) (li : option string) (s : slots_t) :
  force_ok s ->
  In (Nlu.intent (fst (resolve_intent user_text t li s))) produced_intents.
Proof.
  intros Hf. unfold resolve_intent. cbv zeta.
  set (ir0 := if truthy_opt (s !! "force_intent")
              then Nlu.mkIntentResult (py_str (default (VStr "") (s !! "force_intent"))) 0.99
              else Nlu.detect_intent user_text li).
  assert (H0 : In (Nlu.intent ir0) produced_intents).
  { subst ir0. destruct (s !! "force_intent") as [v|] eqn:E.
    - rewrite (Hf v E). cbn. auto 10.
    - cbn [truthy_opt]. apply detect_intent_names. }
  destruct ir0 as [i0 c0]. cbn [Nlu.intent] in H0.
  unfold produced_intents in *. cbn [In] in H0.
  destruct (truthy_opt (delete "force_intent" s !! "in_claim_intake")),
    (_contains_any t CANCEL_WORDS), (any_in shopping_signals t), (mem t affirmations),
    (bool_decide (li = Some "premium_estimate")), (_looks_like_claim_info_only t);
    destruct H0 as [<- | [<- | [<- | [<- | [<- | []]]]]];
    cbn [fst snd Nlu.intent Nlu.confidence String.eqb Ascii.eqb Bool.eqb andb orb negb In];
    repeat (case_match;
            cbn [fst snd Nlu.intent Nlu.confidence String.eqb Ascii.eqb Bool.eqb
                 andb orb negb In]);
    auto 10.
Qed.

Lemma turn_force_ok (now : Clock.datetime) (user_text : string) (st st' : SessionState)
  (r : TurnResult) :
  force_ok (slots st) ->
  dialogue_manager CURRENT_YEAR now rag user_text st = Return r st' ->
  force_ok (slots st').
Proof.
  intros Hs H. destruct (turn_force_intent CURRENT_YEAR rag now user_text st st' r H)
    as [Hx Hn].
  destruct (_contains_any (norm user_text) EXIT_WORDS) eqn:He.
  - intros v Hv. rewrite Hx in Hv by reflexivity. now apply Hs.
  - destruct (Hn eq_refl) as [_ Hv]. intros v E. now destruct (Hv v E).
Qed.

Lemma reachable_force_ok (st : SessionState) : reachable st -> force_ok (slots st).
Proof.
  induction 1 as [|now user_text st st' r _ IH H].
  - intros v Hv. discriminate Hv.
  - eapply turn_force_ok; eassumption.
Qed.

Lemma pre_intent_names (user_text : string) (st : SessionState) :
  force_ok (slots st) -> In (pre_intent user_text st) produced_intents.
Proof.
  intros Hf. unfold pre_intent, pre_resolved. apply resolve_intent_names.
  intros v Hv. rewrite merge_entities_frame in Hv by reflexivity. now apply Hf.
Qed.

Lemma reachable_last_intent (st : SessionState) (i : string) :
  reachable st -> last_intent st = Some i -> In i produced_intents.
Proof.
  intros Hr. revert i. induction Hr as [|now user_text st st' r Hr IH H]; intros i Hi.
  - discriminate Hi.
  - destruct (_contains_any (norm user_text) EXIT_WORDS) eqn:He.
    + rewrite dialogue_manager_exit in H by exact He. injection H as _ <-.
      apply IH. exact Hi.
    + rewrite dialogue_manager_dispatch in H by exact He.
      apply dispatch_result in H as (Hl & _ & _). rewrite Hl in Hi. injection Hi as <-.
      apply pre_intent_names. now apply reachable_force_ok.
Qed.

(** *** The pending question *)

Lemma pre_state_expected (user_text : string) (st : SessionState) :
  slots (pre_state user_text st) !! "claim_expected" = None
  \/ slots (pre_state user_text st) !! "claim_expected" = slots st !! "claim_expected".
Proof.
  unfold pre_state, pre_resolved. cbn [slots]. rewrite resolve_intent_slots.
  assert (H : forall s : slots_t,
             consumed_slots (norm user_text) s !! "claim_expected" = None
             \/ consumed_slots (norm user_text) s !! "claim_expected"
                = s !! "claim_expected").
  { intros s. unfold consumed_slots. cbv zeta. case_match.
    - left. apply lookup_delete_eq.
    - right. now rewrite lookup_delete_ne. }
  set (s1 := merge_entities _ _ _ _ _).
  assert (H1 : s1 !! "claim_expected" = slots st !! "claim_expected")
    by (subst s1; now apply merge_entities_frame).
  case_match; [rewrite lookup_insert_ne by discriminate|];
    (destruct (H s1) as [E | E]; [left; exact E | right; now rewrite E]).
Qed.

Lemma claim_intake_expected (now : Clock.datetime) (user_text : string)
  (st st' : SessionState) (r : TurnResult) (v : value) :
  claim_intake now user_text st = Return r st' ->
  slots st' !! "claim_expected" = Some v -> exists f : string, v = VStr f.
Proof.
  unfold claim_intake. cbv zeta.
  destruct (_claim_missing_slots _) as [|next_key rest].
  - unfold _generate_claim_number. cbv zeta. intros [= _ <-].
    cbn [slots with_slots]. rewrite lookup_delete_eq. discriminate.
  - intros [= _ <-]. cbn [slots with_slots]. rewrite lookup_insert_eq.
    intros [= <-]. now exists next_key.
Qed.

Definition expected_str (s : slots_t) : Prop :=
  forall v : value, s !! "claim_expected" = Some v -> exists f : string, v = VStr f.

Lemma turn_expected_str (now : Clock.datetime) (user_text : string)
  (st st' : SessionState) (r : TurnResult) :
  expected_str (slots st) ->
  dialogue_manager CURRENT_YEAR now rag user_text st = Return r st' ->
  expected_str (slots st').
Proof.
  intros Hs H v Hv.
  destruct (_contains_any (norm user_text) EXIT_WORDS) eqn:He.
  - rewrite dialogue_manager_exit in H by exact He. injection H as _ <-.
    destruct (exit_state_flags st) as [_ E]. congruence.
  - destruct (dm_routes CURRENT_YEAR rag now user_text st st' r He H)
      as [[_ Hc] | (_ & Hfr & _)].
    + eapply claim_intake_expected; eassumption.
    + rewrite Hfr in Hv by reflexivity.
      destruct (pre_state_expected user_text st) as [E | E]; rewrite E in Hv;
        [discriminate|now apply Hs].
Qed.

Lemma reachable_expected_str (st : SessionState) :
  reachable st -> expected_str (slots st).
Proof.
  induction 1 as [|now user_text st st' r _ IH H].
  - intros v Hv. discriminate Hv.
  - eapply turn_expected_str; eassumption.
Qed.

End SessionInvariants.

(** X4. In every state a session can reach, last_intent is unset or
    one of doc_qa, report_claim, premium_estimate, handoff_human and
    compare_coverage: the forced intent is only ever premium_estimate,
    and the intent named clarification is never produced. *)
Theorem last_intent_is_a_produced_intent {F : FloatOps} (CURRENT_YEAR : Z)
  (rag : Dialogue.RAGIndex) (st : Dialogue.SessionState) (i : string) :
  reachable CURRENT_YEAR rag st ->
  Dialogue.last_intent st = Some i ->
  In i ["doc_qa"; "report_claim"; "premium_estimate"; "handoff_human"; "compare_coverage"]
  /\ In i Nlu.Intent /\ i <> "clarification".
Proof.
  intros Hr Hi. pose proof (reachable_last_intent CURRENT_YEAR rag st i Hr Hi) as H.
  split; [exact H|]. unfold produced_intents in H. cbn [In] in H.
  destruct H as [<- | [<- | [<- | [<- | [<- | []]]]]];
    (split; [cbn; auto 10|discriminate]).
Qed.

Lemma last_intent_is_a_produced_intent_witness :
  In "report_claim"
    ["doc_qa"; "report_claim"; "premium_estimate"; "handoff_human"; "compare_coverage"]
  /\ In "report_claim" Nlu.Intent /\ "report_claim" <> "clarification".
Proof.
  apply (last_intent_is_a_produced_intent (F := ExactFloat.ops) Demo.year Demo.rag
           demo_intake_state "report_claim").
  - exact demo_intake_state_reachable.
  - reflexivity.
Defined.

(** X5. In every state a session can reach, a pending claim question
    is the name of a required claim field: that field is absent, every
    required field before it in the fixed order is present, and the
    intake flag in_claim_intake is True. *)
Theorem pending_question_is_first_missing {F : FloatOps} (CURRENT_YEAR : Z)
  (rag : Dialogue.RAGIndex) (st : Dialogue.SessionState) (v : value) :
  reachable CURRENT_YEAR rag st ->
  Dialogue.slots st !! "claim_expected" = Some v ->
  exists (f : string) (pre post : list string),
    v = VStr f
    /\ Dialogue.claim_needed = (pre ++ f :: post)%list
    /\ Forall (fun k => is_Some (Dialogue.slots st !! k)) pre
    /\ Dialogue.slots st !! f = None
    /\ Dialogue.slots st !! "in_claim_intake" = Some (VBool true).
Proof.
  intros Hr Hv.
  destruct (reachable_expected_str CURRENT_YEAR rag st Hr v Hv) as [f ->].
  destruct (reachable_inv CURRENT_YEAR rag st Hr f Hv) as [[rest Hm] Hin].
  destruct (missing_first _ _ _ Hm) as (pre & post & E & Hpre & Hk).
  exists f, pre, post. repeat split; [exact E| |now apply has_false|exact Hin].
  eapply List.Forall_impl; [|exact Hpre]. intros k Hk'. now apply has_true.
Qed.

Lemma pending_question_is_first_missing_witness :
  exists (f : string) (pre post : list string),
    VStr "injuries" = VStr f
    /\ Dialogue.claim_needed = (pre ++ f :: post)%list
    /\ Forall (fun k => is_Some (Dialogue.slots demo_intake_state !! k)) pre
    /\ Dialogue.slots demo_intake_state !! f = None
    /\ Dialogue.slots demo_intake_state !! "in_claim_intake" = Some (VBool true).
Proof.
  apply (pending_question_is_first_missing (F := ExactFloat.ops) Demo.year Demo.rag
           demo_intake_state (VStr "injuries")).
  - exact demo_intake_state_reachable.
  - reflexivity.
Defined.

(** ** Claim fields and cancellation *)

Section WriteOnce.
Import PyStr Re Dialogue.
Context {F : FloatOps}.
Variables (CURRENT_YEAR : Z) (rag : RAGIndex).

Local Abbreviation pre_intent := (pre_intent CURRENT_YEAR).
Local Abbreviation pre_state := (pre_state CURRENT_YEAR).
Local Abbreviation claim_turn := (claim_turn CURRENT_YEAR).
Local Abbreviation claim_slots := (claim_slots CURRENT_YEAR).
Local Abbreviation reachable := (reachable CURRENT_YEAR rag).

(** *** Claim fields are written once *)

Lemma guarded_insert_value (c : bool) (a k : string) (x v : value) (s : slots_t) :
  s !! k = Some v ->
  (if c && negb (has s a) then <[a := x]> s else s) !! k = Some v.
Proof.
  intros H. destruct c; cbn [andb]; [|exact H].
  destruct (has s a) eqn:E; cbn [negb]; [exact H|].
  apply has_false in E. rewrite lookup_insert_ne; [exact H|congruence].
Qed.

(** The free-text heuristics fill absent slots only, but for the police
    report reference. *)
Lemma claim_update_value (now : Clock.datetime) (user_text : string) (s : slots_t)
  (k : string) (v : value) :
  k <> "police_report_ref" ->
  s !! k = Some v -> _claim_update_from_text now user_text s !! k = Some v.
Proof.
  intros Hk H. unfold _claim_update_from_text. cbv zeta.
  destruct (_extract_accident_location user_text) as [area city].
  destruct (search re_report_ref user_text);
    [rewrite lookup_insert_ne by congruence|];
    (destruct (any_in accident_words (strip (lower user_text)));
     [apply guarded_insert_value
     |match goal with |- (if ?c then ?a else ?a) !! _ = _ => destruct c end];
     repeat apply guarded_insert_value; exact H).
Qed.

(** An answer is stored under the pending field; besides it only the
    police report reference, the accident area and the pending question
    itself are touched. *)
Lemma claim_apply_value (now : Clock.datetime) (user_text : string) (s : slots_t)
  (k : string) (v : value) :
  (forall f : string,
     s !! "claim_expected" = Some (VStr f) -> f <> k /\ In f claim_needed) ->
  mem k ["claim_expected"; "police_report_ref"; "accident_area"] = false ->
  s !! k = Some v -> _claim_apply_expected_answer now user_text s !! k = Some v.
Proof.
  intros Hf Hk H. keys_ne Hk. unfold _claim_apply_expected_answer.
  destruct (s !! "claim_expected") as [ev|]; [|exact H].
  destruct (negb (truthy ev)); [exact H|]. cbv zeta.
  destruct ev as [expected| | | |]; try exact H.
  destruct (Hf expected eq_refl) as [Hfk Hin].
  unfold claim_needed in Hin. cbn [In] in Hin.
  destruct Hin as [<- | [<- | [<- | [<- | [<- | [<- | [<- | [<- | []]]]]]]]];
    cbn [mem existsb String.eqb Ascii.eqb Bool.eqb orb andb negb];
    frame.
Qed.

Lemma claim_intake_value (now : Clock.datetime) (user_text : string)
  (st st' : SessionState) (r : TurnResult) (f : string) (v : value) :
  claim_intake now user_text st = Return r st' ->
  In f claim_needed ->
  _claim_apply_expected_answer now user_text
    (_claim_update_from_text now user_text
       (<["in_claim_intake" := VBool true]> (slots st))) !! f = Some v ->
  slots st' !! f = Some v.
Proof.
  intros H Hf Hv. destruct (needed_keys f Hf) as (_ & _ & H3 & H4).
  assert (Hn : f <> "claim_counters" /\ f <> "claim_number").
  { unfold claim_needed in Hf. cbn [In] in Hf.
    repeat (destruct Hf as [<- | Hf]; [split; discriminate|]). destruct Hf. }
  destruct Hn as [Hn1 Hn2].
  revert H. unfold claim_intake. cbv zeta.
  destruct (_claim_missing_slots _) as [|next_key rest].
  - unfold _generate_claim_number. cbv zeta.
    intros [= _ <-]. cbn [slots with_slots last_intent turns].
    rewrite lookup_delete_ne by congruence.
    rewrite !lookup_insert_ne by congruence. exact Hv.
  - intros [= _ <-]. cbn [slots with_slots].
    rewrite lookup_insert_ne by congruence. exact Hv.
Qed.

Lemma needed_not_side (f : string) :
  In f claim_needed ->
  mem f ["claim_expected"; "police_report_ref"; "accident_area"] = false
  /\ f <> "police_report_ref" /\ mem f premium_keys = false /\ mem f qa_keys = false.
Proof.
  unfold claim_needed. cbn [In]. intros H.
  repeat (destruct H as [<- | H]; [repeat split; discriminate|]). destruct H.
Qed.

Lemma turn_keeps_claim_field (now : Clock.datetime) (user_text : string)
  (st st' : SessionState) (r : TurnResult) (f : string) (v : value) :
  claim_inv (slots st) ->
  dialogue_manager CURRENT_YEAR now rag user_text st = Return r st' ->
  In f claim_needed ->
  slots st !! f = Some v -> slots st' !! f = Some v.
Proof.
  intros Hinv H Hf Hv.
  destruct (needed_keys f Hf) as (H1 & H2 & H3 & H4).
  destruct (needed_not_side f Hf) as (H5 & H6 & H7 & H8).
  destruct (_contains_any (norm user_text) EXIT_WORDS) eqn:He.
  { rewrite dialogue_manager_exit in H by exact He. injection H as _ <-.
    unfold exit_state. cbn [slots].
    rewrite lookup_delete_ne by congruence. now rewrite lookup_insert_ne by congruence. }
  assert (Hp : slots (pre_state user_text st) !! f = Some v)
    by now rewrite pre_state_slot.
  destruct (dm_routes CURRENT_YEAR rag now user_text st st' r He H)
    as [[_ Hc] | (_ & Hfr & _)]; [|now rewrite Hfr].
  eapply claim_intake_value; [exact Hc|exact Hf|].
  apply claim_apply_value; [|exact H5|].
  - intros f0. rewrite claim_update_frame by reflexivity.
    rewrite lookup_insert_ne by discriminate. intros E.
    destruct (pre_state_expected CURRENT_YEAR user_text st) as [E' | E'];
      rewrite E' in E; [discriminate|].
    destruct (Hinv f0 E) as [[rest Hm] _].
    destruct (missing_first _ _ _ Hm) as (pre & post & En & _ & Hk).
    apply has_false in Hk. split; [congruence|].
    rewrite En. apply in_or_app. right. now left.
  - apply claim_update_value; [exact H6|].
    rewrite lookup_insert_ne by congruence. exact Hp.
Qed.

(** *** A cancellation during intake *)

Lemma pre_state_cancel (user_text : string) (st : SessionState) :
  truthy_opt (slots st !! "in_claim_intake") = true ->
  _contains_any (norm user_text) CANCEL_WORDS = true ->
  pre_intent user_text st <> "report_claim"
  /\ slots (pre_state user_text st) !! "in_claim_intake" = Some (VBool false)
  /\ slots (pre_state user_text st) !! "claim_expected" = None.
Proof.
  intros Hin Hc.
  set (s1 := merge_entities CURRENT_YEAR user_text (norm user_text)
               (last_intent st) (slots st)).
  assert (Hin1 : truthy_opt (s1 !! "in_claim_intake") = true).
  { subst s1. now rewrite merge_entities_frame by reflexivity. }
  split; [now apply resolve_intent_cancel|].
  unfold pre_state, pre_resolved. cbn [slots]. fold s1.
  rewrite resolve_intent_slots.
  assert (Hcs : consumed_slots (norm user_text) s1
                = delete "claim_expected"
                    (<["in_claim_intake" := VBool false]> (delete "force_intent" s1))).
  { unfold consumed_slots. cbv zeta.
    rewrite lookup_delete_ne by discriminate. now rewrite Hin1, Hc. }
  rewrite Hcs.
  case_match; rewrite ?(lookup_insert_ne _ "qa_turns") by discriminate;
    (split; [rewrite lookup_delete_ne by discriminate; apply lookup_insert_eq
            |apply lookup_delete_eq]).
Qed.

End WriteOnce.

(** X6. Required claim fields are written once: in a session reached
    from the initial state, a turn that returns leaves every required
    claim field that already has a value with that same value, whatever
    the utterance and whichever route the turn takes. *)
Theorem claim_fields_written_once {F : FloatOps} (CURRENT_YEAR : Z)
  (rag : Dialogue.RAGIndex) (now : Clock.datetime) (user_text : string)
  (st st' : Dialogue.SessionState) (r : Dialogue.TurnResult) (f : string) (v : value) :
  reachable CURRENT_YEAR rag st ->
  Dialogue.dialogue_manager CURRENT_YEAR now rag user_text st = Dialogue.Return r st' ->
  In f Dialogue.claim_needed ->
  Dialogue.slots st !! f = Some v ->
  Dialogue.slots st' !! f = Some v.
Proof.
  intros Hr H Hf Hv.
  apply (turn_keeps_claim_field CURRENT_YEAR rag now user_text st st' r f v);
    [now apply (reachable_inv CURRENT_YEAR rag)|exact H|exact Hf|exact Hv].
Qed.

Lemma claim_fields_written_once_witness :
  exists (r : Dialogue.TurnResult) (st' : Dialogue.SessionState),
    Demo.turn "my number is 999999, no injuries" demo_intake_state = Dialogue.Return r st'
    /\ Dialogue.slots st' !! "insurance_number" = Some (VStr "123456").
Proof.
  destruct (Demo.turn "my number is 999999, no injuries" demo_intake_state)
    as [r st'|] eqn:E; [|vm_compute in E; discriminate E].
  exists r, st'. split; [reflexivity|].
  apply (claim_fields_written_once (F := ExactFloat.ops) Demo.year Demo.rag Demo.now
           "my number is 999999, no injuries" demo_intake_state st' r "insurance_number"
           (VStr "123456")).
  - exact demo_intake_state_reachable.
  - exact E.
  - cbn. auto.
  - reflexivity.
Defined.

(** X7. A cancellation word during claim intake, in an utterance that
    has no exit word, aborts the intake: the turn is not dispatched to
    the claim intake, and when it returns in_claim_intake is False, the
    pending question is removed, and every required claim field is as
    it was, so the answers given so far are kept. *)
Theorem cancel_aborts_intake {F : FloatOps} (CURRENT_YEAR : Z)
  (rag : Dialogue.RAGIndex) (now : Clock.datetime) (user_text : string)
  (st st' : Dialogue.SessionState) (r : Dialogue.TurnResult) :
  let t := PyStr.strip (PyStr.lower user_text) in
  truthy_opt (Dialogue.slots st !! "in_claim_intake") = true ->
  Dialogue._contains_any t Dialogue.CANCEL_WORDS = true ->
  Dialogue._contains_any t Dialogue.EXIT_WORDS = false ->
  Dialogue.dialogue_manager CURRENT_YEAR now rag user_text st = Dialogue.Return r st' ->
  pre_intent CURRENT_YEAR user_text st <> "report_claim"
  /\ Dialogue.slots st' !! "in_claim_intake" = Some (VBool false)
  /\ Dialogue.slots st' !! "claim_expected" = None
  /\ forall f : string,
       In f Dialogue.claim_needed -> Dialogue.slots st' !! f = Dialogue.slots st !! f.
Proof.
  intros t Hin Hc He H. subst t.
  destruct (pre_state_cancel CURRENT_YEAR user_text st Hin Hc) as (Hi & Hp1 & Hp2).
  split; [exact Hi|].
  destruct (dm_routes CURRENT_YEAR rag now user_text st st' r He H)
    as [[(_ & Hi' & _) _] | (_ & Hfr & _)]; [contradiction|].
  rewrite !Hfr by reflexivity. split; [exact Hp1|]. split; [exact Hp2|].
  intros f Hf. destruct (needed_keys f Hf) as (H1 & H2 & _ & _).
  destruct (needed_not_side f Hf) as (_ & _ & H7 & H8).
  rewrite Hfr by assumption. now apply pre_state_slot.
Qed.

Lemma cancel_aborts_intake_witness :
  exists (r : Dialogue.TurnResult) (st' : Dialogue.SessionState),
    Demo.turn "never mind" demo_intake_state = Dialogue.Return r st'
    /\ Dialogue.slots st' !! "in_claim_intake" = Some (VBool false)
    /\ Dialogue.slots st' !! "claim_expected" = None
    /\ Dialogue.slots st' !! "insurance_number" = Some (VStr "123456").
Proof.
  destruct (Demo.turn "never mind" demo_intake_state) as [r st'|] eqn:E;
    [|vm_compute in E; discriminate E].
  exists r, st'. split; [reflexivity|].
  destruct (cancel_aborts_intake (F := ExactFloat.ops) Demo.year Demo.rag Demo.now
              "never mind" demo_intake_state st' r) as (_ & H1 & H2 & H3);
    [reflexivity|reflexivity|reflexivity|exact E|].
  split; [exact H1|]. split; [exact H2|].
  rewrite H3 by (cbn; auto). reflexivity.
Defined.

(** ** The counters of the Q&A responder *)

Section QaCounters.
Import PyStr Re Dialogue.
Context {F : FloatOps}.
Variables (CURRENT_YEAR : Z) (rag : RAGIndex).

Local Abbreviation pre_intent := (pre_intent CURRENT_YEAR).
Local Abbreviation pre_state := (pre_state CURRENT_YEAR).
Local Abbreviation reachable := (reachable CURRENT_YEAR rag).
Local Abbreviation dispatch := (dispatch CURRENT_YEAR rag).

(** A counter slot: absent, or a non-negative integer. *)
Definition counter_ok (s : slots_t) (k : string) : Prop :=
  forall v : value, s !! k = Some v -> exists n : Z, v = VInt n /\ 0 <= n.

Definition qa_ok (s : slots_t) : Prop :=
  counter_ok s "qa_turns" /\ counter_ok s "qa_frustration".

Lemma qa_ok_agree (s s' : slots_t) :
  s' !! "qa_turns" = s !! "qa_turns" ->
  s' !! "qa_frustration" = s !! "qa_frustration" ->
  qa_ok s -> qa_ok s'.
Proof.
  intros E1 E2 [H1 H2]. split; intros v Hv; [rewrite E1 in Hv|rewrite E2 in Hv]; auto.
Qed.

Lemma int_slot_counter (s : slots_t) (k : string) :
  counter_ok s k -> exists n : Z, int_slot s k = Some n /\ 0 <= n.
Proof.
  intros H. unfold int_slot. destruct (s !! k) as [v|] eqn:E.
  - destruct (H v E) as (n & -> & Hn). now exists n.
  - now exists 0.
Qed.

Lemma int_slot_insert (s : slots_t) (k : string) (n : Z) :
  int_slot (<[k := VInt n]> s) k = Some n.
Proof. unfold int_slot. now rewrite lookup_insert_eq. Qed.

Lemma int_slot_insert_ne (s : slots_t) (a k : string) (v : value) :
  a <> k -> int_slot (<[a := v]> s) k = int_slot s k.
Proof. intros H. unfold int_slot. now rewrite lookup_insert_ne. Qed.

Lemma qa_ok_counters (s : slots_t) (a b : Z) :
  0 <= a -> 0 <= b ->
  qa_ok (<["qa_frustration" := VInt b]> (<["qa_turns" := VInt a]> s)).
Proof.
  intros Ha Hb. split; intros v.
  - rewrite lookup_insert_ne by discriminate. rewrite lookup_insert_eq.
    intros [= <-]. now exists a.
  - rewrite lookup_insert_eq. intros [= <-]. now exists b.
Qed.

Lemma qa_ok_force (s : slots_t) (v : value) :
  qa_ok s -> qa_ok (<["force_intent" := v]> s).
Proof. apply qa_ok_agree; now rewrite lookup_insert_ne. Qed.

(** With counters that are integers the responder answers, and leaves
    counters that are non-negative integers. *)
Lemma qa_returns (user_text : string) (docs : list DocChunk) (s : slots_t) :
  qa_ok s ->
  exists (answer : string) (s' : slots_t),
    _qa_answer_or_followup user_text docs s = Some (answer, s') /\ qa_ok s'.
Proof.
  intros [H1 H2].
  destruct (int_slot_counter s "qa_turns" H1) as (qt & E1 & Hq).
  destruct (int_slot_counter s "qa_frustration" H2) as (fr & E2 & Hf).
  unfold _qa_answer_or_followup. cbv zeta. rewrite E1.
  rewrite (int_slot_insert_ne s "qa_turns" "qa_frustration") by discriminate.
  rewrite E2.
  set (s1 := <["qa_turns" := VInt (qt + 1)]> s).
  set (fr' := if _is_dissatisfied (strip (lower user_text)) then fr + 1
              else Z.max 0 (fr - 1)).
  assert (Es : (if _is_dissatisfied (strip (lower user_text))
                then <["qa_frustration" := VInt (fr + 1)]> s1
                else <["qa_frustration" := VInt (Z.max 0 (fr - 1))]> s1)
               = <["qa_frustration" := VInt fr']> s1).
  { subst fr'. now destruct (_is_dissatisfied _). }
  rewrite Es. clear Es.
  assert (Hfr' : 0 <= fr') by (subst fr'; destruct (_is_dissatisfied _); lia).
  assert (Hok : qa_ok (<["qa_frustration" := VInt fr']> s1))
    by (subst s1; apply qa_ok_counters; lia).
  rewrite (int_slot_insert_ne s1 "qa_frustration" "qa_turns") by discriminate.
  subst s1. rewrite int_slot_insert. rewrite int_slot_insert.
  set (s2 := <["qa_frustration" := VInt fr']> (<["qa_turns" := VInt (qt + 1)]> s)) in *.
  clearbody s2.
  repeat match goal with
         | |- context [if ?c then _ else _] =>
             lazymatch c with
             | context [if _ then _ else _] => fail
             | _ => destruct c
             end
         end;
    eexists _, _; (split; [reflexivity|]); try exact Hok; now apply qa_ok_force.
Qed.

Lemma consumed_slots_qa (t : string) (s : slots_t) (k : string) :
  mem k ["qa_turns"; "qa_frustration"] = true ->
  consumed_slots t s !! k = s !! k.
Proof.
  intros H. apply consumed_slots_frame.
  apply mem_true_iff in H. cbn [In] in H. destruct H as [<- | [<- | []]]; reflexivity.
Qed.

Lemma pre_state_qa_ok (user_text : string) (st : SessionState) :
  qa_ok (slots st) -> qa_ok (slots (pre_state user_text st)).
Proof.
  intros H. unfold pre_state, pre_resolved. cbn [slots]. rewrite resolve_intent_slots.
  set (s1 := merge_entities _ _ _ _ _).
  assert (H1 : qa_ok (consumed_slots (norm user_text) s1)).
  { revert H. apply qa_ok_agree; rewrite consumed_slots_qa by reflexivity;
      subst s1; now apply merge_entities_frame. }
  case_match; [|exact H1]. destruct H1 as [_ H2]. split; intros v.
  - rewrite lookup_insert_eq. intros [= <-]. exists 0. split; [reflexivity|lia].
  - rewrite lookup_insert_ne by discriminate. apply H2.
Qed.

Lemma dispatch_qa_ok (now : Clock.datetime) (user_text : string)
  (st st' : SessionState) (r : TurnResult) :
  qa_ok (slots st) ->
  dispatch now user_text st = Return r st' -> qa_ok (slots st').
Proof.
  intros Hs. apply pre_state_qa_ok with (user_text := user_text) in Hs.
  unfold dispatch. cbv zeta.
  destruct (String.eqb (pre_intent user_text st) "handoff_human"
            || _contains_any (norm user_text) handoff_phrases).
  { intros [= _ <-]. exact Hs. }
  destruct (String.eqb (pre_intent user_text st) "report_claim").
  { intros H. revert Hs.
    apply qa_ok_agree; now apply (claim_intake_frame now user_text _ _ r). }
  destruct (String.eqb (pre_intent user_text st) "premium_estimate").
  { intros H. revert Hs.
    apply qa_ok_agree; now apply (premium_quote_frame (norm user_text) _ _ r). }
  destruct (String.eqb (pre_intent user_text st) "compare_coverage").
  { intros H. apply compare_coverage_state in H as [-> _]. exact Hs. }
  unfold doc_qa. cbv zeta. destruct (rag _ _) as [docs|]; [|discriminate].
  destruct (qa_returns user_text docs _ Hs) as (answer & s' & -> & Hok).
  intros [= _ <-]. exact Hok.
Qed.

Lemma turn_qa_ok (now : Clock.datetime) (user_text : string)
  (st st' : SessionState) (r : TurnResult) :
  qa_ok (slots st) ->
  dialogue_manager CURRENT_YEAR now rag user_text st = Return r st' ->
  qa_ok (slots st').
Proof.
  intros Hs H. destruct (_contains_any (norm user_text) EXIT_WORDS) eqn:He.
  - rewrite dialogue_manager_exit in H by exact He. injection H as _ <-.
    revert Hs. unfold exit_state. cbn [slots].
    apply qa_ok_agree;
      (rewrite lookup_delete_ne by discriminate; now rewrite lookup_insert_ne by discriminate).
  - rewrite dialogue_manager_dispatch in H by exact He.
    eapply dispatch_qa_ok; eassumption.
Qed.

Lemma reachable_qa_ok (st : SessionState) : reachable st -> qa_ok (slots st).
Proof.
  induction 1 as [|now user_text st st' r _ IH H].
  - split; intros v Hv; discriminate Hv.
  - eapply turn_qa_ok; eassumption.
Qed.

(** The routes that cannot raise. *)
Lemma dispatch_returns (now : Clock.datetime) (user_text : string) (st : SessionState) :
  qa_ok (slots st) ->
  (forall (q : string) (k : nat), rag q k <> None) ->
  pre_intent user_text st <> "premium_estimate" ->
  pre_intent user_text st <> "compare_coverage" ->
  exists (r : TurnResult) (st' : SessionState), dispatch now user_text st = Return r st'.
Proof.
  intros Hs Hrag Hp Hc. apply pre_state_qa_ok with (user_text := user_text) in Hs.
  unfold dispatch. cbv zeta.
  destruct (String.eqb (pre_intent user_text st) "handoff_human"
            || _contains_any (norm user_text) handoff_phrases); [eauto|].
  destruct (String.eqb (pre_intent user_text st) "report_claim").
  { unfold claim_intake. cbv zeta.
    destruct (_claim_missing_slots _); [|eauto].
    unfold _generate_claim_number. cbv zeta. eauto. }
  apply String.eqb_neq in Hp, Hc. rewrite Hp, Hc.
  unfold doc_qa. cbv zeta.
  destruct (rag _ _) as [docs|] eqn:Er; [|now apply Hrag in Er].
  destruct (qa_returns user_text docs _ Hs) as (answer & s' & -> & _). eauto.
Qed.

(** The Q&A turn counter restarts on every turn that is not a Q&A turn. *)
Lemma dispatch_resets_qa_turns (now : Clock.datetime) (user_text : string)
  (st st' : SessionState) (r : TurnResult) :
  In (pre_intent user_text st) produced_intents ->
  pre_intent user_text st <> "doc_qa" ->
  dispatch now user_text st = Return r st' ->
  slots st' !! "qa_turns" = Some (VInt 0).
Proof.
  intros Hin Hd.
  assert (Hp : slots (pre_state user_text st) !! "qa_turns" = Some (VInt 0)).
  { unfold pre_state. cbn [slots]. unfold pre_resolved at 1.
    rewrite resolve_intent_slots.
    change (Nlu.intent (fst (resolve_intent user_text (norm user_text) (last_intent st)
                               (merge_entities CURRENT_YEAR user_text (norm user_text)
                                  (last_intent st) (slots st)))))
      with (pre_intent user_text st).
    apply String.eqb_neq in Hd. rewrite Hd. cbn [negb]. apply lookup_insert_eq. }
  unfold dispatch. cbv zeta.
  destruct (String.eqb (pre_intent user_text st) "handoff_human"
            || _contains_any (norm user_text) handoff_phrases) eqn:Eh.
  { intros [= _ <-]. exact Hp. }
  apply orb_false_elim in Eh as [Eh _].
  destruct (String.eqb (pre_intent user_text st) "report_claim") eqn:Ec.
  { intros H. now rewrite (claim_intake_frame now user_text _ _ r "qa_turns" H). }
  destruct (String.eqb (pre_intent user_text st) "premium_estimate") eqn:Ep.
  { intros H. now rewrite (premium_quote_frame (norm user_text) _ _ r "qa_turns" H). }
  destruct (String.eqb (pre_intent user_text st) "compare_coverage") eqn:Em.
  { intros H. apply compare_coverage_state in H as [-> _]. exact Hp. }
  exfalso. apply String.eqb_neq in Eh, Ec, Ep, Em.
  unfold produced_intents in Hin. cbn [In] in Hin.
  destruct Hin as [E | [E | [E | [E | [E | []]]]]]; congruence.
Qed.

End QaCounters.

(** X8. In every state a session can reach, the two counters of the
    Q&A responder, qa_turns and qa_frustration, are absent or hold a
    non-negative integer: the frustration counter is never driven below
    zero. *)
Theorem qa_counters_non_negative {F : FloatOps} (CURRENT_YEAR : Z)
  (rag : Dialogue.RAGIndex) (st : Dialogue.SessionState) (k : string) (v : value) :
  reachable CURRENT_YEAR rag st ->
  k = "qa_turns" \/ k = "qa_frustration" ->
  Dialogue.slots st !! k = Some v ->
  exists n : Z, v = VInt n /\ 0 <= n.
Proof.
  intros Hr Hk Hv. destruct (reachable_qa_ok CURRENT_YEAR rag st Hr) as [H1 H2].
  destruct Hk as [-> | ->]; [now apply H1|now apply H2].
Qed.

Lemma qa_counters_non_negative_witness :
  exists n : Z, VInt 0 = VInt n /\ 0 <= n.
Proof.
  apply (qa_counters_non_negative (F := ExactFloat.ops) Demo.year Demo.rag
           demo_intake_state "qa_turns" (VInt 0)).
  - exact demo_intake_state_reachable.
  - now left.
  - reflexivity.
Defined.

(** X9. In a session reached from the initial state and with a
    retriever that answers, a turn returns a result, without raising,
    whenever it ends at the exit check or resolves to an intent other
    than premium_estimate and compare_coverage: the hand-off, the claim
    intake and the document Q&A cannot fail. *)
Theorem turn_returns_outside_pricing {F : FloatOps} (CURRENT_YEAR : Z)
  (rag : Dialogue.RAGIndex) (now : Clock.datetime) (user_text : string)
  (st : Dialogue.SessionState) :
  reachable CURRENT_YEAR rag st ->
  (forall (q : string) (k : nat), rag q k <> None) ->
  Dialogue._contains_any (PyStr.strip (PyStr.lower user_text)) Dialogue.EXIT_WORDS = true
  \/ (pre_intent CURRENT_YEAR user_text st <> "premium_estimate"
      /\ pre_intent CURRENT_YEAR user_text st <> "compare_coverage") ->
  exists (r : Dialogue.TurnResult) (st' : Dialogue.SessionState),
    Dialogue.dialogue_manager CURRENT_YEAR now rag user_text st = Dialogue.Return r st'.
Proof.
  intros Hr Hrag H.
  destruct (Dialogue._contains_any (PyStr.strip (PyStr.lower user_text)) Dialogue.EXIT_WORDS)
    eqn:He.
  - rewrite dialogue_manager_exit by exact He. eauto.
  - destruct H as [H | [Hp Hc]]; [discriminate H|].
    rewrite dialogue_manager_dispatch by exact He.
    apply dispatch_returns; [now apply (reachable_qa_ok CURRENT_YEAR rag)|assumption..].
Qed.

Lemma turn_returns_outside_pricing_witness :
  exists (r : Dialogue.TurnResult) (st' : Dialogue.SessionState),
    Demo.turn "what does the policy say about hail?" demo_intake_state
    = Dialogue.Return r st'.
Proof.
  apply (turn_returns_outside_pricing (F := ExactFloat.ops) Demo.year Demo.rag Demo.now
           "what does the policy say about hail?" demo_intake_state).
  - exact demo_intake_state_reachable.
  - intros q k. discriminate.
  - right. split; vm_compute; discriminate.
Defined.

(** X10. The Q&A turn counter restarts on every turn that is not a Q&A
    turn: in a session reached from the initial state, a turn that
    passes the exit check, resolves to an intent other than doc_qa and
    returns, leaves qa_turns at 0. *)
Theorem qa_turns_restart {F : FloatOps} (CURRENT_YEAR : Z)
  (rag : Dialogue.RAGIndex) (now : Clock.datetime) (user_text : string)
  (st st' : Dialogue.SessionState) (r : Dialogue.TurnResult) :
  reachable CURRENT_YEAR rag st ->
  Dialogue._contains_any (PyStr.strip (PyStr.lower user_text)) Dialogue.EXIT_WORDS = false ->
  pre_intent CURRENT_YEAR user_text st <> "doc_qa" ->
  Dialogue.dialogue_manager CURRENT_YEAR now rag user_text st = Dialogue.Return r st' ->
  Dialogue.slots st' !! "qa_turns" = Some (VInt 0).
Proof.
  intros Hr He Hd H. rewrite dialogue_manager_dispatch in H by exact He.
  eapply dispatch_resets_qa_turns; [|exact Hd|exact H].
  apply pre_intent_names. now apply (reachable_force_ok CURRENT_YEAR rag).
Qed.

Lemma qa_turns_restart_witness :
  exists (r : Dialogue.TurnResult) (st' : Dialogue.SessionState),
    Demo.turn "how much is a quote?" Dialogue.new_session = Dialogue.Return r st'
    /\ Dialogue.slots st' !! "qa_turns" = Some (VInt 0).
Proof.
  destruct (Demo.turn "how much is a quote?" Dialogue.new_session) as [r st'|] eqn:E;
    [|vm_compute in E; discriminate E].
  exists r, st'. split; [reflexivity|].
  apply (qa_turns_restart (F := ExactFloat.ops) Demo.year Demo.rag Demo.now
           "how much is a quote?" Dialogue.new_session st' r).
  - apply reach_new.
  - reflexivity.
  - vm_compute. discriminate.
  - exact E.
Defined.

(** ** premium.py: the horsepower estimate and the price *)

(** premium.py, [estimate_horsepower_from_engine_size]. *)
Definition estimate_horsepower_from_engine_size (engine_size_l : Q) : Z * string :=
  if Qle_bool engine_size_l 1.0 then (95, "estimated from engine size")
  else if Qle_bool engine_size_l 1.2 then (105, "estimated from engine size")
  else if Qle_bool engine_size_l 1.4 then (120, "estimated from engine size")
  else if Qle_bool engine_size_l 1.6 then (135, "estimated from engine size")
  else if Qle_bool engine_size_l 1.8 then (155, "estimated from engine size")
  else if Qle_bool engine_size_l 2.0 then (180, "estimated from engine size")
  else (200, "estimated from engine size").

(** Rounded multiplication and addition are monotone in the other
    argument as well. *)
Class FloatMono (F : FloatOps) := {
  fmul_mono_l : forall x a b : float,
    fle (of_Q 0) x = true -> fle a b = true -> fle (fmul a x) (fmul b x) = true;
  fadd_mono_r : forall x a b : float,
    fle a b = true -> fle (fadd x a) (fadd x b) = true
}.

#[export] Instance exact_mono : FloatMono ExactFloat.ops.
Proof.
  constructor; simpl.
  - intros x a b Hx Hab. apply Qle_bool_iff. apply Qle_bool_iff in Hx, Hab.
    now apply Qmult_le_compat_r.
  - intros x a b Hab. apply Qle_bool_iff. apply Qle_bool_iff in Hab.
    now apply Qplus_le_r.
Qed.

Section Pricing.
Import PyStr Dialogue.
Context {F : FloatOps} {L : FloatLaws F} {M : FloatMono F}.

Lemma Qle_bool_mono (a b c : Q) :
  (a <= b)%Q -> Qle_bool b c = true -> Qle_bool a c = true.
Proof.
  intros H1 H2. apply Qle_bool_iff. apply Qle_bool_iff in H2.
  eapply Qle_trans; eassumption.
Qed.

Lemma estimate_hp_mono (a b : Q) :
  (a <= b)%Q ->
  fst (estimate_hp_from_engine_size a) <= fst (estimate_hp_from_engine_size b).
Proof.
  intros H. unfold estimate_hp_from_engine_size.
  repeat match goal with
         | |- context [Qle_bool b ?c] =>
             let E := fresh "E" in
             destruct (Qle_bool b c) eqn:E;
             [rewrite (Qle_bool_mono a b c H E)|]
         end;
    repeat match goal with
           | |- context [Qle_bool a ?c] => destruct (Qle_bool a c)
           end;
    cbn [fst]; lia.
Qed.

Lemma estimate_hp_range (a : Q) :
  95 <= fst (estimate_hp_from_engine_size a) <= 200.
Proof.
  unfold estimate_hp_from_engine_size.
  repeat match goal with
         | |- context [Qle_bool a ?c] => destruct (Qle_bool a c)
         end;
    cbn [fst]; lia.
Qed.

Lemma factor_mono (m n : Z) (q : Q) :
  (0 <= q)%Q -> m <= n ->
  fle (fadd (of_Q 1.0) (fmul (of_Q (inject_Z (Z.max 0 m))) (of_Q q)))
      (fadd (of_Q 1.0) (fmul (of_Q (inject_Z (Z.max 0 n))) (of_Q q))) = true.
Proof using L M.
  intros Hq H. apply fadd_mono_r, fmul_mono_l; [now apply of_Q_nonneg|].
  apply of_Q_mono. rewrite <- Zle_Qle. lia.
Qed.

Lemma uncovered_mono (a a' h h' : Z) (city : string) :
  a <= a' -> h <= h' ->
  fle (uncovered a h city) (uncovered a' h' city) = true.
Proof using L M.
  intros Ha Hh. unfold uncovered. cbv zeta.
  apply fmul_mono_l; [apply of_Q_nonneg, assoc_city_nonneg|].
  eapply fle_trans.
  - apply fmul_mono_l; [apply factor_nonneg; discriminate|].
    apply fmul_mono_r; [apply of_Q_nonneg; discriminate|].
    apply factor_mono; [discriminate|]. instantiate (1 := a' - 3). lia.
  - apply fmul_mono_r.
    + apply fmul_nonneg; [apply of_Q_nonneg; discriminate|apply factor_nonneg; discriminate].
    + apply factor_mono; [discriminate|lia].
Qed.

Lemma coverage_factor_nonneg (level : string) (cf : Q) :
  Premium.assoc level Premium.coverage_factor_map = Some cf -> (0 <= cf)%Q.
Proof.
  unfold Premium.coverage_factor_map. cbn [Premium.assoc].
  repeat (case_match; [intros [= <-]; discriminate|]). discriminate.
Qed.


End Pricing.

(** X11. The price never falls with the age or the power of the
    vehicle: for one city and one coverage level, if the vehicle age
    and the horsepower of one request are both at most those of
    another, then so is its monthly amount, whatever the rounding of
    the float arithmetic as long as it is monotone. *)
Theorem premium_monotone_in_age_and_power {F : FloatOps} {L : FloatLaws F}
  {M : FloatMono F} (a a' h h' : Z) (city level : string)
  (r r' : Premium.PremiumResult) :
  a <= a' -> h <= h' ->
  Premium.calculate_premium a h city level = Some r ->
  Premium.calculate_premium a' h' city level = Some r' ->
  fle (Premium.monthly_eur r) (Premium.monthly_eur r') = true.
Proof.
  intros Ha Hh H H'.
  destruct (Premium.assoc level Premium.coverage_factor_map) as [cf|] eqn:E.
  - pose proof (calculate_premium_monthly a h city level cf E) as H1.
    pose proof (calculate_premium_monthly a' h' city level cf E) as H2.
    rewrite H in H1. rewrite H' in H2. cbn [option_map] in H1, H2.
    injection H1 as ->. injection H2 as ->.
    unfold monthly. apply round2_mono, fmul_mono_l.
    + apply of_Q_nonneg. eapply coverage_factor_nonneg. exact E.
    + now apply uncovered_mono.
  - unfold Premium.calculate_premium in H. cbv zeta in H. rewrite E in H. discriminate H.
Qed.

Lemma premium_monotone_in_age_and_power_witness :
  exists r r' : Premium.PremiumResult (F := ExactFloat.ops),
    Premium.calculate_premium 5 100 "Celje" "standard" = Some r
    /\ Premium.calculate_premium 12 150 "Celje" "standard" = Some r'
    /\ Qle_bool (Premium.monthly_eur r) (Premium.monthly_eur r') = true.
Proof.
  eexists _, _. split; [reflexivity|]. split; [reflexivity|].
  apply (premium_monotone_in_age_and_power (F := ExactFloat.ops) (L := laws)
           (M := exact_mono) 5 12 100 150 "Celje" "standard"); [lia|lia|reflexivity..].
Defined.


(** X13. The horsepower estimated from the engine size never falls as
    the engine size grows, and lies between 95 and 200 whatever the
    engine size; the copy of the estimate in premium.py returns the same
    result as the one of dialogue.py on every input. *)
Theorem horsepower_estimate_monotone (a b : Q) :
  (a <= b)%Q ->
  fst (Dialogue.estimate_hp_from_engine_size a)
  <= fst (Dialogue.estimate_hp_from_engine_size b)
  /\ 95 <= fst (Dialogue.estimate_hp_from_engine_size a) <= 200
  /\ estimate_horsepower_from_engine_size a = Dialogue.estimate_hp_from_engine_size a.
Proof.
  intros H. split; [now apply estimate_hp_mono|].
  split; [apply estimate_hp_range|reflexivity].
Qed.

Lemma horsepower_estimate_monotone_witness :
  fst (Dialogue.estimate_hp_from_engine_size 1.4)
  <= fst (Dialogue.estimate_hp_from_engine_size 1.9)
  /\ 95 <= fst (Dialogue.estimate_hp_from_engine_size 1.4) <= 200
  /\ estimate_horsepower_from_engine_size 1.4 = Dialogue.estimate_hp_from_engine_size 1.4.
Proof.
  apply (horsepower_estimate_monotone 1.4 1.9). unfold Qle. simpl. lia.
Defined.

(** ** The slots of a quote *)

Section SlotInvariants.
Import PyStr Re Dialogue.
Context {F : FloatOps}.
Variables (CURRENT_YEAR : Z) (rag : RAGIndex).

Local Abbreviation pre_intent := (pre_intent CURRENT_YEAR).
Local Abbreviation pre_state := (pre_state CURRENT_YEAR).
Local Abbreviation reachable := (reachable CURRENT_YEAR rag).
Local Abbreviation dispatch := (dispatch CURRENT_YEAR rag).

(** *** The three steps of the entity merge *)

Definition city_step (s : slots_t) : slots_t :=
  match s !! "city" with
  | Some v => <["city" := VStr (normalize_city (py_str v))]> s
  | None => s
  end.

Definition year_step (s : slots_t) : slots_t :=
  match s !! "vehicle_year" with
  | Some v =>
      match py_int v with
      | Some y =>
          if (1950 <=? y) && (y <=? CURRENT_YEAR)
          then <["vehicle_age" := VInt (CURRENT_YEAR - y)]> s else s
      | None => s
      end
  | None => s
  end.

Definition age_step (t : string) (li : option string) (s : slots_t) : slots_t :=
  if negb (has s "vehicle_age") then
    match search re_age_is t with
    | Some m => <["vehicle_age" := VInt (digits_value (default "" (group m 2)))]> s
    | None =>
        match fullmatch re_two_digits t with
        | Some _ =>
            let age := digits_value t in
            if (0 <? age) && (age <? 100) && bool_decide (li = Some "premium_estimate")
            then <["vehicle_age" := VInt age]> s else s
        | None => s
        end
    end
  else s.

Lemma merge_entities_steps (user_text t : string) (li : option string) (s : slots_t) :
  merge_entities CURRENT_YEAR user_text t li s
  = age_step t li (year_step (city_step (Nlu.extract_entities user_text ∪ s))).
Proof. reflexivity. Qed.

Lemma age_step_frame (t : string) (li : option string) (s : slots_t) (k : string) :
  k <> "vehicle_age" -> age_step t li s !! k = s !! k.
Proof.
  intros Hk. unfold age_step. cbv zeta.
  repeat first [ rewrite lookup_insert_ne by congruence | case_match ]; reflexivity.
Qed.

Lemma age_step_present (t : string) (li : option string) (s : slots_t) (v : value) :
  s !! "vehicle_age" = Some v -> age_step t li s = s.
Proof.
  intros H. unfold age_step.
  assert (E : has s "vehicle_age" = true) by (apply has_true; eauto).
  now rewrite E.
Qed.

Lemma year_step_frame (s : slots_t) (k : string) :
  k <> "vehicle_age" -> year_step s !! k = s !! k.
Proof.
  intros Hk. unfold year_step.
  repeat first [ rewrite lookup_insert_ne by congruence | case_match ]; reflexivity.
Qed.

Lemma city_step_frame (s : slots_t) (k : string) :
  k <> "city" -> city_step s !! k = s !! k.
Proof.
  intros Hk. unfold city_step.
  repeat first [ rewrite lookup_insert_ne by congruence | case_match ]; reflexivity.
Qed.

(** *** Slots no sub-flow writes *)

Definition subflow_keys : list string := (claim_keys ++ premium_keys ++ qa_keys)%list.

Lemma subflow_keys_split (k : string) :
  mem k subflow_keys = false ->
  mem k claim_keys = false /\ mem k premium_keys = false /\ mem k qa_keys = false.
Proof.
  intros H. apply mem_false_Forall in H. unfold subflow_keys in H.
  rewrite !Forall_app in H. destruct H as (H1 & H2 & H3).
  repeat split;
    match goal with
    | |- mem k ?l = false =>
        destruct (mem k l) eqn:E; [|reflexivity];
        apply mem_true_iff in E; exfalso;
        match goal with
        | H : Forall _ l |- _ => rewrite List.Forall_forall in H; now apply (H k E)
        end
    end.
Qed.

(** A turn leaves a slot that no sub-flow writes as the entity merge
    and the override rules left it. *)
Lemma turn_slot_pre (now : Clock.datetime) (user_text : string)
  (st st' : SessionState) (r : TurnResult) (k : string) :
  mem k subflow_keys = false ->
  _contains_any (norm user_text) EXIT_WORDS = false ->
  dialogue_manager CURRENT_YEAR now rag user_text st = Return r st' ->
  slots st' !! k = slots (pre_state user_text st) !! k.
Proof.
  intros Hk He H. apply subflow_keys_split in Hk as (H1 & H2 & H3).
  destruct (dm_routes CURRENT_YEAR rag now user_text st st' r He H)
    as [[_ Hc] | (_ & Hfr & _)]; [|now apply Hfr].
  now apply (claim_intake_frame now user_text _ _ r).
Qed.

Lemma pre_state_merge (user_text : string) (st : SessionState) (k : string) :
  mem k resolve_keys = false ->
  slots (pre_state user_text st) !! k
  = merge_entities CURRENT_YEAR user_text (norm user_text) (last_intent st) (slots st) !! k.
Proof.
  intros Hk. unfold pre_state, pre_resolved. cbn [slots].
  now apply resolve_intent_frame.
Qed.

Lemma exit_state_slot (st : SessionState) (k : string) :
  mem k ["in_claim_intake"; "claim_expected"] = false ->
  slots (exit_state st) !! k = slots st !! k.
Proof.
  intros Hk. keys_ne Hk. unfold exit_state. cbn [slots].
  rewrite lookup_delete_ne by assumption. now rewrite lookup_insert_ne by assumption.
Qed.

(** *** The vehicle age follows the vehicle year *)

Definition age_ok (s : slots_t) : Prop :=
  forall (v : value) (y : Z),
    s !! "vehicle_year" = Some v -> py_int v = Some y ->
    1950 <= y <= CURRENT_YEAR ->
    s !! "vehicle_age" = Some (VInt (CURRENT_YEAR - y)).

Lemma merge_entities_age_ok (user_text t : string) (li : option string) (s : slots_t) :
  age_ok (merge_entities CURRENT_YEAR user_text t li s).
Proof.
  rewrite merge_entities_steps.
  set (s2 := city_step (Nlu.extract_entities user_text ∪ s)).
  intros v y Hv Hy Hr.
  rewrite age_step_frame, year_step_frame in Hv by discriminate.
  assert (E : year_step s2 = <["vehicle_age" := VInt (CURRENT_YEAR - y)]> s2).
  { unfold year_step. rewrite Hv, Hy.
    assert (Hb : (1950 <=? y) && (y <=? CURRENT_YEAR) = true)
      by (apply andb_true_intro; split; apply Z.leb_le; lia).
    now rewrite Hb. }
  rewrite E.
  rewrite (age_step_present _ _ _ (VInt (CURRENT_YEAR - y))) by apply lookup_insert_eq.
  apply lookup_insert_eq.
Qed.

Lemma age_ok_agree (s s' : slots_t) :
  s' !! "vehicle_year" = s !! "vehicle_year" ->
  s' !! "vehicle_age" = s !! "vehicle_age" ->
  age_ok s -> age_ok s'.
Proof.
  intros E1 E2 H v y Hv Hy Hr. rewrite E1 in Hv. rewrite E2. now apply (H v y).
Qed.

Lemma turn_age_ok (now : Clock.datetime) (user_text : string)
  (st st' : SessionState) (r : TurnResult) :
  age_ok (slots st) ->
  dialogue_manager CURRENT_YEAR now rag user_text st = Return r st' ->
  age_ok (slots st').
Proof.
  intros Hs H. destruct (_contains_any (norm user_text) EXIT_WORDS) eqn:He.
  - rewrite dialogue_manager_exit in H by exact He. injection H as _ <-.
    revert Hs. apply age_ok_agree; now apply exit_state_slot.
  - apply (age_ok_agree
             (merge_entities CURRENT_YEAR user_text (norm user_text) (last_intent st)
                (slots st))); [| |apply merge_entities_age_ok];
      (rewrite (turn_slot_pre now user_text st st' r) by (assumption || reflexivity);
       now apply pre_state_merge).
Qed.

Lemma reachable_age_ok (st : SessionState) : reachable st -> age_ok (slots st).
Proof.
  induction 1 as [|now user_text st st' r _ IH H].
  - intros v y Hv. discriminate Hv.
  - eapply turn_age_ok; eassumption.
Qed.

(** *** The city is stored in normal form *)

Definition city_ok (s : slots_t) : Prop :=
  forall v : value,
    s !! "city" = Some v -> exists c : string, v = VStr c /\ normalize_city c = c.

Lemma city_step_ok (s : slots_t) : city_ok (city_step s).
Proof.
  unfold city_step. intros v. destruct (s !! "city") as [v0|] eqn:E.
  - rewrite lookup_insert_eq. intros [= <-]. eexists. split; [reflexivity|].
    apply normalize_city_idempotent.
  - rewrite E. discriminate.
Qed.

Lemma merge_entities_city_ok (user_text t : string) (li : option string) (s : slots_t) :
  city_ok (merge_entities CURRENT_YEAR user_text t li s).
Proof.
  rewrite merge_entities_steps. intros v.
  rewrite age_step_frame, year_step_frame by discriminate. apply city_step_ok.
Qed.

Lemma turn_city_ok (now : Clock.datetime) (user_text : string)
  (st st' : SessionState) (r : TurnResult) :
  city_ok (slots st) ->
  dialogue_manager CURRENT_YEAR now rag user_text st = Return r st' ->
  city_ok (slots st').
Proof.
  intros Hs H v. destruct (_contains_any (norm user_text) EXIT_WORDS) eqn:He.
  - rewrite dialogue_manager_exit in H by exact He. injection H as _ <-.
    rewrite exit_state_slot by reflexivity. apply Hs.
  - rewrite (turn_slot_pre now user_text st st' r) by (assumption || reflexivity).
    rewrite pre_state_merge by reflexivity. apply merge_entities_city_ok.
Qed.

Lemma reachable_city_ok (st : SessionState) : reachable st -> city_ok (slots st).
Proof.
  induction 1 as [|now user_text st st' r _ IH H].
  - intros v Hv. discriminate Hv.
  - eapply turn_city_ok; eassumption.
Qed.

(** *** The coverage level is one of the three levels *)

Definition level_ok (s : slots_t) : Prop :=
  forall v : value,
    s !! "coverage_level" = Some v ->
    exists level : string, v = VStr level /\ In level coverage_levels.

Lemma first_level_names (tl level : string) :
  Nlu.first_level Nlu.COVERAGE_ALIASES tl = Some level -> In level coverage_levels.
Proof.
  unfold Nlu.COVERAGE_ALIASES, coverage_levels. cbn [Nlu.first_level In].
  repeat (case_match; [intros [= <-]; auto|]). discriminate.
Qed.

Lemma extract_entities_level (user_text : string) :
  level_ok (Nlu.extract_entities user_text).
Proof.
  intros v. unfold Nlu.extract_entities. cbv zeta.
  destruct (Nlu.first_level Nlu.COVERAGE_ALIASES (lower (strip user_text)))
    as [level|] eqn:E;
    repeat first [ rewrite lookup_insert_ne by discriminate | case_match ];
    rewrite ?lookup_insert_eq, ?lookup_empty; try discriminate;
    intros [= <-]; exists level; (split; [reflexivity|]);
    eapply first_level_names; exact E.
Qed.

Lemma merge_entities_level_ok (user_text t : string) (li : option string) (s : slots_t) :
  level_ok s -> level_ok (merge_entities CURRENT_YEAR user_text t li s).
Proof.
  intros Hs. rewrite merge_entities_steps. intros v.
  rewrite age_step_frame, year_step_frame, city_step_frame by discriminate.
  rewrite lookup_union.
  destruct (Nlu.extract_entities user_text !! "coverage_level") as [v0|] eqn:E.
  - destruct (s !! "coverage_level"); cbn; intros [= <-];
      now apply (extract_entities_level user_text).
  - destruct (s !! "coverage_level") as [v1|] eqn:E1; cbn; [|discriminate].
    intros [= <-]. now apply Hs.
Qed.

Lemma premium_quote_level_ok (t : string) (st st' : SessionState) (r : TurnResult) :
  level_ok (slots st) -> premium_quote t st = Return r st' -> level_ok (slots st').
Proof.
  intros Hs H.
  assert (Hb : level_ok (<["coverage_level" := VStr "basic"]> (slots st))).
  { intros v. rewrite lookup_insert_eq. intros [= <-]. exists "basic".
    split; [reflexivity|]. cbn. auto. }
  unfold premium_quote in H. cbv zeta in H.
  repeat (case_match; simplify_eq); cbn [slots with_slots]; intros lv;
    repeat first [ rewrite (lookup_insert_ne _ "horsepower") by discriminate
                 | rewrite (lookup_insert_ne _ "engine_size_l") by discriminate ];
    solve [apply Hs | apply Hb].
Qed.

Lemma level_ok_agree (s s' : slots_t) :
  s' !! "coverage_level" = s !! "coverage_level" -> level_ok s -> level_ok s'.
Proof. intros E H v Hv. rewrite E in Hv. now apply H. Qed.

Lemma dispatch_level_ok (now : Clock.datetime) (user_text : string)
  (st st' : SessionState) (r : TurnResult) :
  level_ok (slots st) ->
  dispatch now user_text st = Return r st' -> level_ok (slots st').
Proof.
  intros Hs.
  assert (Hp : level_ok (slots (pre_state user_text st))).
  { eapply level_ok_agree; [apply pre_state_merge; reflexivity|].
    now apply merge_entities_level_ok. }
  unfold dispatch. cbv zeta.
  destruct (String.eqb (pre_intent user_text st) "handoff_human"
            || _contains_any (norm user_text) handoff_phrases).
  { intros [= _ <-]. exact Hp. }
  destruct (String.eqb (pre_intent user_text st) "report_claim").
  { intros H. revert Hp.
    apply level_ok_agree; now apply (claim_intake_frame now user_text _ _ r). }
  destruct (String.eqb (pre_intent user_text st) "premium_estimate").
  { now apply premium_quote_level_ok. }
  destruct (String.eqb (pre_intent user_text st) "compare_coverage").
  { intros H. apply compare_coverage_state in H as [-> _]. exact Hp. }
  unfold doc_qa. cbv zeta. destruct (rag _ _) as [docs|]; [|discriminate].
  destruct (_qa_answer_or_followup _ _ _) as [[answer s']|] eqn:Eq; [|discriminate].
  intros [= _ <-]. revert Hp. cbn [slots with_slots].
  apply level_ok_agree. now apply (qa_frame user_text docs _ _ answer).
Qed.

Lemma reachable_level_ok (st : SessionState) : reachable st -> level_ok (slots st).
Proof.
  induction 1 as [|now user_text st st' r _ IH H].
  - intros v Hv. discriminate Hv.
  - destruct (_contains_any (norm user_text) EXIT_WORDS) eqn:He.
    + rewrite dialogue_manager_exit in H by exact He. injection H as _ <-.
      revert IH. apply level_ok_agree. now apply exit_state_slot.
    + rewrite dialogue_manager_dispatch in H by exact He.
      eapply dispatch_level_ok; eassumption.
Qed.

(** *** The horsepower estimate in the quote *)

Lemma premium_quote_estimate (t : string) (st st' : SessionState) (r : TurnResult)
  (es : Q) :
  slots st !! "horsepower" = None ->
  slots st !! "engine_size_l" = Some (VFloat es) ->
  premium_quote t st = Return r st' ->
  slots st' !! "horsepower" = Some (VInt (fst (estimate_hp_from_engine_size es))).
Proof.
  intros Hh He H. unfold premium_quote in H. cbv zeta in H.
  set (s1 := if negb (has (slots st) "coverage_level") && contains "cheapest" t
             then <["coverage_level" := VStr "basic"]> (slots st) else slots st) in H.
  assert (Hh1 : s1 !! "horsepower" = None).
  { subst s1. destruct (negb (has (slots st) "coverage_level") && contains "cheapest" t);
      [now rewrite lookup_insert_ne by discriminate|exact Hh]. }
  assert (He1 : s1 !! "engine_size_l" = Some (VFloat es)).
  { subst s1. destruct (negb (has (slots st) "coverage_level") && contains "cheapest" t);
      [now rewrite lookup_insert_ne by discriminate|exact He]. }
  assert (E1 : has s1 "horsepower" = false) by now apply has_false.
  assert (E2 : has s1 "engine_size_l" = true) by (apply has_true; eauto).
  rewrite E1, E2, He1 in H. cbn [negb andb py_float] in H.
  destruct (estimate_hp_from_engine_size es) as [hp note]. cbn [fst].
  set (s2 := <["horsepower" := VInt hp]> s1) in H.
  assert (Hs2 : s2 !! "horsepower" = Some (VInt hp)) by apply lookup_insert_eq.
  assert (E3 : has s2 "engine_size_l" = true).
  { apply has_true. subst s2. rewrite lookup_insert_ne by discriminate. eauto. }
  clearbody s2. clear Hh1 He1 E1 E2. clearbody s1.
  destruct (_missing_premium_slots s2).
  - rewrite E3 in H. cbn [negb] in H.
    repeat (case_match; simplify_eq). exact Hs2.
  - injection H as _ <-. exact Hs2.
Qed.

End SlotInvariants.

(** A session after one request for a quote. *)
Definition demo_quote_state : Dialogue.SessionState :=
  Eval vm_compute in
    default Dialogue.new_session
      (Demo.after ["I need the cheapest quote for my 2015 car in lublana"]
         Dialogue.new_session).

Lemma demo_quote_state_reachable :
  reachable (F := ExactFloat.ops) Demo.year Demo.rag demo_quote_state.
Proof.
  apply (reach_turn Demo.year Demo.rag Demo.now
           "I need the cheapest quote for my 2015 car in lublana"
           Dialogue.new_session demo_quote_state
           (Dialogue.mkTurnResult
              "About how many horsepower is the vehicle? If you don’t know, tell me engine size (e.g., 1.4 / 1.6)."
              false)).
  - apply reach_new.
  - vm_compute. reflexivity.
Defined.

(** X14. In the quote sub-flow, when the horsepower is not known and
    the engine size is, the horsepower slot is filled with the estimate
    for that engine size, a value between 95 and 200, whether the turn
    goes on to ask for another detail or to quote a price. *)
Theorem quote_estimates_horsepower {F : FloatOps} (t : string)
  (st st' : Dialogue.SessionState) (r : Dialogue.TurnResult) (es : Q) :
  Dialogue.slots st !! "horsepower" = None ->
  Dialogue.slots st !! "engine_size_l" = Some (VFloat es) ->
  Dialogue.premium_quote t st = Dialogue.Return r st' ->
  exists hp : Z,
    Dialogue.slots st' !! "horsepower" = Some (VInt hp)
    /\ hp = fst (Dialogue.estimate_hp_from_engine_size es)
    /\ 95 <= hp <= 200.
Proof.
  intros Hh He H. exists (fst (Dialogue.estimate_hp_from_engine_size es)).
  split; [now apply (premium_quote_estimate t st st' r es)|].
  split; [reflexivity|apply estimate_hp_range].
Qed.

Lemma quote_estimates_horsepower_witness :
  exists (r : Dialogue.TurnResult) (st' : Dialogue.SessionState) (hp : Z),
    Dialogue.premium_quote (F := ExactFloat.ops) "a quote please"
      (Dialogue.mkSessionState (<["engine_size_l" := VFloat 1.6]> ∅)
         (Some "premium_estimate") 1)
    = Dialogue.Return r st'
    /\ Dialogue.slots st' !! "horsepower" = Some (VInt hp)
    /\ hp = 135.
Proof.
  destruct (Dialogue.premium_quote (F := ExactFloat.ops) "a quote please"
              (Dialogue.mkSessionState (<["engine_size_l" := VFloat 1.6]> ∅)
                 (Some "premium_estimate") 1)) as [r st'|] eqn:E;
    [|vm_compute in E; discriminate E].
  destruct (quote_estimates_horsepower (F := ExactFloat.ops) "a quote please"
              (Dialogue.mkSessionState (<["engine_size_l" := VFloat 1.6]> ∅)
                 (Some "premium_estimate") 1) st' r 1.6)
    as (hp & H1 & H2 & _); [reflexivity|reflexivity|exact E|].
  exists r, st', hp. split; [reflexivity|]. split; [exact H1|]. rewrite H2. reflexivity.
Defined.

(** X15. The vehicle age follows the vehicle year: in every state a
    session can reach, if the vehicle_year slot holds a year between
    1950 and the current year, the vehicle_age slot holds the current
    year minus that year, whatever age the caller may have stated
    since. *)
Theorem vehicle_age_follows_year {F : FloatOps} (CURRENT_YEAR : Z)
  (rag : Dialogue.RAGIndex) (st : Dialogue.SessionState) (v : value) (y : Z) :
  reachable CURRENT_YEAR rag st ->
  Dialogue.slots st !! "vehicle_year" = Some v ->
  py_int v = Some y ->
  1950 <= y <= CURRENT_YEAR ->
  Dialogue.slots st !! "vehicle_age" = Some (VInt (CURRENT_YEAR - y)).
Proof.
  intros Hr. apply (reachable_age_ok CURRENT_YEAR rag st Hr).
Qed.

Lemma vehicle_age_follows_year_witness :
  Dialogue.slots demo_quote_state !! "vehicle_age" = Some (VInt (Demo.year - 2015)).
Proof.
  apply (vehicle_age_follows_year (F := ExactFloat.ops) Demo.year Demo.rag
           demo_quote_state (VInt 2015) 2015).
  - exact demo_quote_state_reachable.
  - reflexivity.
  - reflexivity.
  - unfold Demo.year. lia.
Defined.

(** X16. The city is stored in normal form: in every state a session
    can reach, the city slot, when present, holds a text that
    [normalize_city] leaves unchanged. *)
Theorem stored_city_is_normalized {F : FloatOps} (CURRENT_YEAR : Z)
  (rag : Dialogue.RAGIndex) (st : Dialogue.SessionState) (v : value) :
  reachable CURRENT_YEAR rag st ->
  Dialogue.slots st !! "city" = Some v ->
  exists c : string, v = VStr c /\ Dialogue.normalize_city c = c.
Proof.
  intros Hr. apply (reachable_city_ok CURRENT_YEAR rag st Hr).
Qed.

Lemma stored_city_is_normalized_witness :
  exists c : string,
    VStr "Ljubljana" = VStr c /\ Dialogue.normalize_city c = c.
Proof.
  apply (stored_city_is_normalized (F := ExactFloat.ops) Demo.year Demo.rag
           demo_quote_state (VStr "Ljubljana")).
  - exact demo_quote_state_reachable.
  - reflexivity.
Defined.

(** X17. The coverage level of a session is always a key of the price
    table: in every state a session can reach, the coverage_level slot,
    when present, holds one of basic, standard and premium, so the
    KeyError of [calculate_premium] cannot occur on it. *)
Theorem stored_coverage_level_is_priced {F : FloatOps} (CURRENT_YEAR : Z)
  (rag : Dialogue.RAGIndex) (st : Dialogue.SessionState) (v : value) :
  reachable CURRENT_YEAR rag st ->
  Dialogue.slots st !! "coverage_level" = Some v ->
  exists level : string,
    v = VStr level
    /\ In level ["basic"; "standard"; "premium"]
    /\ forall (vehicle_age horsepower : Z) (city : string),
         Premium.calculate_premium vehicle_age horsepower city (PyStr.lower level) <> None.
Proof.
  intros Hr Hv.
  destruct (reachable_level_ok CURRENT_YEAR rag st Hr v Hv) as (level & -> & Hl).
  exists level. split; [reflexivity|]. split; [exact Hl|].
  intros a h c. unfold Dialogue.coverage_levels in Hl. cbn [In] in Hl.
  destruct Hl as [<- | [<- | [<- | []]]]; discriminate.
Qed.

Lemma stored_coverage_level_is_priced_witness :
  exists level : string,
    VStr "basic" = VStr level
    /\ In level ["basic"; "standard"; "premium"]
    /\ forall (vehicle_age horsepower : Z) (city : string),
         Premium.calculate_premium (F := ExactFloat.ops) vehicle_age horsepower city
           (PyStr.lower level) <> None.
Proof.
  apply (stored_coverage_level_is_priced (F := ExactFloat.ops) Demo.year Demo.rag
           demo_quote_state (VStr "basic")).
  - exact demo_quote_state_reachable.
  - reflexivity.
Defined.

(** ** The question of the quote *)

Section QuoteQuestion.
Import PyStr Re Dialogue.
Context {F : FloatOps}.

Lemma premium_missing_insert_other (s : slots_t) (a : string) (v : value) :
  ~ In a premium_needed ->
  _missing_premium_slots (<[a := v]> s) = _missing_premium_slots s.
Proof.
  intros Ha. unfold _missing_premium_slots. apply List.filter_ext_in.
  intros f Hf. unfold has. f_equal. apply bool_decide_ext.
  rewrite lookup_insert_ne; [tauto|]. intros ->. contradiction.
Qed.

(** The first missing quote slot: every slot before it in the fixed
    order is present, and it is absent. *)
Lemma premium_missing_first (s : slots_t) (k : string) (rest : list string) :
  _missing_premium_slots s = k :: rest ->
  exists pre post,
    premium_needed = (pre ++ k :: post)%list
    /\ Forall (fun f => is_Some (s !! f)) pre
    /\ s !! k = None.
Proof.
  intros H. apply filter_head in H as (pre & post & E & Hpre & Hk & _).
  exists pre, post. repeat split; [exact E| |].
  - eapply List.Forall_impl; [|exact Hpre]. intros f Hf. cbn beta in Hf.
    now apply negb_false_iff, has_true in Hf.
  - now apply negb_true_iff, has_false in Hk.
Qed.

Lemma premium_quote_question (t : string) (st st' : SessionState) (r : TurnResult)
  (k : string) (rest : list string) :
  premium_quote t st = Return r st' ->
  _missing_premium_slots (slots st') = k :: rest ->
  exists note : string,
    response_text r = note ++ _ask_one_missing (k :: rest) (slots st')
    /\ (note = ""
        \/ exists es : Q,
             note = "(Using ~" ++ pretty (fst (estimate_hp_from_engine_size es))
                    ++ " HP " ++ snd (estimate_hp_from_engine_size es) ++ ".) ").
Proof.
  intros H Hm. unfold premium_quote in H. cbv zeta in H.
  set (s1 := if negb (has (slots st) "coverage_level") && contains "cheapest" t
             then <["coverage_level" := VStr "basic"]> (slots st) else slots st) in H.
  clearbody s1.
  match type of H with
  | (match ?e with (_, _) => _ end) = _ => set (p := e) in H
  end.
  assert (Hn : fst p = ""
               \/ exists es : Q,
                    fst p = "(Using ~" ++ pretty (fst (estimate_hp_from_engine_size es))
                            ++ " HP " ++ snd (estimate_hp_from_engine_size es) ++ ".) ").
  { subst p. destruct (negb (has s1 "horsepower") && has s1 "engine_size_l");
      [|now left].
    destruct (s1 !! "engine_size_l") as [v|]; [|now left].
    destruct (py_float v) as [es|]; [|now left].
    right. exists es. now destruct (estimate_hp_from_engine_size es). }
  clearbody p. destruct p as [hp_note s2]. cbn [fst] in Hn. cbv beta iota in H.
  revert H. destruct (_missing_premium_slots s2) as [|k0 rest0] eqn:Em; intros H.
  - exfalso.
    assert (Hm' : _missing_premium_slots (slots st') = []).
    { repeat (case_match; simplify_eq); cbn [slots with_slots];
        rewrite ?premium_missing_insert_other; try exact Em;
        unfold premium_needed; cbn [In]; intuition discriminate. }
    congruence.
  - injection H as <- <-. cbn [slots with_slots response_text] in *.
    rewrite Em in Hm. injection Hm as <- <-. now exists hp_note.
Qed.

End QuoteQuestion.

(** X18. The quote sub-flow asks for the first missing detail: when it
    returns and one of the four slots of a quote is still missing, the
    reply is the question for the first missing one in the order
    vehicle_age, horsepower, city, coverage_level, every slot before it
    being present; the question is preceded by the note about an
    estimated horsepower or by nothing, and no price is quoted. *)
Theorem quote_asks_first_missing {F : FloatOps} (t : string)
  (st st' : Dialogue.SessionState) (r : Dialogue.TurnResult) (k : string)
  (rest : list string) :
  Dialogue.premium_quote t st = Dialogue.Return r st' ->
  Dialogue._missing_premium_slots (Dialogue.slots st') = k :: rest ->
  (exists pre post : list string,
     ["vehicle_age"; "horsepower"; "city"; "coverage_level"] = (pre ++ k :: post)%list
     /\ Forall (fun f => is_Some (Dialogue.slots st' !! f)) pre
     /\ Dialogue.slots st' !! k = None)
  /\ exists note : string,
       Dialogue.response_text r
       = note ++ Dialogue._ask_one_missing (k :: rest) (Dialogue.slots st')
       /\ (note = ""
           \/ exists hp : Z,
                note = "(Using ~" ++ pretty hp ++ " HP estimated from engine size.) ").
Proof.
  intros H Hm. split; [now apply (premium_missing_first _ k rest)|].
  destruct (premium_quote_question t st st' r k rest H Hm) as (note & Hr & Hn).
  exists note. split; [exact Hr|].
  destruct Hn as [-> | [es ->]]; [now left|right].
  exists (fst (Dialogue.estimate_hp_from_engine_size es)).
  assert (En : snd (Dialogue.estimate_hp_from_engine_size es) = "estimated from engine size").
  { unfold Dialogue.estimate_hp_from_engine_size. repeat case_match; reflexivity. }
  rewrite En. reflexivity.
Qed.

Lemma quote_asks_first_missing_witness :
  exists (r : Dialogue.TurnResult) (st' : Dialogue.SessionState),
    Dialogue.premium_quote (F := ExactFloat.ops) "a quote please" demo_quote_state
    = Dialogue.Return r st'
    /\ exists note : string,
         Dialogue.response_text r
         = note ++ "About how many horsepower is the vehicle? If you don’t know, tell me engine size (e.g., 1.4 / 1.6).".
Proof.
  destruct (Dialogue.premium_quote (F := ExactFloat.ops) "a quote please" demo_quote_state)
    as [r st'|] eqn:E; [|vm_compute in E; discriminate E].
  exists r, st'. split; [reflexivity|].
  assert (Hs : st' = demo_quote_state) by (vm_compute in E; now injection E as _ <-).
  destruct (quote_asks_first_missing (F := ExactFloat.ops) "a quote please"
              demo_quote_state st' r "horsepower" []) as (_ & note & Hr & _);
    [exact E|rewrite Hs; reflexivity|].
  exists note. rewrite Hr, Hs. reflexivity.
Defined.

(* ===================================================================== *)
(** * app_common.py and app.py: the text front end *)
(* ===================================================================== *)

Module AppCommon.
Import PyStr.

Definition EXIT_PHRASES : list string :=
  ["hang up"; "goodbye"; "bye"; "exit"; "quit"; "stop"; "end"; "terminate";
   "close"; "disconnect"].

(** [print_agent]: the panels it prints, none for a blank text, and the
    cleaned text it returns. *)
Definition print_agent (text : string) : list string * string :=
  let cleaned := strip text in
  (if negb (String.eqb cleaned "") then [cleaned] else [], cleaned).

(** [t in set(p.lower() for p in phrases)] *)
Definition is_exit_phrase (user_text : string) (phrases : list string) : bool :=
  let t := lower (strip user_text) in
  mem t (List.map lower phrases).

End AppCommon.

(** app.py. The lines read by [console.input] are a list, each with
    the clock reading of the turn it starts; the panels printed are
    collected in a list. *)
Module App.
Import PyStr Dialogue AppCommon.

Section WithFloat.
Context {F : FloatOps}.
Variables (CURRENT_YEAR : Z) (rag : RAGIndex).

Definition GREETING : string :=
  "Hello! Before we start: this conversation will be recorded for quality and claims handling in line with GDPR. " ++
  "By continuing, you consent to this recording. How can I help today?".

(** How [start_call] ends: by a [break]; by the [EOFError] of
    [console.input] when no line is left; or by an exception of
    [dialogue_manager]. *)
Inductive call_outcome : Type :=
| Ended (shown : list string) (st : SessionState)
| Starved (shown : list string) (st : SessionState)
| Failed (shown : list string).

(** The [while True] loop of [start_call]. *)
Fixpoint call_loop (lines : list (Clock.datetime * string)) (st : SessionState)
  (shown : list string) : call_outcome :=
  match lines with
  | [] => Starved shown st
  | (now, line) :: lines' =>
      let user := strip line in
      if String.eqb user "" then call_loop lines' st shown
      else if is_exit_phrase user EXIT_PHRASES then Ended shown st
      else
        match dialogue_manager CURRENT_YEAR now rag user st with
        | Raise => Failed shown
        | Return result st' =>
            let shown := (shown ++ fst (print_agent (response_text result)))%list in
            if end_call result then Ended shown st' else call_loop lines' st' shown
        end
  end.

Definition start_call (lines : list (Clock.datetime * string)) : call_outcome :=
  call_loop lines new_session (fst (print_agent GREETING)).

End WithFloat.
End App.

Example start_call_ex :
  App.start_call (F := ExactFloat.ops) Demo.year Demo.rag
    [(Demo.now, "   "); (Demo.now, "I had a crash"); (Demo.now, " Bye ");
     (Demo.now, "hello?")]
  = App.Ended
      [App.GREETING;
       "What is your insurance/policy number? (You can read it as it appears on your policy card.)"]
      (default Dialogue.new_session (Demo.after ["I had a crash"] Dialogue.new_session)).
Proof. vm_compute. reflexivity. Qed.

Section FrontEnd.
Import PyStr Dialogue AppCommon App.
Context {F : FloatOps}.
Variables (CURRENT_YEAR : Z) (rag : RAGIndex).

Local Abbreviation call_loop := (call_loop CURRENT_YEAR rag).

Lemma is_exit_phrase_exact (user_text : string) :
  is_exit_phrase user_text EXIT_PHRASES = mem (strip (lower user_text)) EXIT_WORDS.
Proof. unfold is_exit_phrase. cbv zeta. now rewrite strip_lower. Qed.

Lemma is_exit_phrase_strip (user_text : string) :
  is_exit_phrase (strip user_text) EXIT_PHRASES = is_exit_phrase user_text EXIT_PHRASES.
Proof. unfold is_exit_phrase. cbv zeta. now rewrite strip_idemp. Qed.

Lemma is_exit_phrase_not_blank (user_text : string) :
  is_exit_phrase user_text EXIT_PHRASES = true -> String.eqb (strip user_text) "" = false.
Proof.
  unfold is_exit_phrase. cbv zeta. intros H.
  destruct (String.eqb (strip user_text) "") eqn:E; [|reflexivity].
  apply String.eqb_eq in E. rewrite E in H. discriminate H.
Qed.

(** The lines that are not blank. *)
Definition spoken (lines : list (Clock.datetime * string)) : list (Clock.datetime * string) :=
  List.filter (fun l => negb (String.eqb (strip (snd l)) "")) lines.

Lemma dialogue_manager_turns (now : Clock.datetime) (user_text : string)
  (st st' : SessionState) (r : TurnResult) :
  dialogue_manager CURRENT_YEAR now rag user_text st = Return r st' ->
  turns st' = turns st + 1.
Proof.
  intros H. destruct (_contains_any (norm user_text) EXIT_WORDS) eqn:He.
  - rewrite dialogue_manager_exit in H by exact He. now injection H as _ <-.
  - rewrite dialogue_manager_dispatch in H by exact He.
    now apply dispatch_result in H as (_ & Ht & _).
Qed.

Lemma call_loop_turns (lines : list (Clock.datetime * string)) :
  forall (st : SessionState) (shown : list string),
    match call_loop lines st shown with
    | Starved _ st' => turns st' = turns st + Z.of_nat (length (spoken lines))
    | Ended _ st' => turns st <= turns st' <= turns st + Z.of_nat (length (spoken lines))
    | Failed _ => True
    end.
Proof.
  induction lines as [|[now line] lines IH]; intros st shown.
  - cbn. lia.
  - cbn [App.call_loop spoken List.filter snd].
    destruct (String.eqb (strip line) "") eqn:Eb; cbn [negb].
    + apply IH.
    + cbn [length]. destruct (is_exit_phrase (strip line) EXIT_PHRASES); [lia|].
      destruct (dialogue_manager CURRENT_YEAR now rag (strip line) st) as [r st'|] eqn:Ed;
        [|exact I].
      apply dialogue_manager_turns in Ed.
      destruct (end_call r); [lia|].
      specialize (IH st' (shown ++ fst (print_agent (response_text r)))%list).
      fold (spoken lines).
      destruct (App.call_loop CURRENT_YEAR rag lines st' _); [lia|lia|exact I].
Qed.

Lemma call_loop_app (l1 l2 : list (Clock.datetime * string)) :
  forall (st : SessionState) (shown : list string),
    call_loop (l1 ++ l2)%list st shown
    = match call_loop l1 st shown with
      | Starved shown' st' => call_loop l2 st' shown'
      | other => other
      end.
Proof.
  induction l1 as [|[now line] l1 IH]; intros st shown; [reflexivity|].
  cbn [App.call_loop app].
  destruct (String.eqb (strip line) ""); [apply IH|].
  destruct (is_exit_phrase (strip line) EXIT_PHRASES); [reflexivity|].
  destruct (dialogue_manager CURRENT_YEAR now rag (strip line) st) as [r st'|];
    [|reflexivity].
  destruct (end_call r); [reflexivity|apply IH].
Qed.

End FrontEnd.

(** X19. The exit test of the front end is the exact-match form of the
    exit check of the dialogue manager: [is_exit_phrase] holds exactly
    when the trimmed, lower-cased input is one of the ten exit words,
    and every input it accepts would also end the call inside
    [dialogue_manager], which accepts any text that contains one. *)
Theorem front_end_exit_is_exact {F : FloatOps} (CURRENT_YEAR : Z)
  (now : Clock.datetime) (rag : Dialogue.RAGIndex) (user_text : string)
  (st : Dialogue.SessionState) :
  AppCommon.is_exit_phrase user_text AppCommon.EXIT_PHRASES
  = PyStr.mem (PyStr.strip (PyStr.lower user_text)) Dialogue.EXIT_WORDS
  /\ (AppCommon.is_exit_phrase user_text AppCommon.EXIT_PHRASES = true ->
      exists st' : Dialogue.SessionState,
        Dialogue.dialogue_manager CURRENT_YEAR now rag user_text st
        = Dialogue.Return
            (Dialogue.mkTurnResult "Okay — ending the call. Goodbye!" true) st').
Proof.
  split; [apply is_exit_phrase_exact|].
  rewrite is_exit_phrase_exact. intros H. exists (exit_state st).
  apply dialogue_manager_exit. now apply exact_exit_phrase_contained.
Qed.

Lemma front_end_exit_is_exact_witness :
  AppCommon.is_exit_phrase " Hang Up " AppCommon.EXIT_PHRASES = true
  /\ exists st' : Dialogue.SessionState,
       Demo.turn " Hang Up " Dialogue.new_session
       = Dialogue.Return
           (Dialogue.mkTurnResult "Okay — ending the call. Goodbye!" true) st'.
Proof.
  split; [reflexivity|].
  apply (front_end_exit_is_exact (F := ExactFloat.ops) Demo.year Demo.now Demo.rag
           " Hang Up " Dialogue.new_session).
  reflexivity.
Defined.

(** X20. The text front end counts one turn for each line that reaches
    the dialogue manager and none for a blank line: when the input runs
    out, the turn counter of the session has grown by the number of
    non-blank lines read; when the call has ended before, it has grown
    by at most that number. *)
Theorem call_counts_spoken_lines {F : FloatOps} (CURRENT_YEAR : Z)
  (rag : Dialogue.RAGIndex) (lines : list (Clock.datetime * string))
  (st st' : Dialogue.SessionState) (shown shown' : list string) :
  (App.call_loop CURRENT_YEAR rag lines st shown = App.Starved shown' st' ->
   Dialogue.turns st' = Dialogue.turns st + Z.of_nat (length (spoken lines)))
  /\ (App.call_loop CURRENT_YEAR rag lines st shown = App.Ended shown' st' ->
      Dialogue.turns st <= Dialogue.turns st'
      <= Dialogue.turns st + Z.of_nat (length (spoken lines))).
Proof.
  pose proof (call_loop_turns CURRENT_YEAR rag lines st shown) as H.
  split; intros E; rewrite E in H; exact H.
Qed.

Lemma call_counts_spoken_lines_witness :
  exists (shown' : list string) (st' : Dialogue.SessionState),
    App.call_loop (F := ExactFloat.ops) Demo.year Demo.rag
      [(Demo.now, "I had a crash"); (Demo.now, "  "); (Demo.now, "123456")]
      Dialogue.new_session []
    = App.Starved shown' st'
    /\ Dialogue.turns st' = 2.
Proof.
  destruct (App.call_loop (F := ExactFloat.ops) Demo.year Demo.rag
              [(Demo.now, "I had a crash"); (Demo.now, "  "); (Demo.now, "123456")]
              Dialogue.new_session []) as [shown' st'|shown' st'|shown'] eqn:E;
    [vm_compute in E; discriminate E| |vm_compute in E; discriminate E].
  exists shown', st'. split; [reflexivity|].
  destruct (call_counts_spoken_lines (F := ExactFloat.ops) Demo.year Demo.rag
              [(Demo.now, "I had a crash"); (Demo.now, "  "); (Demo.now, "123456")]
              Dialogue.new_session st' [] shown') as [H _].
  rewrite (H E). reflexivity.
Defined.

(** X21. Typing an exact exit phrase hangs up silently: whatever was
    said before, if the call is still open and the next line is, once
    trimmed and lower-cased, one of the exit phrases, the loop breaks
    with the panels and the session state exactly as they were. The
    dialogue manager is not called, so no farewell is shown, no turn is
    counted, a claim intake in progress keeps its flags, and the lines
    after it are never read. *)
Theorem exact_exit_phrase_hangs_up_silently {F : FloatOps} (CURRENT_YEAR : Z)
  (rag : Dialogue.RAGIndex) (before after : list (Clock.datetime * string))
  (now : Clock.datetime) (line : string)
  (st st1 : Dialogue.SessionState) (shown shown1 : list string) :
  App.call_loop CURRENT_YEAR rag before st shown = App.Starved shown1 st1 ->
  AppCommon.is_exit_phrase line AppCommon.EXIT_PHRASES = true ->
  App.call_loop CURRENT_YEAR rag (before ++ (now, line) :: after)%list st shown
  = App.Ended shown1 st1.
Proof.
  intros Hb Hx. rewrite call_loop_app, Hb. cbn [App.call_loop].
  rewrite (is_exit_phrase_not_blank line Hx).
  now rewrite is_exit_phrase_strip, Hx.
Qed.

Lemma exact_exit_phrase_hangs_up_silently_witness :
  App.call_loop (F := ExactFloat.ops) Demo.year Demo.rag
    ([(Demo.now, "I had a crash")] ++ (Demo.now, " BYE ") :: [(Demo.now, "hello?")])%list
    Dialogue.new_session []
  = App.Ended
      ["What is your insurance/policy number? (You can read it as it appears on your policy card.)"]
      (default Dialogue.new_session (Demo.after ["I had a crash"] Dialogue.new_session)).
Proof.
  apply (exact_exit_phrase_hangs_up_silently (F := ExactFloat.ops) Demo.year Demo.rag
           [(Demo.now, "I had a crash")] [(Demo.now, "hello?")] Demo.now " BYE ").
  - vm_compute. reflexivity.
  - reflexivity.
Defined.

(* ===================================================================== *)
(** * rag.py: the chunks of a document *)
(* ===================================================================== *)

Module Rag.
Import PyStr.

(** [text[i:j]] for an index [i] that is not negative: a negative [j]
    counts from the end, and both ends are clipped to the text. *)
Definition slice (text : string) (i j : Z) : string :=
  let n := Z.of_nat (String.length text) in
  let stop := if j <? 0 then Z.max 0 (j + n) else Z.min j n in
  let start := Z.min i n in
  if start <? stop
  then String.substring (Z.to_nat start) (Z.to_nat (stop - start)) text
  else "".

(** The [while i < len(text)] loop of [_chunk_text]; [None] when the
    fuel runs out. *)
Fixpoint chunk_loop (fuel : nat) (text : string) (chunk_size overlap : Z)
  (i : Z) (chunks : list string) : option (list string) :=
  if i <? Z.of_nat (String.length text) then
    match fuel with
    | O => None
    | S fuel' =>
        let chunk := slice text i (i + chunk_size) in
        chunk_loop fuel' text chunk_size overlap
          (i + Z.max 1 (chunk_size - overlap)) (chunks ++ [strip chunk])
    end
  else Some chunks.

(** [RAGIndex._chunk_text]; the defaults are [chunk_size=500] and
    [overlap=80]. *)
Definition _chunk_text (text : string) (chunk_size overlap : Z) : option (list string) :=
  match chunk_loop (String.length text) text chunk_size overlap 0 [] with
  | Some chunks => Some (List.filter (fun c => negb (String.eqb c "")) chunks)
  | None => None
  end.

End Rag.

Example chunk_text_ex :
  Rag._chunk_text "  alpha beta  gamma delta " 12 4
  = Some ["alpha beta"; "beta  gamma"; "mma delta"; "a"].
Proof. vm_compute. reflexivity. Qed.
Example chunk_text_negative_ex :
  Rag._chunk_text "abcdef" (-2) 0 = Some ["abcd"; "bcde"].
Proof. vm_compute. reflexivity. Qed.
Example chunk_text_overlap_ex :
  Rag._chunk_text " a b " 2 5 = Some ["a"; "a"; "b"; "b"].
Proof. vm_compute. reflexivity. Qed.

Section Chunks.
Import PyStr Rag.

Lemma length_lstrip_le (s : string) : (String.length (lstrip s) <= String.length s)%nat.
Proof.
  induction s as [|c s IH]; cbn [lstrip String.length]; [lia|].
  destruct (is_space c); cbn [String.length]; lia.
Qed.

Lemma length_rstrip_le (s : string) : (String.length (rstrip s) <= String.length s)%nat.
Proof.
  induction s as [|c s IH]; cbn [rstrip String.length]; [lia|].
  destruct (rstrip s) as [|c' r]; cbn [String.length] in *.
  - destruct (is_space c); cbn [String.length]; lia.
  - lia.
Qed.

Lemma length_strip_le (s : string) : (String.length (strip s) <= String.length s)%nat.
Proof.
  unfold strip. pose proof (length_rstrip_le (lstrip s)). pose proof (length_lstrip_le s).
  lia.
Qed.

Lemma length_substring_le (s : string) : forall n m : nat,
  (String.length (String.substring n m s) <= m)%nat.
Proof.
  induction s as [|c s IH]; intros n m.
  - destruct n, m; cbn; lia.
  - destruct n as [|n].
    + destruct m as [|m]; cbn [String.substring String.length]; [lia|].
      specialize (IH 0%nat m). lia.
    + cbn [String.substring]. apply IH.
Qed.

Lemma length_slice_le (text : string) (i size : Z) :
  0 <= i -> 0 <= size ->
  (String.length (slice text i (i + size)) <= Z.to_nat size)%nat.
Proof.
  intros Hi Hs. unfold slice. cbv zeta.
  assert (E : (i + size <? 0) = false) by (apply Z.ltb_ge; lia). rewrite E.
  destruct (Z.min i _ <? Z.min (i + size) _) eqn:El; [|cbn; lia].
  apply Z.ltb_lt in El.
  etransitivity; [apply length_substring_le|]. lia.
Qed.

(** What the loop adds to the list: one stripped window per round. *)
Lemma chunk_loop_chunks (text : string) (chunk_size overlap : Z) (P : string -> Prop) :
  (forall i : Z, 0 <= i -> P (strip (slice text i (i + chunk_size)))) ->
  forall (fuel : nat) (i : Z) (chunks out : list string),
    0 <= i -> Forall P chunks ->
    chunk_loop fuel text chunk_size overlap i chunks = Some out ->
    Forall P out
    /\ (length out <= length chunks + Z.to_nat (Z.of_nat (String.length text) - i))%nat.
Proof.
  intros HP. induction fuel as [|fuel IH]; intros i chunks out Hi Hc;
    cbn [chunk_loop]; destruct (i <? Z.of_nat (String.length text)) eqn:El;
    try discriminate.
  - intros [= <-]. split; [exact Hc|lia].
  - cbv zeta. intros H. apply Z.ltb_lt in El.
    apply IH in H; [|lia|apply Forall_app; split; [exact Hc|]; repeat constructor; now apply HP].
    destruct H as [H1 H2]. split; [exact H1|].
    rewrite length_app in H2. cbn [length] in H2. lia.
  - intros [= <-]. split; [exact Hc|lia].
Qed.

(** The loop ends before the fuel does. *)
Lemma chunk_loop_returns (text : string) (chunk_size overlap : Z) :
  forall (fuel : nat) (i : Z) (chunks : list string),
    Z.of_nat (String.length text) - i <= Z.of_nat fuel ->
    exists out : list string,
      chunk_loop fuel text chunk_size overlap i chunks = Some out.
Proof.
  induction fuel as [|fuel IH]; intros i chunks Hf; cbn [chunk_loop];
    destruct (i <? Z.of_nat (String.length text)) eqn:El; eauto.
  - apply Z.ltb_lt in El. lia.
  - cbv zeta. apply IH. apply Z.ltb_lt in El. lia.
Qed.

End Chunks.

(** X22. The chunking of a document, for every text, chunk size and
    overlap (sizes that are zero or negative, or an overlap larger than
    the chunk, included): the loop ends and returns a list; no chunk is
    empty; every chunk is trimmed; when the chunk size is not negative
    no chunk is longer than it; and there are at most as many chunks as
    the text has characters. *)
Theorem chunk_text_chunks (text : string) (chunk_size overlap : Z) :
  exists chunks : list string,
    Rag._chunk_text text chunk_size overlap = Some chunks
    /\ Forall (fun c => c <> ""
                        /\ PyStr.strip c = c
                        /\ (0 <= chunk_size ->
                            Z.of_nat (String.length c) <= chunk_size)) chunks
    /\ (length chunks <= String.length text)%nat.
Proof.
  unfold Rag._chunk_text.
  destruct (chunk_loop_returns text chunk_size overlap (String.length text) 0 [])
    as [out Hout]; [lia|].
  rewrite Hout. eexists. split; [reflexivity|].
  destruct (chunk_loop_chunks text chunk_size overlap
              (fun c => PyStr.strip c = c
                        /\ (0 <= chunk_size -> Z.of_nat (String.length c) <= chunk_size))
              ) with (fuel := String.length text) (i := 0) (chunks := @nil string)
                     (out := out) as [H1 H2]; [|lia|constructor|exact Hout|].
  - intros i Hi. split; [apply strip_idemp|]. intros Hs.
    pose proof (length_strip_le (Rag.slice text i (i + chunk_size))).
    pose proof (length_slice_le text i chunk_size Hi Hs). lia.
  - split.
    + apply List.Forall_forall. intros c Hc. apply List.filter_In in Hc as [Hc Hn].
      rewrite List.Forall_forall in H1. destruct (H1 c Hc) as [Ha Hb].
      repeat split; [|exact Ha|exact Hb].
      intros ->. discriminate Hn.
    + etransitivity; [apply List.filter_length_le|]. cbn [length] in H2. lia.
Qed.

(* ===================================================================== *)
(** * What a match of a pattern consists of *)
(* ===================================================================== *)

Section RegexSemantics.
Import PyStr Re.

(** [n] rounds of a relation on positions. *)
Fixpoint iter (R : mstate -> mstate -> Prop) (n : nat) (s s' : mstate) : Prop :=
  match n with
  | O => s' = s
  | S n' => exists s1 : mstate, R s s1 /\ iter R n' s1 s'
  end.

(** [re_matches r s s']: the pattern [r] can take the matcher from the
    position [s] to the position [s']. *)
Fixpoint re_matches (r : regex) (s s' : mstate) : Prop :=
  match r with
  | Eps => s' = s
  | Chr p =>
      exists (c : ascii) (tl : string),
        rest s = String c tl /\ p c = true /\ s' = MState (Some c) tl (caps s)
  | Cat r1 r2 => exists s1 : mstate, re_matches r1 s s1 /\ re_matches r2 s1 s'
  | Alt r1 r2 => re_matches r1 s s' \/ re_matches r2 s s'
  | Rep _ lo hi r' =>
      exists n : nat,
        (lo <= n)%nat
        /\ match hi with Some h => (n <= h)%nat | None => True end
        /\ iter (re_matches r') n s s'
  | Grp i r' =>
      exists s1 : mstate,
        re_matches r' s s1
        /\ s' = MState (prev s1) (rest s1) ((i, consumed s s1) :: caps s1)
  | WordB => s' = s /\ xorb (word_before s) (word_after s) = true
  | Bos => s' = s /\ prev s = None
  | Eos =>
      s' = s
      /\ (rest s = ""
          \/ exists c : ascii, rest s = String c "" /\ Nat.eqb (code c) 10 = true)
  | Behind p => s' = s /\ exists c : ascii, prev s = Some c /\ p c = true
  end.

(** The matcher finds only matches: when it succeeds, the pattern has
    taken it to a position from which the continuation succeeds. *)
Lemma rmatch_sound (r : regex) :
  forall (A : Type) (k : mstate -> option A) (s : mstate) (a : A),
    rmatch r k s = Some a -> exists s' : mstate, re_matches r s s' /\ k s' = Some a.
Proof.
  induction r as [|p|r1 IH1 r2 IH2|r1 IH1 r2 IH2|greedy lo hi r IH|i r IH| | | |p];
    intros A k s a; cbn [rmatch re_matches].
  - intros H. now exists s.
  - destruct (rest s) as [|c tl] eqn:E; [discriminate|].
    destruct (p c) eqn:Ep; [|discriminate]. intros H.
    exists (MState (Some c) tl (caps s)). split; [|exact H]. now exists c, tl.
  - intros H. apply IH1 in H as (s1 & H1 & H). apply IH2 in H as (s2 & H2 & H).
    exists s2. split; [|exact H]. now exists s1.
  - destruct (rmatch r1 k s) as [a1|] eqn:E1.
    + intros [= <-]. apply IH1 in E1 as (s' & H1 & H). exists s'. split; [now left|exact H].
    + intros H. apply IH2 in H as (s' & H2 & H). exists s'. split; [now right|exact H].
  - (* repetition *)
    assert (Hloop : forall (fuel n : nat) (s0 : mstate),
      (n = O \/ match hi with Some h => (n <= h)%nat | None => True end) ->
      (fix loop (fuel n : nat) (s : mstate) {struct fuel} : option A :=
         let stop (_ : unit) := if Nat.leb lo n then k s else None in
         let more (_ : unit) :=
           match fuel with
           | O => None
           | S fuel' =>
               if within hi n
               then rmatch r
                      (fun s' =>
                         if Nat.ltb (String.length (rest s')) (String.length (rest s))
                         then loop fuel' (S n) s' else None) s
               else None
           end in
         if greedy
         then match more tt with Some a => Some a | None => stop tt end
         else match stop tt with Some a => Some a | None => more tt end) fuel n s0
      = Some a ->
      exists (m : nat) (s' : mstate),
        iter (re_matches r) m s0 s' /\ (lo <= n + m)%nat
        /\ ((n + m)%nat = O \/ match hi with Some h => (n + m <= h)%nat | None => True end)
        /\ k s' = Some a).
    { induction fuel as [|fuel IHf]; intros n s0 Hn.
      - (* no fuel: only the stop *)
        cbv zeta. intros H.
        assert (Hs : (if Nat.leb lo n then k s0 else None) = Some a).
        { destruct greedy; [exact H|].
          destruct (if Nat.leb lo n then k s0 else None); [exact H|discriminate]. }
        destruct (Nat.leb lo n) eqn:El; [|discriminate].
        apply Nat.leb_le in El. exists O, s0. rewrite Nat.add_0_r.
        repeat split; [exact El|exact Hn|exact Hs].
      - cbv zeta. intros H.
        assert (Hcases :
          (if Nat.leb lo n then k s0 else None) = Some a
          \/ (within hi n = true
              /\ rmatch r
                   (fun s' =>
                      if Nat.ltb (String.length (rest s')) (String.length (rest s0))
                      then (fix loop (fuel n : nat) (s : mstate) {struct fuel} : option A :=
                              let stop (_ : unit) := if Nat.leb lo n then k s else None in
                              let more (_ : unit) :=
                                match fuel with
                                | O => None
                                | S fuel' =>
                                    if within hi n
                                    then rmatch r
                                           (fun s' =>
                                              if Nat.ltb (String.length (rest s'))
                                                   (String.length (rest s))
                                              then loop fuel' (S n) s' else None) s
                                    else None
                                end in
                              if greedy
                              then match more tt with Some a => Some a | None => stop tt end
                              else match stop tt with Some a => Some a | None => more tt end)
                             fuel (S n) s'
                      else None) s0 = Some a)).
        { destruct greedy.
          - destruct (within hi n) eqn:Ew.
            + match type of H with
              | match ?e with Some _ => _ | None => _ end = _ =>
                  destruct e as [a1|] eqn:Em
              end.
              * right. split; [reflexivity|]. now rewrite <- H.
              * left. exact H.
            + left. exact H.
          - destruct (if Nat.leb lo n then k s0 else None) as [a1|] eqn:Es.
            + left. exact H.
            + right. destruct (within hi n); [split; [reflexivity|exact H]|discriminate]. }
        destruct Hcases as [Hs | [Hw Hm]].
        + destruct (Nat.leb lo n) eqn:El; [|discriminate].
          apply Nat.leb_le in El. exists O, s0. rewrite Nat.add_0_r.
          repeat split; [exact El|exact Hn|exact Hs].
        + apply IH in Hm as (s1 & H1 & Hm).
          destruct (Nat.ltb (String.length (rest s1)) (String.length (rest s0)));
            [|discriminate].
          apply IHf in Hm as (m & s' & Hi & Hlo & Hhi & Hk).
          * exists (S m), s'. replace (n + S m)%nat with (S n + m)%nat by lia.
            repeat split; [now exists s1|exact Hlo|exact Hhi|exact Hk].
          * right. unfold within in Hw. destruct hi as [h|]; [|exact I].
            apply Nat.ltb_lt in Hw. lia. }
    intros H. apply Hloop in H as (m & s' & Hi & Hlo & Hhi & Hk); [|now left].
    exists s'. split; [|exact Hk]. exists m. cbn [Nat.add] in *.
    repeat split; [exact Hlo| |exact Hi].
    destruct Hhi as [-> | Hhi]; [|exact Hhi]. destruct hi; [lia|exact I].
  - intros H. apply IH in H as (s1 & H1 & H).
    eexists. split; [|exact H]. now exists s1.
  - destruct (xorb (word_before s) (word_after s)) eqn:E; [|discriminate].
    intros H. now exists s.
  - destruct (prev s) eqn:E; [discriminate|]. intros H. now exists s.
  - intros H. exists s.
    destruct (rest s) as [|c [|c' tl]] eqn:E; try discriminate.
    + split; [|exact H]. split; [reflexivity|now left].
    + destruct (Nat.eqb (code c) 10) eqn:Ec; [|discriminate].
      split; [|exact H]. split; [reflexivity|]. right. now exists c.
  - destruct (prev s) as [c|] eqn:E; [|discriminate].
    destruct (p c) eqn:Ep; [|discriminate]. intros H. exists s.
    split; [|exact H]. split; [reflexivity|]. now exists c.
Qed.

End RegexSemantics.

Section RegexCaptures.
Import PyStr Re.

(** *** What a match consumes *)

Lemma append_assoc (a b c : string) : (a ++ b) ++ c = a ++ (b ++ c).
Proof.
  induction a as [|x a IH]; [reflexivity|].
  change (String x ((a ++ b) ++ c) = String x (a ++ (b ++ c))). now rewrite IH.
Qed.

Lemma iter_consumes (R : mstate -> mstate -> Prop) :
  (forall s s' : mstate, R s s' -> exists w : string, rest s = w ++ rest s') ->
  forall (n : nat) (s s' : mstate),
    iter R n s s' -> exists w : string, rest s = w ++ rest s'.
Proof.
  intros HR. induction n as [|n IH]; intros s s'; cbn [iter].
  - intros ->. now exists "".
  - intros (s1 & H1 & H). apply HR in H1 as [w1 E1]. apply IH in H as [w2 E2].
    exists (w1 ++ w2). rewrite E1, E2. now rewrite append_assoc.
Qed.

Lemma matches_consumes (r : regex) :
  forall s s' : mstate, re_matches r s s' -> exists w : string, rest s = w ++ rest s'.
Proof.
  induction r as [|p|r1 IH1 r2 IH2|r1 IH1 r2 IH2|greedy lo hi r IH|i r IH| | | |p];
    intros s s'; cbn [re_matches].
  - intros ->. now exists "".
  - intros (c & tl & E & _ & ->). exists (String c ""). now rewrite E.
  - intros (s1 & H1 & H2). apply IH1 in H1 as [w1 E1]. apply IH2 in H2 as [w2 E2].
    exists (w1 ++ w2). rewrite E1, E2. now rewrite append_assoc.
  - intros [H | H]; [now apply IH1|now apply IH2].
  - intros (n & _ & _ & H). eapply iter_consumes; eassumption.
  - intros (s1 & H & ->). cbn [rest]. now apply IH.
  - intros [-> _]. now exists "".
  - intros [-> _]. now exists "".
  - intros [-> _]. now exists "".
  - intros [-> _]. now exists "".
Qed.

Lemma substring_prefix (w t : string) :
  String.substring 0 (String.length w) (w ++ t) = w.
Proof.
  induction w as [|c w IH]; [now destruct t|].
  change (String c (String.substring 0 (String.length w) (w ++ t)) = String c w).
  now rewrite IH.
Qed.

Lemma consumed_prefix (s s' : mstate) (w : string) :
  rest s = w ++ rest s' -> consumed s s' = w.
Proof.
  intros E. unfold consumed. rewrite E, length_append.
  replace (String.length w + String.length (rest s') - String.length (rest s'))%nat
    with (String.length w) by lia.
  apply substring_prefix.
Qed.

(** *** Repetitions of one character class *)

Fixpoint str_all (p : ascii -> bool) (w : string) : bool :=
  match w with
  | EmptyString => true
  | String c w' => p c && str_all p w'
  end.

Lemma iter_chr (p : ascii -> bool) :
  forall (n : nat) (s s' : mstate),
    iter (re_matches (Chr p)) n s s' ->
    exists w : string,
      rest s = w ++ rest s' /\ String.length w = n /\ str_all p w = true.
Proof.
  induction n as [|n IH]; intros s s'; cbn [iter].
  - intros ->. now exists "".
  - intros (s1 & (c & tl & E & Hp & ->) & H). apply IH in H as (w & Ew & El & Ha).
    cbn [rest] in Ew. exists (String c w). rewrite E, Ew. cbn [String.length str_all].
    rewrite Hp, Ha, El. now repeat split.
Qed.

Lemma rep_chr_consumed (g : bool) (lo : nat) (hi : option nat) (p : ascii -> bool)
  (s s' : mstate) :
  re_matches (Rep g lo hi (Chr p)) s s' ->
  str_all p (consumed s s') = true
  /\ (lo <= String.length (consumed s s'))%nat
  /\ match hi with
     | Some h => (String.length (consumed s s') <= h)%nat
     | None => True
     end.
Proof.
  cbn [re_matches]. intros (n & Hlo & Hhi & H).
  apply iter_chr in H as (w & E & El & Ha).
  rewrite (consumed_prefix s s' w E), El. now repeat split.
Qed.

(** *** What the groups capture *)

(** Every group of the pattern captures a text that satisfies [P]. *)
Fixpoint groups_ok (P : nat -> string -> Prop) (r : regex) : Prop :=
  match r with
  | Grp i r' =>
      (forall s s1 : mstate, re_matches r' s s1 -> P i (consumed s s1)) /\ groups_ok P r'
  | Cat r1 r2 | Alt r1 r2 => groups_ok P r1 /\ groups_ok P r2
  | Rep _ _ _ r' => groups_ok P r'
  | _ => True
  end.

Definition caps_ok (P : nat -> string -> Prop) (cs : list (nat * string)) : Prop :=
  Forall (fun e => P (fst e) (snd e)) cs.

Lemma iter_keeps (R : mstate -> mstate -> Prop) (Q : mstate -> Prop) :
  (forall s s' : mstate, R s s' -> Q s -> Q s') ->
  forall (n : nat) (s s' : mstate), iter R n s s' -> Q s -> Q s'.
Proof.
  intros HR. induction n as [|n IH]; intros s s'; cbn [iter].
  - now intros ->.
  - intros (s1 & H1 & H) Hs. eapply IH; [exact H|]. eapply HR; eassumption.
Qed.

Lemma matches_caps (P : nat -> string -> Prop) (r : regex) :
  groups_ok P r ->
  forall s s' : mstate, re_matches r s s' -> caps_ok P (caps s) -> caps_ok P (caps s').
Proof.
  induction r as [|p|r1 IH1 r2 IH2|r1 IH1 r2 IH2|greedy lo hi r IH|i r IH| | | |p];
    cbn [groups_ok re_matches]; intros Hg s s'.
  - now intros ->.
  - now intros (c & tl & _ & _ & ->).
  - destruct Hg as [Hg1 Hg2]. intros (s1 & H1 & H2) Hs.
    eapply IH2; [exact Hg2|exact H2|]. eapply IH1; eassumption.
  - destruct Hg as [Hg1 Hg2]. intros [H | H]; [now apply IH1|now apply IH2].
  - intros (n & _ & _ & H). revert n s s' H.
    apply (iter_keeps (re_matches r) (fun s => caps_ok P (caps s))). now apply IH.
  - destruct Hg as [Hi Hg]. intros (s1 & H & ->) Hs. cbn [caps].
    constructor; [cbn [fst snd]; now apply Hi|]. eapply IH; eassumption.
  - now intros [-> _].
  - now intros [-> _].
  - now intros [-> _].
  - now intros [-> _].
Qed.

Lemma group_in_ok (P : nat -> string -> Prop) (cs : list (nat * string)) (i : nat)
  (w : string) :
  caps_ok P cs -> group_in cs i = Some w -> P i w.
Proof.
  induction 1 as [|[j t] cs Hx _ IH]; cbn [group_in]; [discriminate|].
  destruct (Nat.eqb i j) eqn:E.
  - apply Nat.eqb_eq in E. subst j. now intros [= <-].
  - exact IH.
Qed.

Lemma search_from_group (P : nat -> string -> Prop) (r : regex) :
  groups_ok P r ->
  forall (t : string) (pos : nat) (p : option ascii) (m : rmatch_obj) (i : nat)
    (w : string),
    search_from r pos p t = Some m -> group m i = Some w -> P i w.
Proof.
  intros Hg. induction t as [|c t IH]; intros pos p m i w; cbn [search_from];
    destruct (match_at r pos _) as [m0|] eqn:E; try discriminate.
  - intros [= <-]. unfold match_at in E. apply rmatch_sound in E as (s' & H & [= <-]).
    unfold group. cbn [m_caps]. apply group_in_ok.
    eapply matches_caps; [exact Hg|exact H|constructor].
  - intros [= <-]. unfold match_at in E. apply rmatch_sound in E as (s' & H & [= <-]).
    unfold group. cbn [m_caps]. apply group_in_ok.
    eapply matches_caps; [exact Hg|exact H|constructor].
  - apply IH.
Qed.

(** The groups of the leftmost match satisfy what the groups of the
    pattern ensure. *)
Lemma search_group (P : nat -> string -> Prop) (r : regex) (t : string)
  (m : rmatch_obj) (i : nat) (w : string) :
  groups_ok P r -> search r t = Some m -> group m i = Some w -> P i w.
Proof. intros Hg. unfold search. now apply search_from_group. Qed.

(** *** Digits *)

Lemma str_all_digits (w : string) : str_all is_digit w = all_digits w.
Proof. induction w as [|c w IH]; cbn; [reflexivity|now rewrite IH]. Qed.

Lemma digit_not_space (c : ascii) : is_digit c = true -> is_space c = false.
Proof.
  destruct c as [b0 b1 b2 b3 b4 b5 b6 b7].
  destruct b0, b1, b2, b3, b4, b5, b6, b7; try discriminate; reflexivity.
Qed.

Lemma rstrip_digits (w : string) : all_digits w = true -> rstrip w = w.
Proof.
  induction w as [|c w IH]; cbn [all_digits rstrip]; [reflexivity|].
  intros H. apply andb_prop in H as [Hc Hw]. rewrite (IH Hw).
  destruct w; [now rewrite (digit_not_space c Hc)|reflexivity].
Qed.

Lemma strip_digits (w : string) : all_digits w = true -> strip w = w.
Proof.
  intros H. unfold strip.
  assert (E : lstrip w = w).
  { destruct w as [|c w]; [reflexivity|]. cbn [all_digits] in H.
    apply andb_prop in H as [Hc _]. cbn [lstrip]. now rewrite (digit_not_space c Hc). }
  rewrite E. now apply rstrip_digits.
Qed.

Lemma digits_value_acc_nonneg (w : string) : forall acc : Z,
  0 <= acc -> 0 <= digits_value_acc acc w.
Proof.
  induction w as [|c w IH]; intros acc H; cbn [digits_value_acc]; [exact H|].
  apply IH. lia.
Qed.

Lemma digits_value_nonneg (w : string) : 0 <= digits_value w.
Proof. apply digits_value_acc_nonneg. lia. Qed.

Lemma int_of_digits (w : string) :
  all_digits w = true -> w <> "" -> int_of_string w = Some (digits_value w).
Proof.
  intros H Hn. unfold int_of_string. rewrite (strip_digits w H).
  destruct w as [|c w]; [contradiction|].
  assert (Hi : isdigit (String c w) = true) by exact H.
  cbn [all_digits] in H. apply andb_prop in H as [Hc _].
  destruct c as [b0 b1 b2 b3 b4 b5 b6 b7].
  destruct b0, b1, b2, b3, b4, b5, b6, b7; try discriminate Hc; now rewrite Hi.
Qed.

(** Group 1 is a non-empty run of digits. *)
Definition digits_group (i : nat) (w : string) : Prop :=
  i = 1%nat -> all_digits w = true /\ w <> "".

Lemma rep_digit_group (g : bool) (lo : nat) (hi : option nat) :
  (1 <= lo)%nat ->
  forall s s1 : mstate, re_matches (Rep g lo hi digit) s s1 -> digits_group 1 (consumed s s1).
Proof.
  intros Hlo s s1 H _. apply rep_chr_consumed in H as (Ha & Hl & _).
  rewrite str_all_digits in Ha. split; [exact Ha|].
  intros E. rewrite E in Hl. cbn in Hl. lia.
Qed.

Lemma extract_int_nonneg (r : regex) (t : string) (n : Z) :
  groups_ok digits_group r -> Nlu._extract_int r t = Some n -> 0 <= n.
Proof.
  intros Hg. unfold Nlu._extract_int.
  destruct (search r t) as [m|] eqn:E; [|discriminate].
  destruct (group m 1) as [w|] eqn:Ew; [|discriminate].
  destruct (search_group digits_group r t m 1 w Hg E Ew eq_refl) as [Ha Hn].
  rewrite (int_of_digits w Ha Hn). intros [= <-]. apply digits_value_nonneg.
Qed.

Lemma re_hp_groups : groups_ok digits_group Nlu.re_hp.
Proof.
  unfold Nlu.re_hp.
  cbn [groups_ok cats alts liti lit chri chr star plus opt times space digit].
  repeat match goal with
         | |- _ /\ _ => split
         | |- True => exact I
         end.
  apply rep_digit_group. lia.
Qed.

Lemma re_age_groups : groups_ok digits_group Nlu.re_age.
Proof.
  unfold Nlu.re_age.
  cbn [groups_ok cats alts liti lit chri chr star plus opt times space digit].
  repeat match goal with
         | |- _ /\ _ => split
         | |- True => exact I
         end.
  apply rep_digit_group. lia.
Qed.

Lemma re_bare_number_groups : groups_ok digits_group Nlu.re_bare_number.
Proof.
  unfold Nlu.re_bare_number.
  cbn [groups_ok cats alts liti lit chri chr star plus opt times space digit].
  repeat match goal with
         | |- _ /\ _ => split
         | |- True => exact I
         end.
  apply rep_digit_group. lia.
Qed.

End RegexCaptures.

(** ** The values of the entities *)

Section EntityValues.
Import PyStr Re Dialogue.

Lemma search_from_matches (r : regex) :
  forall (t : string) (pos : nat) (p : option ascii) (m : rmatch_obj),
    search_from r pos p t = Some m ->
    exists s s' : mstate, caps s = [] /\ re_matches r s s' /\ m_caps m = caps s'.
Proof.
  induction t as [|c t IH]; intros pos p m; cbn [search_from];
    destruct (match_at r pos _) as [m0|] eqn:E; try discriminate.
  - intros [= <-]. unfold match_at in E. apply rmatch_sound in E as (s' & H & [= <-]).
    eexists _, s'. split; [|split; [exact H|reflexivity]]. reflexivity.
  - intros [= <-]. unfold match_at in E. apply rmatch_sound in E as (s' & H & [= <-]).
    eexists _, s'. split; [|split; [exact H|reflexivity]]. reflexivity.
  - apply IH.
Qed.

(** The year pattern captures a year from 1950 to 2029. *)
Lemma re_year_group (t : string) (m : rmatch_obj) :
  search Nlu.re_year t = Some m ->
  exists w : string, group m 1 = Some w /\ 1950 <= digits_value w <= 2029.
Proof.
  intros H. apply search_from_matches in H as (s & s' & _ & H & Ec).
  unfold Nlu.re_year in H. cbn [cats alts lit chr digit re_matches] in H.
  destruct H as (s0 & [-> _] & s2 & (s3 & Hb & ->) & [-> _]).
  unfold group. rewrite Ec. cbn [caps group_in Nat.eqb].
  eexists. split; [reflexivity|].
  destruct Hb as [Hb | Hb].
  - destruct Hb as (sa & (sb & (c1 & t1 & E1 & P1 & ->) & (c2 & t2 & E2 & P2 & ->))
                    & (sc & (c3 & t3 & E3 & P3 & ->) & (c4 & t4 & E4 & P4 & ->))).
    cbn [rest] in *. subst t1 t2 t3.
    apply Ascii.eqb_eq in P1, P2. subst c1 c2.
    rewrite (consumed_prefix s _ (String _ (String _ (String c3 (String c4 "")))))
      by exact E1.
    unfold digits_value. cbn [digits_value_acc].
    unfold is_digit, between in P3, P4.
    apply andb_prop in P3 as [P3 P3']. apply andb_prop in P4 as [P4 P4'].
    apply Nat.leb_le in P3, P3', P4, P4'.
    change (code "1") with 49%nat. change (code "9") with 57%nat. lia.
  - destruct Hb as (sa & (sb & (c1 & t1 & E1 & P1 & ->) & (c2 & t2 & E2 & P2 & ->))
                    & (sc & (c3 & t3 & E3 & P3 & ->) & (c4 & t4 & E4 & P4 & ->))).
    cbn [rest] in *. subst t1 t2 t3.
    apply Ascii.eqb_eq in P1, P2. subst c1 c2.
    rewrite (consumed_prefix s _ (String _ (String _ (String c3 (String c4 "")))))
      by exact E1.
    unfold digits_value. cbn [digits_value_acc].
    unfold is_digit, between in P3, P4.
    apply andb_prop in P3 as [P3 P3']. apply andb_prop in P4 as [P4 P4'].
    apply Nat.leb_le in P3, P3', P4, P4'.
    change (code "2") with 50%nat. change (code "0") with 48%nat. lia.
Qed.

(** What each entity holds. *)
Definition entity_ok (k : string) (v : value) : Prop :=
  (k = "coverage_level"
   /\ exists level : string, v = VStr level /\ In level ["basic"; "standard"; "premium"])
  \/ (k = "horsepower" /\ exists n : Z, v = VInt n /\ 0 <= n)
  \/ (k = "engine_size_l" /\ exists q : Q, v = VFloat q /\ (0.8 <= q)%Q /\ (q <= 8.0)%Q)
  \/ (k = "city" /\ exists c : string, v = VStr c)
  \/ (k = "vehicle_year" /\ exists y : Z, v = VInt y /\ 1950 <= y <= 2029)
  \/ (k = "vehicle_age" /\ exists n : Z, v = VInt n /\ 0 <= n).

Lemma extract_entities_ok (user_text : string) :
  map_Forall entity_ok (Nlu.extract_entities user_text).
Proof.
  unfold Nlu.extract_entities. cbv zeta.
  repeat match goal with
         | |- map_Forall _ (match ?e with _ => _ end) => destruct e eqn:?
         | |- map_Forall _ (<[_ := _]> _) => apply map_Forall_insert_2
         | |- map_Forall _ ∅ => apply map_Forall_empty
         end;
    unfold entity_ok;
    match goal with
    | |- ("vehicle_age" = _ /\ _) \/ _ => do 5 right
    | |- ("vehicle_year" = _ /\ _) \/ _ => do 4 right; left
    | |- ("city" = _ /\ _) \/ _ => do 3 right; left
    | |- ("engine_size_l" = _ /\ _) \/ _ => do 2 right; left
    | |- ("horsepower" = _ /\ _) \/ _ => right; left
    | |- ("coverage_level" = _ /\ _) \/ _ => left
    end;
    (split; [reflexivity|]); eexists; first [reflexivity | split; [reflexivity|]].
  all: try match goal with
           | H : Nlu._extract_int Nlu.re_age _ = Some _ |- 0 <= _ =>
               exact (extract_int_nonneg _ _ _ re_age_groups H)
           | H : Nlu._extract_int Nlu.re_hp _ = Some _ |- 0 <= _ =>
               exact (extract_int_nonneg _ _ _ re_hp_groups H)
           | H : Nlu.first_level _ _ = Some _ |- In _ _ =>
               exact (first_level_names _ _ H)
           | H : search Nlu.re_year _ = Some _ |- _ <= digits_value _ <= _ =>
               let E := fresh in
               destruct (re_year_group _ _ H) as (w & E & ?); rewrite E; assumption
           | H : Qle_bool _ _ && Qle_bool _ _ = true |- _ =>
               apply andb_prop in H as [? ?]; split; now apply Qle_bool_iff
           | H : (_ <=? _) && (_ <=? _) = true |- _ =>
               apply andb_prop in H as [? ?]; lia
           | H : (_ <? _) && (_ <=? _) = true |- _ =>
               apply andb_prop in H as [? ?]; lia
           | |- True => exact I
           end.
Qed.

End EntityValues.

Section NonNegative.
Import PyStr Re Dialogue.
Context {F : FloatOps}.
Variables (CURRENT_YEAR : Z) (rag : RAGIndex).

Local Abbreviation pre_intent := (pre_intent CURRENT_YEAR).
Local Abbreviation pre_state := (pre_state CURRENT_YEAR).
Local Abbreviation reachable := (reachable CURRENT_YEAR rag).
Local Abbreviation dispatch := (dispatch CURRENT_YEAR rag).
Local Abbreviation year_step := (year_step CURRENT_YEAR).

(** The vehicle age and the horsepower: absent, or non-negative
    integers. *)
Definition vehicle_ok (s : slots_t) : Prop :=
  counter_ok s "vehicle_age" /\ counter_ok s "horsepower".

Lemma vehicle_ok_agree (s s' : slots_t) :
  s' !! "vehicle_age" = s !! "vehicle_age" ->
  s' !! "horsepower" = s !! "horsepower" ->
  vehicle_ok s -> vehicle_ok s'.
Proof.
  intros E1 E2 [H1 H2]. split; intros v Hv; [rewrite E1 in Hv|rewrite E2 in Hv]; auto.
Qed.

Lemma counter_ok_insert (s : slots_t) (k : string) (n : Z) :
  0 <= n -> counter_ok (<[k := VInt n]> s) k.
Proof. intros Hn v. rewrite lookup_insert_eq. intros [= <-]. now exists n. Qed.

Lemma counter_ok_insert_ne (s : slots_t) (a k : string) (v : value) :
  a <> k -> counter_ok s k -> counter_ok (<[a := v]> s) k.
Proof. intros Hne H v'. rewrite lookup_insert_ne by exact Hne. apply H. Qed.

Lemma union_entities_vehicle_ok (user_text : string) (s : slots_t) :
  vehicle_ok s -> vehicle_ok (Nlu.extract_entities user_text ∪ s).
Proof.
  intros [H1 H2].
  pose proof (extract_entities_ok user_text) as He.
  split; intros v; rewrite lookup_union;
    match goal with
    | |- context [Nlu.extract_entities user_text !! ?k] =>
        destruct (Nlu.extract_entities user_text !! k) as [v0|] eqn:E
    end.
  - intros Hv. assert (v = v0) as -> by (destruct (s !! "vehicle_age"); now injection Hv).
    destruct (He _ _ E) as [[? _] | [[? _] | [[? _] | [[? _] | [[? _] | [_ Hk]]]]]];
      try discriminate. exact Hk.
  - destruct (s !! "vehicle_age") as [v1|] eqn:E1; cbn; [|discriminate].
    intros [= <-]. now apply H1.
  - intros Hv. assert (v = v0) as -> by (destruct (s !! "horsepower"); now injection Hv).
    destruct (He _ _ E) as [[? _] | [[? Hk] | [[? _] | [[? _] | [[? _] | [? _]]]]]];
      try discriminate. exact Hk.
  - destruct (s !! "horsepower") as [v1|] eqn:E1; cbn; [|discriminate].
    intros [= <-]. now apply H2.
Qed.

Lemma merge_entities_vehicle_ok (user_text t : string) (li : option string) (s : slots_t) :
  vehicle_ok s -> vehicle_ok (merge_entities CURRENT_YEAR user_text t li s).
Proof.
  intros Hs. rewrite merge_entities_steps.
  apply (union_entities_vehicle_ok user_text) in Hs.
  set (s1 := Nlu.extract_entities user_text ∪ s) in *. clearbody s1.
  assert (H2 : vehicle_ok (city_step s1)).
  { revert Hs. apply vehicle_ok_agree; now apply city_step_frame. }
  set (s2 := city_step s1) in *. clearbody s2.
  assert (H3 : vehicle_ok (year_step s2)).
  { destruct H2 as [Ha Hh]. unfold year_step.
    destruct (s2 !! "vehicle_year") as [v|]; [|now split].
    destruct (py_int v) as [y|]; [|now split].
    destruct ((1950 <=? y) && (y <=? CURRENT_YEAR)) eqn:Er; [|now split].
    apply andb_prop in Er as [_ Er]. apply Z.leb_le in Er.
    split; [apply counter_ok_insert; lia|now apply counter_ok_insert_ne]. }
  set (s3 := year_step s2) in *. clearbody s3.
  destruct H3 as [Ha Hh]. unfold age_step. cbv zeta.
  destruct (negb (has s3 "vehicle_age")); [|now split].
  destruct (search re_age_is t).
  { split; [apply counter_ok_insert, digits_value_nonneg|now apply counter_ok_insert_ne]. }
  destruct (fullmatch re_two_digits t); [|now split].
  destruct ((0 <? digits_value t) && (digits_value t <? 100)
            && bool_decide (li = Some "premium_estimate")); [|now split].
  split; [apply counter_ok_insert, digits_value_nonneg|now apply counter_ok_insert_ne].
Qed.

Lemma premium_quote_vehicle_ok (t : string) (st st' : SessionState) (r : TurnResult) :
  vehicle_ok (slots st) -> premium_quote t st = Return r st' -> vehicle_ok (slots st').
Proof.
  intros [Ha Hh] H.
  assert (He : forall es : Q, 0 <= fst (estimate_hp_from_engine_size es)).
  { intros es. pose proof (estimate_hp_range es). lia. }
  unfold premium_quote in H. cbv zeta in H.
  repeat (case_match; simplify_eq); cbn [slots with_slots]; split;
    repeat first
      [ assumption
      | apply counter_ok_insert_ne; [discriminate|]
      | match goal with
        | H : estimate_hp_from_engine_size ?es = (?z, _)
          |- counter_ok (<["horsepower" := VInt ?z]> _) "horsepower" =>
            apply counter_ok_insert; specialize (He es); rewrite H in He; exact He
        end ].
Qed.

Lemma dispatch_vehicle_ok (now : Clock.datetime) (user_text : string)
  (st st' : SessionState) (r : TurnResult) :
  vehicle_ok (slots st) ->
  dispatch now user_text st = Return r st' -> vehicle_ok (slots st').
Proof.
  intros Hs.
  assert (Hp : vehicle_ok (slots (pre_state user_text st))).
  { eapply vehicle_ok_agree; [apply pre_state_merge; reflexivity
                             |apply pre_state_merge; reflexivity|].
    now apply merge_entities_vehicle_ok. }
  unfold dispatch. cbv zeta.
  destruct (String.eqb (pre_intent user_text st) "handoff_human"
            || _contains_any (norm user_text) handoff_phrases).
  { intros [= _ <-]. exact Hp. }
  destruct (String.eqb (pre_intent user_text st) "report_claim").
  { intros H. revert Hp.
    apply vehicle_ok_agree; now apply (claim_intake_frame now user_text _ _ r). }
  destruct (String.eqb (pre_intent user_text st) "premium_estimate").
  { now apply premium_quote_vehicle_ok. }
  destruct (String.eqb (pre_intent user_text st) "compare_coverage").
  { intros H. apply compare_coverage_state in H as [-> _]. exact Hp. }
  unfold doc_qa. cbv zeta. destruct (rag _ _) as [docs|]; [|discriminate].
  destruct (_qa_answer_or_followup _ _ _) as [[answer s']|] eqn:Eq; [|discriminate].
  intros [= _ <-]. revert Hp. cbn [slots with_slots].
  apply vehicle_ok_agree; now apply (qa_frame user_text docs _ _ answer).
Qed.

Lemma reachable_vehicle_ok (st : SessionState) : reachable st -> vehicle_ok (slots st).
Proof.
  induction 1 as [|now user_text st st' r _ IH H].
  - split; intros v Hv; discriminate Hv.
  - destruct (_contains_any (norm user_text) EXIT_WORDS) eqn:He.
    + rewrite dialogue_manager_exit in H by exact He. injection H as _ <-.
      revert IH. apply vehicle_ok_agree; now apply exit_state_slot.
    + rewrite dialogue_manager_dispatch in H by exact He.
      eapply dispatch_vehicle_ok; eassumption.
Qed.

End NonNegative.

(** X23. What the entity extractor returns is in range, for every
    utterance: it has no other keys than coverage_level, horsepower,
    engine_size_l, city, vehicle_year and vehicle_age; the coverage
    level is one of basic, standard and premium; the horsepower and the
    vehicle age are integers that are not negative; the engine size is
    between 0.8 and 8.0; the city is a text; and the vehicle year is
    between 1950 and 2029. *)
Theorem extracted_entities_in_range (user_text k : string) (v : value) :
  Nlu.extract_entities user_text !! k = Some v ->
  (k = "coverage_level"
   /\ exists level : string, v = VStr level /\ In level ["basic"; "standard"; "premium"])
  \/ (k = "horsepower" /\ exists n : Z, v = VInt n /\ 0 <= n)
  \/ (k = "engine_size_l" /\ exists q : Q, v = VFloat q /\ (0.8 <= q)%Q /\ (q <= 8.0)%Q)
  \/ (k = "city" /\ exists c : string, v = VStr c)
  \/ (k = "vehicle_year" /\ exists y : Z, v = VInt y /\ 1950 <= y <= 2029)
  \/ (k = "vehicle_age" /\ exists n : Z, v = VInt n /\ 0 <= n).
Proof. apply (extract_entities_ok user_text). Qed.

Lemma extracted_entities_in_range_witness :
  exists y : Z, VInt 2015 = VInt y /\ 1950 <= y <= 2029.
Proof.
  destruct (extracted_entities_in_range "my car is from 2015" "vehicle_year" (VInt 2015))
    as [[E _] | [[E _] | [[E _] | [[E _] | [[_ H] | [E _]]]]]];
    [vm_compute; reflexivity|discriminate E..| |discriminate E].
  exact H.
Defined.

(** X24. The vehicle age and the horsepower of a session are never
    negative: in every state a session can reach, each of the slots
    vehicle_age and horsepower is absent or holds an integer that is at
    least zero, so the quote and the comparison are always computed on
    the values for which the price formula is meant. *)
Theorem vehicle_age_and_horsepower_non_negative {F : FloatOps} (CURRENT_YEAR : Z)
  (rag : Dialogue.RAGIndex) (st : Dialogue.SessionState) (k : string) (v : value) :
  reachable CURRENT_YEAR rag st ->
  k = "vehicle_age" \/ k = "horsepower" ->
  Dialogue.slots st !! k = Some v ->
  exists n : Z, v = VInt n /\ 0 <= n.
Proof.
  intros Hr Hk Hv. destruct (reachable_vehicle_ok CURRENT_YEAR rag st Hr) as [H1 H2].
  destruct Hk as [-> | ->]; [now apply H1|now apply H2].
Qed.

Lemma vehicle_age_and_horsepower_non_negative_witness :
  exists n : Z, VInt 11 = VInt n /\ 0 <= n.
Proof.
  apply (vehicle_age_and_horsepower_non_negative (F := ExactFloat.ops) Demo.year Demo.rag
           demo_quote_state "vehicle_age" (VInt 11)).
  - exact demo_quote_state_reachable.
  - now left.
  - reflexivity.
Defined.

(** ** Digits, dates and cities *)

Section SpokenDigits.
Import PyStr Re Dialogue.











End SpokenDigits.


Section ParseDate.
Import PyStr Re Dialogue.







End ParseDate.



Section CityShape.
Import PyStr Dialogue.

Lemma lower_empty (s : string) : lower s = "" -> s = "".
Proof. destruct s; [reflexivity|discriminate]. Qed.

Lemma normalize_city_trimmed (city : string) :
  strip (normalize_city city) = normalize_city city.
Proof.
  rewrite (normalize_city_unfold city). cbv zeta.
  destruct (String.eqb (lower (strip city)) ""); [apply strip_idemp|].
  destruct (lj_rule (lower (strip city))); [reflexivity|].
  destruct (known_get known (lower (strip city))) as [v|] eqn:E.
  - apply known_get_values in E. destruct E as [-> | [-> | ->]]; reflexivity.
  - apply strip_idemp.
Qed.

Lemma normalize_city_blank (city : string) :
  normalize_city city = "" <-> strip city = "".
Proof.
  rewrite (normalize_city_unfold city). cbv zeta.
  destruct (String.eqb (lower (strip city)) "") eqn:E0.
  - tauto.
  - apply String.eqb_neq in E0. split.
    + destruct (lj_rule (lower (strip city))); [discriminate|].
      destruct (known_get known (lower (strip city))) as [v|] eqn:E; [|tauto].
      apply known_get_values in E. destruct E as [-> | [-> | ->]]; discriminate.
    + intros E. rewrite E in E0. contradiction.
Qed.

End CityShape.

(** X27. A normalized city has no blank at either end, and it is empty
    exactly when the input is blank: [normalize_city] returns a text
    that [strip] leaves unchanged, and returns the empty text if and
    only if the input consists of white space only. *)
Theorem normalized_city_is_trimmed (city : string) :
  PyStr.strip (Dialogue.normalize_city city) = Dialogue.normalize_city city
  /\ (Dialogue.normalize_city city = "" <-> PyStr.strip city = "").
Proof. split; [apply normalize_city_trimmed|apply normalize_city_blank]. Qed.

(** ** The stored policy number *)

Section PolicyNumberShape.
Import PyStr Re Dialogue.
Context {F : FloatOps}.
Variables (CURRENT_YEAR : Z) (rag : RAGIndex).

Local Abbreviation pre_state := (pre_state CURRENT_YEAR).
Local Abbreviation reachable := (reachable CURRENT_YEAR rag).

(** The token pattern captures five characters or more. *)
Lemma re_policy_token_group (t : string) (m : rmatch_obj) :
  search re_policy_token t = Some m ->
  exists w : string,
    group m 1 = Some w /\ (5 <= String.length w)%nat /\ str_all is_alnum_dash w = true.
Proof.
  intros H. apply search_from_matches in H as (s & s' & _ & H & Ec).
  unfold re_policy_token in H. cbn [cats at_least re_matches] in H.
  destruct H as (s0 & [-> _] & s1 & (a & (b & (c & tl & E & Hc & ->) & (n & Hn & _ & Hi))
                                      & ->) & [-> _]).
  apply iter_chr in Hi as (w & Ew & El & Ha). cbn [rest] in Ew.
  unfold group. rewrite Ec. cbn [caps group_in Nat.eqb].
  exists (String c w). split; [|split].
  - f_equal. apply consumed_prefix. rewrite E, Ew. reflexivity.
  - cbn [String.length]. lia.
  - cbn [str_all]. rewrite Ha, andb_true_r. unfold is_alnum_dash. now rewrite Hc.
Qed.

Lemma policy_number_length (text : string) :
  _extract_policy_number text <> "" ->
  (6 <= String.length (_extract_policy_number text))%nat.
Proof.
  unfold _extract_policy_number. cbv zeta.
  destruct (Nat.leb 6 _) eqn:E; [intros _; now apply Nat.leb_le in E|congruence].
Qed.

(** The policy number of a session: absent, or a text of five
    characters or more. *)
Definition policy_ok (s : slots_t) : Prop :=
  forall v : value,
    s !! "insurance_number" = Some v ->
    exists w : string, v = VStr w /\ (5 <= String.length w)%nat.

Lemma policy_ok_agree (s s' : slots_t) :
  s' !! "insurance_number" = s !! "insurance_number" -> policy_ok s -> policy_ok s'.
Proof. intros E H v Hv. rewrite E in Hv. now apply H. Qed.

Lemma policy_ok_fill (s : slots_t) (w : string) :
  (5 <= String.length w)%nat ->
  policy_ok (delete "claim_expected" (<["insurance_number" := VStr w]> s)).
Proof.
  intros Hw v. rewrite lookup_delete_ne by discriminate. rewrite lookup_insert_eq.
  intros [= <-]. now exists w.
Qed.

Lemma claim_apply_policy (now : Clock.datetime) (user_text : string) (s : slots_t) :
  policy_ok s -> policy_ok (_claim_apply_expected_answer now user_text s).
Proof.
  intros Hs. unfold _claim_apply_expected_answer.
  destruct (s !! "claim_expected") as [ev|]; [|exact Hs].
  destruct (negb (truthy ev)); [exact Hs|]. cbv zeta.
  destruct ev as [expected| | | |]; try exact Hs.
  destruct (mem expected ["injuries"; "vehicle_drivable"; "third_party_involved"]) eqn:E.
  { apply mem_true_iff in E. cbn [In] in E.
    destruct (_parse_yes_no user_text); [|exact Hs].
    revert Hs. apply policy_ok_agree.
    destruct E as [<- | [<- | [<- | []]]];
      rewrite lookup_delete_ne by discriminate; now rewrite lookup_insert_ne by discriminate. }
  destruct (String.eqb expected "police_report").
  { destruct (_parse_yes_no user_text) as [b|]; [|exact Hs].
    revert Hs. apply policy_ok_agree. rewrite lookup_delete_ne by discriminate.
    destruct b; [destruct (search re_report_ref user_text)|];
      now rewrite ?lookup_insert_ne by discriminate. }
  destruct (String.eqb expected "accident_date").
  { destruct (nonempty (_parse_date now user_text)); [|exact Hs].
    revert Hs. apply policy_ok_agree. rewrite lookup_delete_ne by discriminate.
    now rewrite lookup_insert_ne by discriminate. }
  destruct (String.eqb expected "accident_city").
  { destruct (_extract_accident_location user_text) as [area city].
    match goal with |- policy_ok (if nonempty ?c then _ else _) => destruct (nonempty c) end;
      [|exact Hs].
    revert Hs. apply policy_ok_agree. rewrite lookup_delete_ne by discriminate.
    destruct (nonempty area); now rewrite ?lookup_insert_ne by discriminate. }
  destruct (mem expected ["insurance_number"; "policy_number"]).
  { destruct (negb (String.eqb (_extract_policy_number (strip user_text)) "")) eqn:Ep.
    - apply policy_ok_fill. apply negb_true_iff, String.eqb_neq in Ep.
      apply policy_number_length in Ep. lia.
    - destruct (search re_policy_token (strip user_text)) as [m|] eqn:Em; [|exact Hs].
      destruct (re_policy_token_group _ m Em) as (w & -> & Hw & _).
      now apply policy_ok_fill. }
  destruct (String.eqb expected "accident_description"); [|exact Hs].
  destruct (Nat.ltb 5 (String.length (strip user_text))); [|exact Hs].
  revert Hs. apply policy_ok_agree. rewrite lookup_delete_ne by discriminate.
  now rewrite lookup_insert_ne by discriminate.
Qed.

Lemma claim_intake_policy (now : Clock.datetime) (user_text : string)
  (st st' : SessionState) (r : TurnResult) :
  policy_ok (slots st) ->
  claim_intake now user_text st = Return r st' -> policy_ok (slots st').
Proof.
  intros Hs.
  assert (Hc : policy_ok (_claim_apply_expected_answer now user_text
                 (_claim_update_from_text now user_text
                    (<["in_claim_intake" := VBool true]> (slots st))))).
  { apply claim_apply_policy. revert Hs. apply policy_ok_agree.
    rewrite claim_update_frame by reflexivity.
    now rewrite lookup_insert_ne by discriminate. }
  unfold claim_intake. cbv zeta.
  destruct (_claim_missing_slots _) as [|next_key rest].
  - unfold _generate_claim_number. cbv zeta. intros [= _ <-].
    cbn [slots with_slots last_intent turns]. revert Hc. apply policy_ok_agree.
    rewrite lookup_delete_ne by discriminate.
    now rewrite !lookup_insert_ne by discriminate.
  - intros [= _ <-]. cbn [slots with_slots]. revert Hc. apply policy_ok_agree.
    now rewrite lookup_insert_ne by discriminate.
Qed.

Lemma reachable_policy_ok (st : SessionState) : reachable st -> policy_ok (slots st).
Proof.
  induction 1 as [|now user_text st st' r _ IH H].
  - intros v Hv. discriminate Hv.
  - destruct (_contains_any (norm user_text) EXIT_WORDS) eqn:He.
    + rewrite dialogue_manager_exit in H by exact He. injection H as _ <-.
      revert IH. apply policy_ok_agree. now apply exit_state_slot.
    + assert (Hp : policy_ok (slots (pre_state user_text st))).
      { revert IH. apply policy_ok_agree. now apply pre_state_slot. }
      destruct (dm_routes CURRENT_YEAR rag now user_text st st' r He H)
        as [[_ Hc] | (_ & Hfr & _)].
      * eapply claim_intake_policy; eassumption.
      * revert Hp. apply policy_ok_agree. now apply Hfr.
Qed.

End PolicyNumberShape.

(** X28. A policy number is only ever stored with five characters or
    more: in every state a session can reach, the insurance_number
    slot is absent or holds a text of at least five characters, the
    digit string of the spoken-digit recovery having at least six and
    the fallback token at least five. *)
Theorem stored_policy_number_length {F : FloatOps} (CURRENT_YEAR : Z)
  (rag : Dialogue.RAGIndex) (st : Dialogue.SessionState) (v : value) :
  reachable CURRENT_YEAR rag st ->
  Dialogue.slots st !! "insurance_number" = Some v ->
  exists w : string, v = VStr w /\ (5 <= String.length w)%nat.
Proof.
  intros Hr. apply (reachable_policy_ok CURRENT_YEAR rag st Hr).
Qed.

Lemma stored_policy_number_length_witness :
  exists w : string, VStr "123456" = VStr w /\ (5 <= String.length w)%nat.
Proof.
  apply (stored_policy_number_length (F := ExactFloat.ops) Demo.year Demo.rag
           demo_intake_state (VStr "123456")).
  - exact demo_intake_state_reachable.
  - reflexivity.
Defined.


(** ** The stored accident city *)

Section AccidentCity.
Import PyStr Re Dialogue.
Context {F : FloatOps}.
Variables (CURRENT_YEAR : Z) (rag : RAGIndex).

Local Abbreviation pre_state := (pre_state CURRENT_YEAR).
Local Abbreviation reachable := (reachable CURRENT_YEAR rag).

(** The city of an accident location is a normalized city. *)
Lemma location_city_normal (text c : string) :
  snd (_extract_accident_location text) = Some c -> normalize_city c = c.
Proof.
  unfold _extract_accident_location. cbv zeta.
  destruct (search re_location (strip text)) as [m|]; [|discriminate].
  destruct (negb (String.eqb (strip (default "" (group m 2))) ""));
    cbn [snd]; intros [= <-]; apply normalize_city_idempotent.
Qed.

Lemma nonempty_some (o : option string) :
  nonempty o = true -> exists c : string, o = Some c.
Proof. destruct o as [c|]; [now exists c|discriminate]. Qed.

(** The city of the accident: absent, or a text in normal form. *)
Definition accident_ok (s : slots_t) : Prop :=
  forall v : value,
    s !! "accident_city" = Some v ->
    exists c : string, v = VStr c /\ normalize_city c = c.

Lemma accident_ok_agree (s s' : slots_t) :
  s' !! "accident_city" = s !! "accident_city" -> accident_ok s -> accident_ok s'.
Proof. intros E H v Hv. rewrite E in Hv. now apply H. Qed.

Lemma accident_ok_insert (s : slots_t) (c : string) :
  normalize_city c = c -> accident_ok (<["accident_city" := VStr c]> s).
Proof. intros Hc v. rewrite lookup_insert_eq. intros [= <-]. now exists c. Qed.

Lemma guarded_insert_other (c : bool) (a k : string) (x : value) (s : slots_t) :
  a <> k -> (if c && negb (has s a) then <[a := x]> s else s) !! k = s !! k.
Proof.
  intros Hne. destruct (c && negb (has s a)); [now rewrite lookup_insert_ne|reflexivity].
Qed.

Lemma claim_update_accident (now : Clock.datetime) (user_text : string) (s : slots_t) :
  accident_ok s -> accident_ok (_claim_update_from_text now user_text s).
Proof.
  intros Hs. unfold _claim_update_from_text. cbv zeta.
  destruct (_extract_accident_location user_text) as [area city] eqn:El.
  assert (H1 : accident_ok (if nonempty city && negb (has s "accident_city")
                            then <["accident_city" := VStr (default "" city)]> s else s)).
  { destruct (nonempty city) eqn:En; cbn [andb]; [|exact Hs].
    destruct (negb (has s "accident_city")); [|exact Hs].
    apply nonempty_some in En as [c ->]. cbn [default from_option].
    apply accident_ok_insert. apply (location_city_normal user_text). now rewrite El. }
  revert H1. apply accident_ok_agree.
  destruct (search re_report_ref user_text);
    [rewrite lookup_insert_ne by discriminate|];
    (destruct (any_in accident_words (strip (lower user_text)));
     [rewrite guarded_insert_other by discriminate
     |match goal with |- (if ?c then ?a else ?a) !! _ = _ => destruct c end];
     now rewrite !guarded_insert_other by discriminate).
Qed.

Lemma claim_apply_accident (now : Clock.datetime) (user_text : string) (s : slots_t) :
  accident_ok s -> accident_ok (_claim_apply_expected_answer now user_text s).
Proof.
  intros Hs. unfold _claim_apply_expected_answer.
  destruct (s !! "claim_expected") as [ev|]; [|exact Hs].
  destruct (negb (truthy ev)); [exact Hs|]. cbv zeta.
  destruct ev as [expected| | | |]; try exact Hs.
  destruct (mem expected ["injuries"; "vehicle_drivable"; "third_party_involved"]) eqn:E.
  { apply mem_true_iff in E. cbn [In] in E.
    destruct (_parse_yes_no user_text); [|exact Hs].
    revert Hs. apply accident_ok_agree.
    destruct E as [<- | [<- | [<- | []]]];
      rewrite lookup_delete_ne by discriminate; now rewrite lookup_insert_ne by discriminate. }
  destruct (String.eqb expected "police_report").
  { destruct (_parse_yes_no user_text) as [b|]; [|exact Hs].
    revert Hs. apply accident_ok_agree. rewrite lookup_delete_ne by discriminate.
    destruct b; [destruct (search re_report_ref user_text)|];
      now rewrite ?lookup_insert_ne by discriminate. }
  destruct (String.eqb expected "accident_date").
  { destruct (nonempty (_parse_date now user_text)); [|exact Hs].
    revert Hs. apply accident_ok_agree. rewrite lookup_delete_ne by discriminate.
    now rewrite lookup_insert_ne by discriminate. }
  destruct (String.eqb expected "accident_city").
  { destruct (_extract_accident_location user_text) as [area city] eqn:El.
    match goal with
    | |- accident_ok (if nonempty ?c then _ else _) =>
        assert (Hc : forall c0 : string, c = Some c0 -> normalize_city c0 = c0);
        [|destruct (nonempty c) eqn:En; [|exact Hs];
          apply nonempty_some in En as [c0 En]; rewrite En; cbn [default from_option];
          specialize (Hc c0 En)]
    end.
    { intros c0. destruct (negb (nonempty city)).
      - match goal with |- (if ?b then _ else _) = _ -> _ => destruct b end.
        + intros [= <-]. apply normalize_city_idempotent.
        + intros E0. apply (location_city_normal user_text). now rewrite El.
      - intros E0. apply (location_city_normal user_text). now rewrite El. }
    intros v. rewrite lookup_delete_ne by discriminate.
    destruct (nonempty area); rewrite ?(lookup_insert_ne _ "accident_area") by discriminate;
      now apply accident_ok_insert. }
  destruct (mem expected ["insurance_number"; "policy_number"]).
  { destruct (negb (String.eqb (_extract_policy_number (strip user_text)) ""));
      [|destruct (search re_policy_token (strip user_text)); [|exact Hs]];
      revert Hs; apply accident_ok_agree; rewrite lookup_delete_ne by discriminate;
      now rewrite lookup_insert_ne by discriminate. }
  destruct (String.eqb expected "accident_description"); [|exact Hs].
  destruct (Nat.ltb 5 (String.length (strip user_text))); [|exact Hs].
  revert Hs. apply accident_ok_agree. rewrite lookup_delete_ne by discriminate.
  now rewrite lookup_insert_ne by discriminate.
Qed.

Lemma claim_intake_accident (now : Clock.datetime) (user_text : string)
  (st st' : SessionState) (r : TurnResult) :
  accident_ok (slots st) ->
  claim_intake now user_text st = Return r st' -> accident_ok (slots st').
Proof.
  intros Hs.
  assert (Hc : accident_ok (_claim_apply_expected_answer now user_text
                 (_claim_update_from_text now user_text
                    (<["in_claim_intake" := VBool true]> (slots st))))).
  { apply claim_apply_accident, claim_update_accident. revert Hs.
    apply accident_ok_agree. now rewrite lookup_insert_ne by discriminate. }
  unfold claim_intake. cbv zeta.
  destruct (_claim_missing_slots _) as [|next_key rest].
  - unfold _generate_claim_number. cbv zeta. intros [= _ <-].
    cbn [slots with_slots last_intent turns]. revert Hc. apply accident_ok_agree.
    rewrite lookup_delete_ne by discriminate.
    now rewrite !lookup_insert_ne by discriminate.
  - intros [= _ <-]. cbn [slots with_slots]. revert Hc. apply accident_ok_agree.
    now rewrite lookup_insert_ne by discriminate.
Qed.

Lemma reachable_accident_ok (st : SessionState) : reachable st -> accident_ok (slots st).
Proof.
  induction 1 as [|now user_text st st' r _ IH H].
  - intros v Hv. discriminate Hv.
  - destruct (_contains_any (norm user_text) EXIT_WORDS) eqn:He.
    + rewrite dialogue_manager_exit in H by exact He. injection H as _ <-.
      revert IH. apply accident_ok_agree. now apply exit_state_slot.
    + assert (Hp : accident_ok (slots (pre_state user_text st))).
      { revert IH. apply accident_ok_agree. now apply pre_state_slot. }
      destruct (dm_routes CURRENT_YEAR rag now user_text st st' r He H)
        as [[_ Hc] | (_ & Hfr & _)].
      * eapply claim_intake_accident; eassumption.
      * revert Hp. apply accident_ok_agree. now apply Hfr.
Qed.

End AccidentCity.

(** A session after the city of the accident has been given. *)
Definition demo_city_state : Dialogue.SessionState :=
  Eval vm_compute in
    default Dialogue.new_session
      (Demo.after ["I had a crash"; "one two three four five six"; "no"; "lublana"]
         Dialogue.new_session).

Lemma demo_city_state_reachable :
  reachable (F := ExactFloat.ops) Demo.year Demo.rag demo_city_state.
Proof.
  apply (reach_turn Demo.year Demo.rag Demo.now "lublana"
           (default Dialogue.new_session
              (Demo.after ["I had a crash"; "one two three four five six"; "no"]
                 Dialogue.new_session))
           demo_city_state
           (Dialogue.mkTurnResult (Dialogue._ask_claim_question "accident_date") false)).
  - apply (reach_turn Demo.year Demo.rag Demo.now "no" demo_intake_state _
             (Dialogue.mkTurnResult (Dialogue._ask_claim_question "accident_city") false)).
    + exact demo_intake_state_reachable.
    + vm_compute. reflexivity.
  - vm_compute. reflexivity.
Defined.

(** X29. The city of an accident is stored in normal form: in every
    state a session can reach, the accident_city slot, when present,
    holds a text that [normalize_city] leaves unchanged, whether it
    was read from a free-text location or from the answer to the city
    question. *)
Theorem stored_accident_city_is_normalized {F : FloatOps} (CURRENT_YEAR : Z)
  (rag : Dialogue.RAGIndex) (st : Dialogue.SessionState) (v : value) :
  reachable CURRENT_YEAR rag st ->
  Dialogue.slots st !! "accident_city" = Some v ->
  exists c : string, v = VStr c /\ Dialogue.normalize_city c = c.
Proof.
  intros Hr. apply (reachable_accident_ok CURRENT_YEAR rag st Hr).
Qed.

Lemma stored_accident_city_is_normalized_witness :
  exists c : string, VStr "Ljubljana" = VStr c /\ Dialogue.normalize_city c = c.
Proof.
  apply (stored_accident_city_is_normalized (F := ExactFloat.ops) Demo.year Demo.rag
           demo_city_state (VStr "Ljubljana")).
  - exact demo_city_state_reachable.
  - reflexivity.
Defined.
